(** * Plan-mode engine (ReWOO orchestration) of agent-copilot: a shallow embedding

    The development follows [plan-mode.ts]: string helpers of the JavaScript
    runtime first, then the orchestrator decision parser, the three read-only
    tool executors, the plan runner and finally the session state machine of
    [planModeChat].  Strings are sequences of UTF-16 code units, exactly as
    [String.prototype.length], [slice], [trim] and the regular expressions of
    the source see them. *)

From Stdlib Require Import NArith List Lia String Ascii Decimal DecimalNat.
From stdpp Require Import base option list gmap sets.

Import ListNotations.
Local Open Scope nat_scope.

(** ** JavaScript strings *)

Module JS.

(** A string is the list of its UTF-16 code units, each a number [N]. *)

(** A Rocq literal read as a JavaScript string (ASCII literals only). *)
Definition lit (s : string) : list N :=
  map N_of_ascii (list_ascii_of_string s).

Definition eqc (a b : N) : bool := N.eqb a b.

Definition inRange (lo hi c : N) : bool :=
  (N.leb lo c && N.leb c hi)%bool.

(** [\d] without the unicode flag: the ten ASCII digits. *)
Definition isDigit (c : N) : bool := inRange 48 57 c.

(** The character class [[A-Za-z0-9_]]. *)
Definition isWordChar (c : N) : bool :=
  (inRange 65 90 c || inRange 97 122 c || isDigit c || eqc c 95)%bool.

(** ECMAScript LineTerminator: LF, CR, LS, PS.  This is what [.] refuses and
    where [^] and [$] anchor under the [m] flag. *)
Definition isLineTerminator (c : N) : bool :=
  (eqc c 10 || eqc c 13 || eqc c 8232 || eqc c 8233)%bool.

(** ECMAScript WhiteSpace plus LineTerminator: what [\s] matches and what
    [trim] strips. *)
Definition isSpace (c : N) : bool :=
  (inRange 9 13 c || eqc c 32 || eqc c 160 || eqc c 5760
   || inRange 8192 8202 c || eqc c 8232 || eqc c 8233 || eqc c 8239
   || eqc c 8287 || eqc c 12288 || eqc c 65279)%bool.

Fixpoint trimStart (s : list N) : list N :=
  match s with
  | c :: s' => if isSpace c then trimStart s' else s
  | [] => []
  end.

Definition trimEnd (s : list N) : list N := rev (trimStart (rev s)).

Definition trim (s : list N) : list N := trimEnd (trimStart s).

(** ASCII case folding, enough for identifiers over [[A-Za-z0-9_]] and for
    the [i] flag on an ASCII pattern. *)
Definition lowerAscii (c : N) : N :=
  if inRange 65 90 c then (c + 32)%N else c.

Fixpoint uintChars (u : Decimal.uint) : list N :=
  match u with
  | Nil => []
  | D0 u' => 48%N :: uintChars u'
  | D1 u' => 49%N :: uintChars u'
  | D2 u' => 50%N :: uintChars u'
  | D3 u' => 51%N :: uintChars u'
  | D4 u' => 52%N :: uintChars u'
  | D5 u' => 53%N :: uintChars u'
  | D6 u' => 54%N :: uintChars u'
  | D7 u' => 55%N :: uintChars u'
  | D8 u' => 56%N :: uintChars u'
  | D9 u' => 57%N :: uintChars u'
  end.

(** [String(n)] for a non-negative integer. *)
Definition ofNat (n : nat) : list N := uintChars (Nat.to_uint n).

(** [parts.join(sep)]. *)
Fixpoint join (sep : list N) (parts : list (list N)) : list N :=
  match parts with
  | [] => []
  | [p] => p
  | p :: rest => p ++ sep ++ join sep rest
  end.

(** [s.split(c)] for a one-character separator: never an empty list. *)
Fixpoint splitOn (sep : N) (s : list N) : list (list N) :=
  match s with
  | [] => [[]]
  | c :: s' =>
      if eqc c sep then [] :: splitOn sep s'
      else match splitOn sep s' with
           | p :: ps => (c :: p) :: ps
           | [] => [[c]]
           end
  end.

(** JavaScript truthiness of a string: non-empty. *)
Definition truthy (s : list N) : bool :=
  match s with [] => false | _ => true end.

(** [a || d] where [a] is a string or [undefined]. *)
Definition orElse (a : option (list N)) (d : list N) : list N :=
  match a with
  | Some (c :: s) => c :: s
  | _ => d
  end.

(** Does [s] start with [pat], comparing code units with [eqv]? *)
Fixpoint startsWithBy (eqv : N -> N -> bool) (pat s : list N) : bool :=
  match pat, s with
  | [], _ => true
  | p :: pat', c :: s' => (eqv p c && startsWithBy eqv pat' s')%bool
  | _ :: _, [] => false
  end.

(** [s] without its prefix [pat], when it starts with it. *)
Fixpoint stripPrefix (pat s : list N) : option (list N) :=
  match pat, s with
  | [], _ => Some s
  | p :: pat', c :: s' => if eqc p c then stripPrefix pat' s' else None
  | _ :: _, [] => None
  end.

(** [s.replace(/pat/g, "")] for a literal, non-empty pattern: the matches are
    found left to right and do not overlap.  [skip] counts the code units of
    the current match that are still to be dropped. *)
Fixpoint removeAllFrom (eqv : N -> N -> bool) (pat : list N)
    (skip : nat) (s : list N) : list N :=
  match s with
  | [] => []
  | c :: s' =>
      match skip with
      | S k => removeAllFrom eqv pat k s'
      | O =>
          if startsWithBy eqv pat s
          then removeAllFrom eqv pat (length pat - 1) s'
          else c :: removeAllFrom eqv pat 0 s'
      end
  end.

Definition removeAll (eqv : N -> N -> bool) (pat s : list N) : list N :=
  removeAllFrom eqv pat 0 s.

(** Equality of code units under the [i] flag, for ASCII pattern letters. *)
Definition eqci (p c : N) : bool := eqc (lowerAscii p) (lowerAscii c).

(** The longest prefix of [s] whose code units satisfy [p], and the rest. *)
Fixpoint span (p : N -> bool) (s : list N) : list N * list N :=
  match s with
  | [] => ([], [])
  | c :: s' =>
      if p c then let '(taken, rest) := span p s' in (c :: taken, rest)
      else ([], s)
  end.


(** [hay.includes(needle)]. *)
Fixpoint includes (needle hay : list N) : bool :=
  (startsWithBy eqc needle hay
   || match hay with
      | [] => false
      | _ :: hay' => includes needle hay'
      end)%bool.

(** [content.split(/\r?\n/)]: a line ends at LF or at CR LF. *)
Fixpoint splitLines (s : list N) : list (list N) :=
  match s with
  | [] => [[]]
  | c :: s' =>
      if eqc c 10 then [] :: splitLines s'
      else if (eqc c 13 && match s' with d :: _ => eqc d 10 | [] => false end)%bool
      then splitLines s'
      else match splitLines s' with
           | p :: ps => (c :: p) :: ps
           | [] => [[c]]
           end
  end.

End JS.

Import JS.

(** ** Tool output truncation *)

Definition MAX_TOOL_OUTPUT : nat := 2000.

(** The notice appended by [truncateOutput] when [dropped] characters are cut. *)
Definition truncationNotice (dropped : nat) : list N :=
  lit (String "010"%char "... (truncated ") ++ ofNat dropped ++ lit " characters)".

Definition truncateOutput (value : list N) : list N :=
  if length value <=? MAX_TOOL_OUTPUT then value
  else take MAX_TOOL_OUTPUT value
       ++ truncationNotice (length value - MAX_TOOL_OUTPUT).

(** ** Values thrown and caught *)

(** The result of a call that may throw; [Throw] carries the text that a
    handler reads with [error?.message ?? String(error)]. *)
Inductive outcome (A : Type) : Type :=
| Ok (a : A)
| Throw (message : list N).

Arguments Ok {A} a.
Arguments Throw {A} message.

#[global] Instance outcome_ret : MRet outcome := fun A a => Ok a.

#[global] Instance outcome_bind : MBind outcome := fun A B k c =>
  match c with
  | Ok a => k a
  | Throw m => Throw m
  end.

(** [try { c } catch (error) { handler(error) }]. *)
Definition tryCatch {A : Type} (c : outcome A) (handler : list N -> outcome A)
    : outcome A :=
  match c with
  | Ok a => Ok a
  | Throw m => handler m
  end.

(** ** The host: what the engine calls but does not define *)

#[local] Set Warnings "-register-all".

(** A value produced by [JSON.parse].  An object lists its own properties,
    each key once; the text of a number is kept as it is. *)
Inductive json : Type :=
| JNull
| JBool (b : bool)
| JNumber (digits : list N)
| JString (s : list N)
| JArray (items : list json)
| JObject (props : list (list N * json)).

(** [fs.Stats], as far as the engine looks at it. *)
Record Stats : Type := {
  isDirectory : bool;
  isFile : bool;
  size : N
}.

(** [fs.Dirent], as returned by [readdir] with [withFileTypes]. *)
Record Dirent : Type := {
  dirent_name : list N;
  dirent_isDirectory : bool
}.

(** The collaborators of the engine: the provider's workspace resolver, the
    [fs] and [path] modules of Node and the built-ins whose behaviour is not
    defined by the repository.  [fs_dirs] lists the directories of the file
    system; it only serves to bound the traversal of [searchText]. *)
Record Host : Type := {
  JSON_parse : list N -> outcome json;
  resolveWorkspacePath : list N -> outcome (option (list N));
  fs_stat : list N -> outcome Stats;
  fs_readdir : list N -> outcome (list (list N));
  fs_readdirTyped : list N -> outcome (list Dirent);
  fs_readFile : list N -> outcome (list N);
  fs_dirs : list (list N);
  path_join : list N -> list N -> list N;
  path_relative : list N -> list N -> list N;
  path_basename : list N -> list N;
  RegExp_i : list N -> option (list N -> bool);
  toLowerCase : list N -> list N;
  sortByName : list Dirent -> list Dirent
}.

(** ** Orchestrator decision parser *)

Inductive Action : Type := clarify | proceed.

Record OrchestratorDecision : Type := {
  action : Action;
  question : option (list N);
  summary : option (list N);
  reasoning : option (list N)
}.

Definition sanitizeJson (text : list N) : list N :=
  trim (removeAll eqc (lit "```") (removeAll eqci (lit "```json") text)).

(** [parsed?.key]: the property of an object, [undefined] for anything else
    that [JSON.parse] can return. *)
Fixpoint lookupProp (key : list N) (props : list (list N * json)) : option json :=
  match props with
  | [] => None
  | (k, v) :: rest =>
      if bool_decide (k = key) then Some v else lookupProp key rest
  end.

Definition getProp (parsed : json) (key : list N) : option json :=
  match parsed with
  | JObject props => lookupProp key props
  | _ => None
  end.

(** [typeof v === "string" ? v : undefined]. *)
Definition asString (v : option json) : option (list N) :=
  match v with
  | Some (JString s) => Some s
  | _ => None
  end.

Definition isStringValue (v : option json) (s : list N) : bool :=
  match v with
  | Some (JString t) => bool_decide (t = s)
  | _ => false
  end.

Definition parseWarning (cleaned error : list N) : list N :=
  lit "WARN: Unable to parse orchestrator decision, falling back to proceed. Raw output: "
  ++ cleaned ++ lit " Error: " ++ error.

(** The decision together with the lines handed to [logger.appendLine]. *)
Definition parseOrchestratorDecision (h : Host) (raw : list N)
    : OrchestratorDecision * list (list N) :=
  let cleaned := sanitizeJson raw in
  let fallback :=
    {| action := proceed; question := None;
       summary := Some cleaned; reasoning := None |} in
  match JSON_parse h cleaned with
  | Ok parsed =>
      match isStringValue (getProp parsed (lit "action")) (lit "clarify"),
            asString (getProp parsed (lit "question")) with
      | true, Some q =>
          ({| action := clarify; question := Some (trim q); summary := None;
              reasoning := asString (getProp parsed (lit "reasoning")) |}, [])
      | _, _ =>
          if isStringValue (getProp parsed (lit "action")) (lit "proceed")
          then
            ({| action := proceed; question := None;
                summary := option_map trim (asString (getProp parsed (lit "summary")));
                reasoning := asString (getProp parsed (lit "reasoning")) |}, [])
          else (fallback, [])
      end
  | Throw error => (fallback, [parseWarning cleaned error])
  end.

(** ** Sandboxed tool executors *)

(** [!resolved] for the resolver's answer: [undefined] and the empty string
    are both falsy. *)
Definition usable (resolved : option (list N)) : option (list N) :=
  match resolved with
  | Some (c :: r) => Some (c :: r)
  | _ => None
  end.

Definition newline : list N := [10%N].

Definition listFiles (h : Host) (argument : list N) : outcome (list N) :=
  resolved ← resolveWorkspacePath h (orElse (Some argument) (lit "."));
  match usable resolved with
  | None => Ok (lit "Workspace folder is not available for ListFiles.")
  | Some resolved =>
      tryCatch
        (entries ← fs_readdirTyped h resolved;
         match entries with
         | [] => Ok (lit "(empty directory)")
         | _ =>
             root ← resolveWorkspacePath h (lit ".");
             let workspaceRoot := orElse root resolved in
             let relativeBase :=
               orElse (Some (path_relative h workspaceRoot resolved)) (lit ".") in
             Ok (join newline
                   (map (fun entry =>
                           relativeBase ++ lit "/" ++ dirent_name entry
                           ++ (if dirent_isDirectory entry then lit "/" else []))
                        (sortByName h entries)))
         end)
        (fun message => Ok (lit "ListFiles error: " ++ message))
  end.

Definition readFile (h : Host) (argument : list N) : outcome (list N) :=
  resolved ← resolveWorkspacePath h argument;
  match usable resolved with
  | None => Ok (lit "Unable to resolve path for ReadFile.")
  | Some resolved =>
      tryCatch
        (stats ← fs_stat h resolved;
         if isDirectory stats
         then Ok (lit "ReadFile error: target is a directory.")
         else
           data ← fs_readFile h resolved;
           Ok (truncateOutput data))
        (fun message => Ok (lit "ReadFile error: " ++ message))
  end.

(** *** search-text *)

Definition skipDirectories : gset (list N) :=
  list_to_set
    [lit ".git"; lit "node_modules"; lit ".turbo"; lit ".next"; lit "dist";
     lit "build"].

Definition maxFiles : nat := 120.
Definition maxResults : nat := 40.
Definition maxFileSize : N := 200000.

(** [const [pattern, rawPath] = argument.split("|").map((part) => part.trim())]:
    the first two parts; [rawPath] is [undefined] when there is no ["|"]. *)
Definition splitSearchArgument (argument : list N) : list N * option (list N) :=
  let parts := map trim (splitOn 124 argument) in
  (default [] (parts !! 0), parts !! 1).

(** The mutable locals of the traversal.  [statted] and [opened] are not in
    the source: they record, in order, the paths handed to [fs.stat] and to
    [fs.readFile], so that statements about what is inspected and what is
    opened can be made. *)
Record SearchState : Type := {
  queue : list (list N);
  visited : gset (list N);
  results : list (list N);
  scannedFiles : nat;
  statted : list (list N);
  opened : list (list N)
}.

(** What stays fixed during one traversal. *)
Record SearchParams : Type := {
  sp_regex : option (list N -> bool);
  sp_lowerPattern : list N;
  sp_workspaceRoot : list N
}.

Definition lineMatches (h : Host) (sp : SearchParams) (line : list N) : bool :=
  match sp_regex sp with
  | Some test => test line
  | None => includes (sp_lowerPattern sp) (toLowerCase h line)
  end.

Definition resultLine (h : Host) (sp : SearchParams) (current : list N)
    (index : nat) (line : list N) : list N :=
  let relative :=
    orElse (Some (path_relative h (sp_workspaceRoot sp) current))
           (path_basename h current) in
  relative ++ lit ":" ++ ofNat (index + 1) ++ lit ": " ++ trim line.

(** The inner [for] loop over the lines of one file. *)
Fixpoint scanLines (h : Host) (sp : SearchParams) (current : list N)
    (lines : list (list N)) (index : nat) (results : list (list N))
    : list (list N) :=
  match lines with
  | [] => results
  | line :: rest =>
      if length results <? maxResults
      then scanLines h sp current rest (S index)
             (if lineMatches h sp line
              then results ++ [resultLine h sp current index line]
              else results)
      else results
  end.

(** The condition of the [while] loop. *)
Definition searchContinues (st : SearchState) : bool :=
  (negb (bool_decide (queue st = [])) && (scannedFiles st <? maxFiles)
   && (length (results st) <? maxResults))%bool.

(** One pass through the body of the [while] loop. *)
Definition searchIteration (h : Host) (sp : SearchParams) (st : SearchState)
    : SearchState :=
  match queue st with
  | [] => st
  | current :: rest =>
      if bool_decide (current ∈ visited st)
      then {| queue := rest; visited := visited st; results := results st;
              scannedFiles := scannedFiles st; statted := statted st;
              opened := opened st |}
      else
        let seen := {[ current ]} ∪ visited st in
        let inspected := statted st ++ [current] in
        let skipped :=
          {| queue := rest; visited := seen; results := results st;
             scannedFiles := scannedFiles st; statted := inspected;
             opened := opened st |} in
        match fs_stat h current with
        | Throw _ => skipped
        | Ok stat =>
            if isDirectory stat then
              match fs_readdir h current with
              | Throw _ => skipped
              | Ok entries =>
                  {| queue :=
                       rest ++ map (path_join h current)
                                 (filter (fun entry => entry ∉ skipDirectories) entries);
                     visited := seen; results := results st;
                     scannedFiles := scannedFiles st; statted := inspected;
                     opened := opened st |}
              end
            else if isFile stat then
              if (maxFileSize <? size stat)%N then skipped
              else
                match fs_readFile h current with
                | Throw _ =>
                    {| queue := rest; visited := seen; results := results st;
                       scannedFiles := S (scannedFiles st); statted := inspected;
                       opened := opened st ++ [current] |}
                | Ok content =>
                    {| queue := rest; visited := seen;
                       results :=
                         scanLines h sp current (splitLines content) 0 (results st);
                       scannedFiles := S (scannedFiles st); statted := inspected;
                       opened := opened st ++ [current] |}
                end
            else skipped
        end
  end.

(** The [while] loop, run for at most [fuel] passes. *)
Fixpoint searchLoop (h : Host) (sp : SearchParams) (fuel : nat)
    (st : SearchState) : SearchState :=
  match fuel with
  | O => st
  | S fuel' =>
      if searchContinues st
      then searchLoop h sp fuel' (searchIteration h sp st)
      else st
  end.

(** What one directory can add to the work of the loop. *)
Definition dirWeight (h : Host) (dir : list N) : nat :=
  match fs_readdir h dir with
  | Ok entries => S (length entries)
  | Throw _ => 1
  end.

(** Work left: the queue, plus the weight of every directory not visited. *)
Definition searchPotential (h : Host) (st : SearchState) : nat :=
  length (queue st)
  + sum_list (map (dirWeight h)
                (filter (fun dir => dir ∉ visited st) (fs_dirs h))).

Definition searchStart (resolvedPath : list N) : SearchState :=
  {| queue := [resolvedPath]; visited := ∅; results := []; scannedFiles := 0;
     statted := []; opened := [] |}.

(** The state in which the [while] loop of [searchText] ends. *)
Definition searchRun (h : Host) (sp : SearchParams) (resolvedPath : list N)
    : SearchState :=
  searchLoop h sp (searchPotential h (searchStart resolvedPath))
    (searchStart resolvedPath).

(** [rawPath || "."]: where the traversal starts, as handed to the resolver. *)
Definition searchPath (rawPath : option (list N)) : list N :=
  orElse rawPath (lit ".").

Definition searchText (h : Host) (argument : list N) : outcome (list N) :=
  let '(pattern, rawPath) := splitSearchArgument argument in
  if negb (truthy pattern)
  then Ok (lit "SearchText requires a pattern argument.")
  else
    resolved ← resolveWorkspacePath h (searchPath rawPath);
    match usable resolved with
    | None => Ok (lit "Unable to resolve search path inside the workspace.")
    | Some resolvedPath =>
        root ← resolveWorkspacePath h (lit ".");
        let sp :=
          {| sp_regex := RegExp_i h pattern;
             sp_lowerPattern := toLowerCase h pattern;
             sp_workspaceRoot := orElse root resolvedPath |} in
        match results (searchRun h sp resolvedPath) with
        | [] => Ok (lit "No results from SearchText.")
        | found => Ok (truncateOutput (join newline found))
        end
    end.

(** ** Plan grammar: step lines and references *)

(** One match of the step pattern: the three capture groups. *)
Record StepMatch : Type := {
  sm_id : list N;
  sm_toolNameRaw : list N;
  sm_rawArgument : list N
}.

(** Index of the last line terminator of a run of white space, if any. *)
Fixpoint lastTerminator (ws : list N) : option nat :=
  match ws with
  | [] => None
  | c :: ws' =>
      match lastTerminator ws' with
      | Some q => Some (S q)
      | None => if isLineTerminator c then Some 0 else None
      end
  end.

(** [\s*$] under the [m] flag, matched against [t]: the number of code units
    that the greedy [\s*] keeps once [$] holds, the end of the input or the
    position of a line terminator. *)
Definition trailingSpace (t : list N) : option nat :=
  let '(ws, rest) := span isSpace t in
  match rest with
  | [] => Some (length ws)
  | _ :: _ => lastTerminator ws
  end.

(** The end of the step pattern, a captured greedy [.*] followed by a closing
    bracket and [\s*$], matched against [line ++ after], where [line] is what
    [.*] can reach.  The greedy [.*] gives back one code unit at a time, so
    the right-most closing bracket after which [\s*$] holds is taken.
    Returns the capture and the length kept by [\s*]. *)
Fixpoint closingBracket (line after : list N) : option (list N * nat) :=
  match line with
  | [] => None
  | c :: line' =>
      match closingBracket line' after with
      | Some (arg, n) => Some (c :: arg, n)
      | None =>
          if eqc c 93
          then match trailingSpace (line' ++ after) with
               | Some n => Some ([], n)
               | None => None
               end
          else None
      end
  end.

(** The step pattern without its [^]: [#E], digits, [\s*=\s*], a tool name
    over [[A-Za-z0-9_]], an opening bracket and the end described above,
    matched at the head of [s].  Returns the captures and the length of the
    match.  Each greedy run is maximal: what follows it in the pattern cannot
    match a code unit of the run, so giving back never helps. *)
Definition matchStep (s : list N) : option (StepMatch * nat) :=
  s1 ← stripPrefix (lit "#E") s;
  let '(id, s2) := span isDigit s1 in
  let '(ws1, s3) := span isSpace s2 in
  if bool_decide (id = []) then None else
  s4 ← stripPrefix (lit "=") s3;
  let '(ws2, s5) := span isSpace s4 in
  let '(name, s6) := span isWordChar s5 in
  if bool_decide (name = []) then None else
  s7 ← stripPrefix (lit "[") s6;
  let '(line, after) := span (fun c => negb (isLineTerminator c)) s7 in
  '(arg, n) ← closingBracket line after;
  Some ({| sm_id := id; sm_toolNameRaw := name; sm_rawArgument := arg |},
        2 + length id + length ws1 + 1 + length ws2 + length name + 1
        + length arg + 1 + n).

(** The successive results of [regex.exec(plan)] with the [g] and [m] flags.
    [skip] counts the code units of the last match still to be passed (the
    search resumes at [lastIndex]); [atLineStart] says whether [^] holds. *)
Fixpoint planMatchesFrom (skip : nat) (atLineStart : bool) (s : list N)
    : list StepMatch :=
  match s with
  | [] => []
  | c :: s' =>
      match skip with
      | S k => planMatchesFrom k (isLineTerminator c) s'
      | O =>
          match (if atLineStart then matchStep s else None) with
          | Some (m, n) => m :: planMatchesFrom (n - 1) (isLineTerminator c) s'
          | None => planMatchesFrom 0 (isLineTerminator c) s'
          end
      end
  end.

Definition planMatches (plan : list N) : list StepMatch :=
  planMatchesFrom 0 true plan.

(** [#E(\d+)] matched at the head of [s]: the digits. *)
Definition matchReference (s : list N) : option (list N) :=
  s1 ← stripPrefix (lit "#E") s;
  match fst (span isDigit s1) with
  | [] => None
  | referenceId => Some referenceId
  end.

Definition referenceToken (referenceId : list N) : list N :=
  lit "#E" ++ referenceId.

(** [rawArgument.replace(/#E(\d+)/g, replacer)], where the replacer returns
    [variables[referenceId]] when the table has it and the token otherwise. *)
Fixpoint resolveFrom (variables : gmap (list N) (list N)) (skip : nat)
    (s : list N) : list N :=
  match s with
  | [] => []
  | c :: s' =>
      match skip with
      | S k => resolveFrom variables k s'
      | O =>
          match matchReference s with
          | Some referenceId =>
              default (referenceToken referenceId) (variables !! referenceId)
              ++ resolveFrom variables (S (length referenceId)) s'
          | None => c :: resolveFrom variables 0 s'
          end
      end
  end.

Definition resolveReferences (variables : gmap (list N) (list N))
    (rawArgument : list N) : list N :=
  resolveFrom variables 0 rawArgument.

(** ** Plan sessions and the plan runner *)

Inductive PlanSessionStatus : Type :=
| orchestrating
| awaiting_clarifications
| planning
| executing_tools
| solving
| completed.

#[global] Instance PlanSessionStatus_eq_dec : EqDecision PlanSessionStatus.
Proof. solve_decision. Defined.

Record PlanClarification : Type := {
  pc_question : list N;
  pc_answer : list N
}.

Record PlanToolExecution : Type := {
  te_id : list N;
  te_tool : list N;
  te_argument : list N;
  te_output : list N;
  te_error : option (list N)
}.

Inductive Role : Type := user | assistant.

Record PlanSession : Type := {
  sessionId : nat;
  task : list N;
  taskHistory : list (list N);
  status : PlanSessionStatus;
  clarifications : list PlanClarification;
  pendingClarification : option (list N);
  planMarkdown : option (list N);
  solverSummary : option (list N);
  toolExecutions : list PlanToolExecution;
  planFilePath : option (list N);
  orchestratorMessages : list (Role * list N)
}.

(** [execution.error] is set and truthy. *)
Definition hasError (e : PlanToolExecution) : bool :=
  match te_error e with
  | Some (_ :: _) => true
  | _ => false
  end.

(** The tool selected by the lower-cased name; [None] for any other name. *)
Definition dispatchTool (h : Host) (toolName argument : list N)
    : option (outcome (list N)) :=
  if bool_decide (toolName = lit "listfiles") then Some (listFiles h argument)
  else if bool_decide (toolName = lit "readfile") then Some (readFile h argument)
  else if bool_decide (toolName = lit "searchtext") then Some (searchText h argument)
  else None.

(** The body of the [while] loop of [executePlanTools] up to
    [executions.push]: the execution record and the resolution table after
    the step.  The tool name is a run of [[A-Za-z0-9_]], so [toLowerCase]
    on it is the ASCII folding. *)
Definition executeStep (h : Host) (variables : gmap (list N) (list N))
    (m : StepMatch) : PlanToolExecution * gmap (list N) (list N) :=
  let toolName := map lowerAscii (trim (sm_toolNameRaw m)) in
  let resolvedArgument := resolveReferences variables (sm_rawArgument m) in
  let execution :=
    {| te_id := referenceToken (sm_id m); te_tool := trim (sm_toolNameRaw m);
       te_argument := trim resolvedArgument; te_output := []; te_error := None |} in
  let attempt : outcome (PlanToolExecution * gmap (list N) (list N)) :=
    '(output, execution1) ←
       match dispatchTool h toolName (trim resolvedArgument) with
       | Some call => output ← call; Ok (output, execution)
       | None =>
           Ok ([], {| te_id := te_id execution; te_tool := te_tool execution;
                      te_argument := te_argument execution;
                      te_output := te_output execution;
                      te_error :=
                        Some (lit "Unsupported tool: " ++ sm_toolNameRaw m) |})
       end;
    if hasError execution1 then Ok (execution1, variables)
    else Ok ({| te_id := te_id execution1; te_tool := te_tool execution1;
                te_argument := te_argument execution1; te_output := output;
                te_error := te_error execution1 |},
             <[ sm_id m := output ]> variables) in
  match attempt with
  | Ok done => done
  | Throw message =>
      ({| te_id := te_id execution; te_tool := te_tool execution;
          te_argument := te_argument execution; te_output := te_output execution;
          te_error := Some message |}, variables)
  end.

Definition withToolExecutions (session : PlanSession)
    (executions : list PlanToolExecution) : PlanSession :=
  {| sessionId := sessionId session; task := task session;
     taskHistory := taskHistory session; status := status session;
     clarifications := clarifications session;
     pendingClarification := pendingClarification session;
     planMarkdown := planMarkdown session;
     solverSummary := solverSummary session;
     toolExecutions := executions;
     planFilePath := planFilePath session;
     orchestratorMessages := orchestratorMessages session |}.

(** The state threaded through the loop of [executePlanTools]: the local
    [executions] and [variables], the session, and the snapshots handed to
    [provider.sendPlanSessionUpdate] so far. *)
Record RunState : Type := {
  rs_executions : list PlanToolExecution;
  rs_variables : gmap (list N) (list N);
  rs_session : PlanSession;
  rs_published : list PlanSession
}.

Definition runStep (h : Host) (rs : RunState) (m : StepMatch) : RunState :=
  let '(execution, variables) := executeStep h (rs_variables rs) m in
  let executions := rs_executions rs ++ [execution] in
  let session := withToolExecutions (rs_session rs) executions in
  {| rs_executions := executions; rs_variables := variables;
     rs_session := session; rs_published := rs_published rs ++ [session] |}.

Definition runSteps (h : Host) (rs : RunState) (steps : list StepMatch)
    : RunState :=
  foldl (runStep h) rs steps.

Definition runStart (session : PlanSession) : RunState :=
  {| rs_executions := []; rs_variables := ∅; rs_session := session;
     rs_published := [] |}.

Definition executePlanTools (h : Host) (session : PlanSession) : RunState :=
  runSteps h (runStart session) (planMatches (default [] (planMarkdown session))).

(** ** The session state machine: [planModeChat] *)

Definition setStatus (st : PlanSessionStatus) (s : PlanSession) : PlanSession :=
  {| sessionId := sessionId s; task := task s; taskHistory := taskHistory s;
     status := st; clarifications := clarifications s;
     pendingClarification := pendingClarification s;
     planMarkdown := planMarkdown s; solverSummary := solverSummary s;
     toolExecutions := toolExecutions s; planFilePath := planFilePath s;
     orchestratorMessages := orchestratorMessages s |}.

Definition setPendingClarification (q : option (list N)) (s : PlanSession)
    : PlanSession :=
  {| sessionId := sessionId s; task := task s; taskHistory := taskHistory s;
     status := status s; clarifications := clarifications s;
     pendingClarification := q;
     planMarkdown := planMarkdown s; solverSummary := solverSummary s;
     toolExecutions := toolExecutions s; planFilePath := planFilePath s;
     orchestratorMessages := orchestratorMessages s |}.

Definition pushClarification (c : PlanClarification) (s : PlanSession)
    : PlanSession :=
  {| sessionId := sessionId s; task := task s; taskHistory := taskHistory s;
     status := status s; clarifications := clarifications s ++ [c];
     pendingClarification := pendingClarification s;
     planMarkdown := planMarkdown s; solverSummary := solverSummary s;
     toolExecutions := toolExecutions s; planFilePath := planFilePath s;
     orchestratorMessages := orchestratorMessages s |}.

Definition pushTaskHistory (entry : list N) (s : PlanSession) : PlanSession :=
  {| sessionId := sessionId s; task := task s;
     taskHistory := taskHistory s ++ [entry];
     status := status s; clarifications := clarifications s;
     pendingClarification := pendingClarification s;
     planMarkdown := planMarkdown s; solverSummary := solverSummary s;
     toolExecutions := toolExecutions s; planFilePath := planFilePath s;
     orchestratorMessages := orchestratorMessages s |}.

Definition pushOrchestratorMessage (role : Role) (content : list N)
    (s : PlanSession) : PlanSession :=
  {| sessionId := sessionId s; task := task s; taskHistory := taskHistory s;
     status := status s; clarifications := clarifications s;
     pendingClarification := pendingClarification s;
     planMarkdown := planMarkdown s; solverSummary := solverSummary s;
     toolExecutions := toolExecutions s; planFilePath := planFilePath s;
     orchestratorMessages := orchestratorMessages s ++ [(role, content)] |}.

Definition setPlanMarkdown (text : list N) (s : PlanSession) : PlanSession :=
  {| sessionId := sessionId s; task := task s; taskHistory := taskHistory s;
     status := status s; clarifications := clarifications s;
     pendingClarification := pendingClarification s;
     planMarkdown := Some text; solverSummary := solverSummary s;
     toolExecutions := toolExecutions s; planFilePath := planFilePath s;
     orchestratorMessages := orchestratorMessages s |}.

Definition setSolverSummary (text : list N) (s : PlanSession) : PlanSession :=
  {| sessionId := sessionId s; task := task s; taskHistory := taskHistory s;
     status := status s; clarifications := clarifications s;
     pendingClarification := pendingClarification s;
     planMarkdown := planMarkdown s; solverSummary := Some text;
     toolExecutions := toolExecutions s; planFilePath := planFilePath s;
     orchestratorMessages := orchestratorMessages s |}.

Definition setPlanFilePath (location : option (list N)) (s : PlanSession)
    : PlanSession :=
  {| sessionId := sessionId s; task := task s; taskHistory := taskHistory s;
     status := status s; clarifications := clarifications s;
     pendingClarification := pendingClarification s;
     planMarkdown := planMarkdown s; solverSummary := solverSummary s;
     toolExecutions := toolExecutions s; planFilePath := location;
     orchestratorMessages := orchestratorMessages s |}.

(** The executions of a run of steps from a given resolution table, and the
    table the run leaves: the two locals of [executePlanTools], without the
    session. *)
Fixpoint stepExecutions (h : Host) (variables : gmap (list N) (list N))
    (steps : list StepMatch) : list PlanToolExecution :=
  match steps with
  | [] => []
  | m :: rest =>
      fst (executeStep h variables m)
      :: stepExecutions h (snd (executeStep h variables m)) rest
  end.

Definition stepVariables (h : Host) (variables : gmap (list N) (list N))
    (steps : list StepMatch) : gmap (list N) (list N) :=
  foldl (fun v m => snd (executeStep h v m)) variables steps.


(** What the view provider keeps between two calls of [planModeChat]. *)
Record Provider : Type := {
  planSession : option PlanSession;
  nextSessionId : nat
}.

(** Modelled from the spec: [provider.startPlanSession], a method of the view
    provider whose code is not among the sources.  A session is created in
    status [orchestrating] with a fresh id and with [taskHistory] seeded with
    the task; nothing is pending and nothing has been planned. *)
Definition startPlanSession (p : Provider) (newTask : list N) : PlanSession :=
  {| sessionId := nextSessionId p; task := newTask; taskHistory := [newTask];
     status := orchestrating; clarifications := [];
     pendingClarification := None; planMarkdown := None;
     solverSummary := None; toolExecutions := []; planFilePath := None;
     orchestratorMessages := [] |}.

(** Modelled from the spec: the provider after [startPlanSession].  The
    engine "resolves or creates" the provider's session, so the new session
    is the provider's current one, and its id is used up. *)
Definition afterStart (p : Provider) (newTask : list N) : Provider :=
  {| planSession := Some (startPlanSession p newTask);
     nextSessionId := S (nextSessionId p) |}.

(** How one stage of [runModel] ends. *)
Inductive ModelReply : Type :=
| Replied (text : list N)
| Aborted
| Failed.

(** Everything one call of [planModeChat] receives from outside: the
    question, whether [provider.apiReasoning ?? provider.apiChat] is there,
    the ends of the three model stages, and what the persistence sink does. *)
Record Turn : Type := {
  turn_question : list N;
  turn_hasModel : bool;
  turn_orchestrator : ModelReply;
  turn_planner : ModelReply;
  turn_solver : ModelReply;
  turn_persist : outcome (option (list N))
}.

Inductive Ending : Type :=
| Returned
| ThrewNoModel.

(** The outcome of one call: the session as the call leaves it, the
    snapshots handed to [provider.sendPlanSessionUpdate] in order, the lines
    logged by the decision parser, and how the call ended. *)
Record Advance : Type := {
  adv_session : PlanSession;
  adv_provider : Provider;
  adv_published : list PlanSession;
  adv_warnings : list (list N);
  adv_ending : Ending
}.

(** Lines 554 to 579 of the source: the session is found or created and the
    input is taken in.  [session !== provider.planSession] compares object
    identities; session ids stand for them. *)
Definition intake (p : Provider) (trimmedQuestion : list N)
    : PlanSession * Provider :=
  let '(session, p1) :=
    match planSession p with
    | Some s =>
        if bool_decide (status s = completed)
        then (startPlanSession p trimmedQuestion, afterStart p trimmedQuestion)
        else (s, p)
    | None => (startPlanSession p trimmedQuestion, afterStart p trimmedQuestion)
    end in
  let '(session, p2) :=
    match pendingClarification session with
    | Some (c :: q) =>
        (setStatus orchestrating
           (setPendingClarification None
              (pushClarification
                 {| pc_question := c :: q; pc_answer := trimmedQuestion |}
                 session)), p1)
    | _ =>
        if negb (bool_decide (Some (sessionId session)
                              = sessionId <$> planSession p1))
        then (session, p1)
        else if bool_decide (status session = orchestrating)
        then (pushTaskHistory trimmedQuestion session, p1)
        else if bool_decide (status session = awaiting_clarifications)
        then (pushTaskHistory trimmedQuestion session, p1)
        else (startPlanSession p1 trimmedQuestion, afterStart p1 trimmedQuestion)
    end in
  (pushOrchestratorMessage user trimmedQuestion session, p2).

(** Modelled from the spec: [provider.persistPlanContent], a method of the
    view provider whose code is not among the sources.  The persistence sink
    answers with the storage location or with none, and [planFilePath] is
    the location where the plan document was persisted.  The engine itself
    discards what the call returns and never assigns [planFilePath]: the
    field is written here, by the sink, and nowhere else. *)
Definition persistPlanContent (location : option (list N)) (s : PlanSession)
    : PlanSession :=
  setPlanFilePath location s.

(** The [try] block of [planModeChat] from [session.status = "planning"] on:
    the planner stage, the tool pass, the solver stage and persistence.  The
    result is the session as the block leaves it, on completion or when a
    stage throws, and the snapshots published on the way.  What the sink
    does to the session is [persistPlanContent]. *)
Definition planningStages (h : Host) (t : Turn) (session : PlanSession)
    : PlanSession * list PlanSession :=
  let s1 := setStatus planning session in
  match turn_planner t with
  | Replied plannerText =>
      let s2 := setPlanMarkdown plannerText s1 in
      let s3 := setStatus executing_tools s2 in
      let run := executePlanTools h s3 in
      let s4 := withToolExecutions (rs_session run) (rs_executions run) in
      let s5 := setStatus solving s4 in
      let upToSolving := [s1; s2; s3] ++ rs_published run ++ [s4; s5] in
      match turn_solver t with
      | Replied solverText =>
          let s6 := setSolverSummary solverText s5 in
          match turn_persist t with
          | Ok location =>
              let s7 := setStatus completed (persistPlanContent location s6) in
              (s7, upToSolving ++ [s7])
          | Throw _ => (s6, upToSolving)
          end
      | _ => (s5, upToSolving)
      end
  | _ => (s1, [s1])
  end.

(** The [try] block of [planModeChat]: the orchestrator stage, then either
    the pause on a clarifying question or the stages above.  With the session
    and the snapshots come the lines logged by the decision parser. *)
Definition advanceStages (h : Host) (t : Turn) (session : PlanSession)
    : PlanSession * list PlanSession * list (list N) :=
  match turn_orchestrator t with
  | Replied orchestratorText =>
      let '(decision, warnings) := parseOrchestratorDecision h orchestratorText in
      match action decision, question decision with
      | clarify, Some (c :: q) =>
          let s1 :=
            pushOrchestratorMessage assistant (c :: q)
              (setPendingClarification (Some (c :: q))
                 (setStatus awaiting_clarifications session)) in
          (s1, [s1], warnings)
      | _, _ => (planningStages h t session, warnings)
      end
  | _ => (session, [], [])
  end.

Definition planModeChat (h : Host) (p : Provider) (t : Turn) : Advance :=
  let trimmedQuestion := trim (turn_question t) in
  let '(session, p1) := intake p trimmedQuestion in
  if turn_hasModel t
  then
    let '(final, published, warnings) := advanceStages h t session in
    {| adv_session := final;
       adv_provider :=
         {| planSession := Some final; nextSessionId := nextSessionId p1 |};
       adv_published := session :: published;
       adv_warnings := warnings;
       adv_ending := Returned |}
  else
    {| adv_session := session;
       adv_provider :=
         {| planSession := Some session; nextSessionId := nextSessionId p1 |};
       adv_published := [session];
       adv_warnings := [];
       adv_ending := ThrewNoModel |}.

(** A driver submitting one input after the other. *)
Fixpoint planModeChats (h : Host) (p : Provider) (turns : list Turn) : Provider :=
  match turns with
  | [] => p
  | t :: rest => planModeChats h (adv_provider (planModeChat h p t)) rest
  end.

Definition freshProvider : Provider :=
  {| planSession := None; nextSessionId := 0 |}.

(** ** Statements of the specification, in its own words *)

(** The text cut at every line terminator. *)
Fixpoint textLines (s : list N) : list (list N) :=
  match s with
  | [] => [[]]
  | c :: s' =>
      if isLineTerminator c then [] :: textLines s'
      else match textLines s' with
           | p :: ps => (c :: p) :: ps
           | [] => [[c]]
           end
  end.

(** A line that, taken alone, matches the anchored step pattern. *)
Definition lineStep (line : list N) : option StepMatch :=
  match matchStep line with
  | Some (m, n) => if n =? length line then Some m else None
  | None => None
  end.

(** The specification's reading of the plan: its matching lines, in order. *)
Definition stepLines (plan : list N) : list StepMatch :=
  omap lineStep (textLines plan).

(** A line that is only the head of a step, cut before or right after its
    equals sign: [#E], digits, white space, and possibly [=] and white space. *)
Definition danglingHeader (line : list N) : bool :=
  match stripPrefix (lit "#E") line with
  | None => false
  | Some s1 =>
      let '(id, s2) := span isDigit s1 in
      let '(_, s3) := span isSpace s2 in
      if bool_decide (id = []) then false
      else if bool_decide (s3 = []) then true
      else match stripPrefix (lit "=") s3 with
           | None => false
           | Some s4 => bool_decide (snd (span isSpace s4) = [])
           end
  end.

(** The specification's reading of a search-text argument: cut once, at the
    first bar. *)
Fixpoint cutAtFirstBar (s : list N) : list N * option (list N) :=
  match s with
  | [] => ([], None)
  | c :: s' =>
      if eqc c 124 then ([], Some s')
      else let '(before, after) := cutAtFirstBar s' in (c :: before, after)
  end.

Definition splitAtFirstBar (argument : list N) : list N * option (list N) :=
  let '(before, after) := cutAtFirstBar argument in
  (trim before, option_map trim after).

(** The invariant of the data model: a question is pending exactly in status
    [awaiting_clarifications]. *)
Definition pendingIffAwaiting (s : PlanSession) : Prop :=
  is_Some (pendingClarification s) ↔ status s = awaiting_clarifications.

(** ** A concrete host: a small workspace held in memory *)

Module Demo.

Definition files : list (list N * list N) :=
  [ (lit "/w/notes.txt", lit "#E1");
    (lit "/w/src/main.ts", lit "const plan = 1;");
    (lit "/w/dist", lit "plan output");
    (lit "/w/src/build", lit "plan cache") ].

Definition dirs : list (list N * list (list N)) :=
  [ (lit "/w", [lit "notes.txt"; lit "src"; lit "dist"]);
    (lit "/w/src", [lit "main.ts"; lit "build"]) ].

Fixpoint assoc {A : Type} (key : list N) (table : list (list N * A)) : option A :=
  match table with
  | [] => None
  | (k, v) :: rest => if bool_decide (k = key) then Some v else assoc key rest
  end.

Definition join2 (dir entry : list N) : list N := dir ++ lit "/" ++ entry.

Definition stat (path : list N) : outcome Stats :=
  match assoc path dirs, assoc path files with
  | Some _, _ => Ok {| isDirectory := true; isFile := false; size := 4096 |}
  | None, Some content =>
      Ok {| isDirectory := false; isFile := true;
            size := N.of_nat (length content) |}
  | None, None => Throw (lit "ENOENT: no such file or directory")
  end.

Definition readdir (path : list N) : outcome (list (list N)) :=
  match assoc path dirs with
  | Some entries => Ok entries
  | None => Throw (lit "ENOTDIR: not a directory")
  end.

Definition readdirTyped (path : list N) : outcome (list Dirent) :=
  entries ← readdir path;
  Ok (map (fun entry =>
             {| dirent_name := entry;
                dirent_isDirectory :=
                  bool_decide (is_Some (assoc (join2 path entry) dirs)) |})
          entries).

Definition readContent (path : list N) : outcome (list N) :=
  match assoc path files with
  | Some content => Ok content
  | None => Throw (lit "EISDIR: illegal operation on a directory")
  end.

(** Paths are resolved below the workspace folder [/w]. *)
Definition resolve (path : list N) : outcome (option (list N)) :=
  if bool_decide (path = lit ".") then Ok (Some (lit "/w"))
  else Ok (Some (join2 (lit "/w") path)).

Definition relative (root path : list N) : list N :=
  if startsWithBy eqc (root ++ lit "/") path
  then drop (S (length root)) path
  else if bool_decide (root = path) then [] else path.

Fixpoint basename (path : list N) : list N :=
  match path with
  | [] => []
  | c :: rest =>
      if includes (lit "/") rest then basename rest
      else if eqc c 47 then rest else path
  end.

(** A JSON text written with single quotes in place of double quotes. *)
Definition jsonText (s : string) : list N :=
  map (fun c => if eqc c 39 then 34%N else c) (lit s).

(** [JSON.parse] on the two texts used below; anything else is refused. *)
Definition parseTable (text : list N) : outcome json :=
  if bool_decide (text = jsonText "{'action':'clarify'}")
  then Ok (JObject [(lit "action", JString (lit "clarify"))])
  else if bool_decide (text = jsonText "{'action':'proceed','summary':' go '}")
  then Ok (JObject [(lit "action", JString (lit "proceed"));
                    (lit "summary", JString (lit " go "))])
  else Throw (lit "SyntaxError: Unexpected token").

Definition host : Host :=
  {| JSON_parse := parseTable;
     resolveWorkspacePath := resolve;
     fs_stat := stat;
     fs_readdir := readdir;
     fs_readdirTyped := readdirTyped;
     fs_readFile := readContent;
     fs_dirs := map fst dirs;
     path_join := join2;
     path_relative := relative;
     path_basename := basename;
     RegExp_i := fun _ => None;
     toLowerCase := map lowerAscii;
     sortByName := fun entries => entries |}.

Definition sessionWithPlan (plan : list N) : PlanSession :=
  {| sessionId := 0; task := lit "task"; taskHistory := [lit "task"];
     status := executing_tools; clarifications := [];
     pendingClarification := None; planMarkdown := Some plan;
     solverSummary := None; toolExecutions := []; planFilePath := None;
     orchestratorMessages := [] |}.

(** A session that waits for the answer to a question, and the input that
    answers it. *)
Definition waiting : PlanSession :=
  {| sessionId := 0; task := lit "add tests"; taskHistory := [lit "add tests"];
     status := awaiting_clarifications; clarifications := [];
     pendingClarification := Some (lit "Which file?"); planMarkdown := None;
     solverSummary := None; toolExecutions := []; planFilePath := None;
     orchestratorMessages :=
       [(user, lit "add tests"); (assistant, lit "Which file?")] |}.

Definition waitingProvider : Provider :=
  {| planSession := Some waiting; nextSessionId := 1 |}.

Definition answerTurn : Turn :=
  {| turn_question := lit " parser.go "; turn_hasModel := true;
     turn_orchestrator := Failed; turn_planner := Failed;
     turn_solver := Failed; turn_persist := Ok None |}.

Definition twoReads : list N :=
  lit "#E1 = ReadFile[notes.txt]" ++ newline ++ lit "#E2 = ReadFile[#E1]".

Definition readDirectory : list N := lit "#E1 = ReadFile[src]".

Definition mixedPlan : list N :=
  lit "Plan: look around" ++ newline
  ++ lit "#E2 = ListFiles[.]" ++ newline
  ++ lit "#E1 = DeleteFile[tmp]" ++ newline
  ++ lit "#E3 = ReadFile[#E1/#E2x]".

Definition mixedSteps : list StepMatch :=
  [ {| sm_id := lit "2"; sm_toolNameRaw := lit "ListFiles";
       sm_rawArgument := lit "." |};
    {| sm_id := lit "1"; sm_toolNameRaw := lit "DeleteFile";
       sm_rawArgument := lit "tmp" |} ].

Definition lastStep : StepMatch :=
  {| sm_id := lit "3"; sm_toolNameRaw := lit "ReadFile";
     sm_rawArgument := lit "#E1/#E2x" |}.

Definition brokenHeader : list N :=
  lit "#E1" ++ newline ++ lit "= ListFiles[.]".

End Demo.

(** ** Predicates and measures used in the statements *)

(** Where a path handed to the traversal comes from: it is the start, or it
    was pushed for an entry that [readdir] listed and the skip set lacks. *)
Definition provenance (h : Host) (start p : list N) : Prop :=
  p = start
  \/ exists dir entries entry,
       fs_readdir h dir = Ok entries /\ (entry ∈ entries)
       /\ (entry ∉ skipDirectories) /\ p = path_join h dir entry.

(** A file that the traversal may open: [fs.stat] called it a regular file
    of at most [maxFileSize] bytes. *)
Definition smallFile (h : Host) (p : list N) : Prop :=
  exists stat, fs_stat h p = Ok stat /\ isDirectory stat = false
               /\ isFile stat = true /\ ((size stat <= maxFileSize)%N).

(** Where a result line comes from: a line of a file that was opened. *)
Definition reportedFrom (h : Host) (sp : SearchParams) (files : list (list N))
    (r : list N) : Prop :=
  exists current content index line,
    (current ∈ files) /\ fs_readFile h current = Ok content
    /\ splitLines content !! index = Some line
    /\ lineMatches h sp line = true
    /\ r = resultLine h sp current index line.

Record SearchInvariant (h : Host) (sp : SearchParams) (start : list N)
    (st : SearchState) : Prop := {
  inv_results : length (results st) <= maxResults;
  inv_scanned : scannedFiles st = length (opened st);
  inv_files : scannedFiles st <= maxFiles;
  inv_small : Forall (smallFile h) (opened st);
  inv_queue : Forall (provenance h start) (queue st);
  inv_statted : Forall (provenance h start) (statted st);
  inv_opened : opened st ⊆ statted st;
  inv_reported : Forall (reportedFrom h sp (opened st)) (results st)
}.

(** [fs_dirs] lists every path that [fs.stat] calls a directory. *)
Definition dirsListed (h : Host) : Prop :=
  forall p stat, fs_stat h p = Ok stat -> isDirectory stat = true ->
                 p ∈ fs_dirs h.

Definition weightOutside (h : Host) (seen : gset (list N))
    (dirs : list (list N)) : nat :=
  sum_list (map (dirWeight h) (filter (fun dir => dir ∉ seen) dirs)).

(** What the engine maintains: the biconditional of the data model, and a
    pending question is never the empty string. *)
Definition sessionOk (s : PlanSession) : Prop :=
  pendingIffAwaiting s /\ pendingClarification s <> Some [].

(** Nothing is pending and the session is not waiting for an answer. *)
Definition settled (s : PlanSession) : Prop :=
  pendingClarification s = None /\ status s <> awaiting_clarifications.

Definition providerOk (p : Provider) : Prop :=
  forall s, planSession p = Some s -> sessionOk s.

(** A text as its first line and the following lines, each with the line
    terminator before it. *)
Fixpoint segments (s : list N) : list N * list (N * list N) :=
  match s with
  | [] => ([], [])
  | c :: s' =>
      let '(l0, more) := segments s' in
      if isLineTerminator c then ([], (c, l0) :: more) else (c :: l0, more)
  end.

Fixpoint assemble (l0 : list N) (more : list (N * list N)) : list N :=
  match more with
  | [] => l0
  | (t, l1) :: more' => l0 ++ t :: assemble l1 more'
  end.

(** No code unit of [l] is a line terminator. *)
Definition oneLine (l : list N) : Prop :=
  Forall (fun c => isLineTerminator c = false) l.

(** What follows a line: nothing, or a line terminator and more text. *)
Definition lineEnd (r : list N) : Prop :=
  match r with
  | [] => True
  | t :: _ => isLineTerminator t = true
  end.

(** What [\s*$] keeps of the text after a line. *)
Definition beyond (r : list N) : nat := default 0 (trailingSpace r).

(** ** Rendering of the session for the user *)

(** The list of clarifications as numbered markdown items, shared by
    [buildClarifyingResponse] and [formatClarificationsForResponse]. *)
Definition clarificationItems (clarifications : list PlanClarification)
    : list (list N) :=
  imap (fun index entry =>
          ofNat (index + 1) ++ lit ". **" ++ pc_question entry ++ lit "**"
          ++ newline ++ lit "   - " ++ pc_answer entry)
       clarifications.

Definition buildClarifyingResponse (question : list N)
    (clarifications : list PlanClarification) : list N :=
  let history := join newline (clarificationItems clarifications) in
  let historyBlock :=
    if truthy history
    then newline ++ newline ++ lit "Current clarifications:" ++ newline ++ history
    else [] in
  lit "### Clarifying Question" ++ newline ++ question ++ historyBlock
  ++ newline ++ newline
  ++ lit "Please reply with the requested details so the planner can continue.".

Definition formatClarificationsForResponse
    (clarifications : list PlanClarification) : list N :=
  match clarifications with
  | [] => lit "(none)"
  | _ => join newline (clarificationItems clarifications)
  end.

(** The text under one step of the tool observations: the error when it is
    set and truthy, the output through [truncateOutput] otherwise. *)
Definition observationBody (execution : PlanToolExecution) : list N :=
  if hasError execution
  then lit "ERROR: " ++ default [] (te_error execution)
  else truncateOutput (te_output execution).

Definition formatToolObservationsForResponse
    (executions : list PlanToolExecution) : list N :=
  match executions with
  | [] => lit "No tools were executed."
  | _ =>
      join newline
        (map (fun execution =>
                lit "- " ++ te_id execution ++ lit " " ++ te_tool execution
                ++ lit "[" ++ te_argument execution ++ lit "]" ++ newline
                ++ lit "  " ++ observationBody execution)
             executions)
  end.

Definition fence : list N := lit "```".

Definition buildFinalResponse (session : PlanSession) : list N :=
  let clarificationsBlock :=
    formatClarificationsForResponse (clarifications session) in
  let planBlock :=
    match planMarkdown session with
    | Some (c :: plan) =>
        newline ++ newline ++ lit "### Planner Draft" ++ newline ++ newline
        ++ fence ++ lit "text" ++ newline ++ (c :: plan) ++ newline ++ fence
    | _ => []
    end in
  let solverBlock :=
    match solverSummary session with
    | Some (c :: text) =>
        newline ++ newline ++ lit "### Solver Summary" ++ newline ++ (c :: text)
    | _ => []
    end in
  let toolBlock :=
    newline ++ newline ++ lit "### Tool Observations" ++ newline
    ++ formatToolObservationsForResponse (toolExecutions session) in
  let storageLine :=
    match planFilePath session with
    | Some (c :: location) =>
        lit "Plan saved to `" ++ (c :: location)
        ++ lit "` and opened for editing."
    | _ => lit "Plan saved in memory (workspace folder not detected)."
    end in
  lit "## Plan ready" ++ newline ++ storageLine ++ newline ++ newline
  ++ lit "### Clarifications" ++ newline ++ clarificationsBlock ++ planBlock
  ++ toolBlock ++ solverBlock.

(** What [planModeChat] hands to [updateResponse] in its [try] block: the
    clarifying question when the orchestrator asks one, the final response
    when the session completes, nothing when a stage throws. *)
Definition advanceResponse (h : Host) (t : Turn) (session : PlanSession)
    : option (list N) :=
  match turn_orchestrator t with
  | Replied orchestratorText =>
      let decision := fst (parseOrchestratorDecision h orchestratorText) in
      match action decision, question decision with
      | clarify, Some (c :: q) =>
          Some (buildClarifyingResponse (c :: q) (clarifications session))
      | _, _ =>
          match turn_planner t, turn_solver t, turn_persist t with
          | Replied _, Replied _, Ok _ =>
              Some (buildFinalResponse (fst (planningStages h t session)))
          | _, _, _ => None
          end
      end
  | _ => None
  end.

(** ** The lines a file contributes to a search *)

(** The result lines of all matching lines of a file, from line [index] on. *)
Fixpoint matchesFrom (h : Host) (sp : SearchParams) (current : list N)
    (index : nat) (lines : list (list N)) : list (list N) :=
  match lines with
  | [] => []
  | line :: rest =>
      (if lineMatches h sp line then [resultLine h sp current index line] else [])
      ++ matchesFrom h sp current (S index) rest
  end.

(** ** Inline completion helpers *)

Definition MAX_BEFORE_CHARACTERS : nat := 6 * 1000.
Definition MAX_AFTER_CHARACTERS : nat := 2000.

Definition truncateLeading (text : list N) (maxCharacters : nat) : list N :=
  if length text <=? maxCharacters then text
  else drop (length text - maxCharacters) text.

Definition truncateTrailing (text : list N) (maxCharacters : nat) : list N :=
  if length text <=? maxCharacters then text
  else take maxCharacters text.

(** [completion.slice(-len)] for [0 < len <= completion.length]. *)
Definition sliceEnd (completion : list N) (len : nat) : list N :=
  drop (length completion - len) completion.

(** The [for] loop of [computeOverlap], counting [len] down to 1. *)
Fixpoint overlapFrom (completion afterText : list N) (len : nat) : nat :=
  match len with
  | O => 0
  | S len' =>
      if bool_decide (sliceEnd completion len = take len afterText)
      then len
      else overlapFrom completion afterText len'
  end.

Definition computeOverlap (completion afterText : list N) : nat :=
  overlapFrom completion afterText (min (length completion) (length afterText)).

Definition sanitizeCompletion (completion afterText : list N) : list N :=
  let cleaned := removeAll eqc [0%N] (removeAll eqc [13%N] completion) in
  let overlapLength := computeOverlap cleaned afterText in
  let sanitized :=
    if 0 <? overlapLength
    then take (length cleaned - overlapLength) cleaned
    else cleaned in
  if length (trim sanitized) =? 0 then [] else sanitized.

(** ** Shapes used in the further properties *)

(** A step as the pattern captures it: digits, a name over [[A-Za-z0-9_]],
    and an argument within one line. *)
Definition wellFormedStep (m : StepMatch) : Prop :=
  sm_id m <> []
  /\ Forall (fun c => isDigit c = true) (sm_id m)
  /\ sm_toolNameRaw m <> []
  /\ Forall (fun c => isWordChar c = true) (sm_toolNameRaw m)
  /\ oneLine (sm_rawArgument m).

(** The provider's resolver answers every path without throwing. *)
Definition resolverTotal (h : Host) : Prop :=
  forall path message, resolveWorkspacePath h path <> Throw message.

(** No path is handed to [fs.stat] or opened twice, and the [visited] set
    holds exactly the paths handed to [fs.stat]. *)
Definition visitedOnce (st : SearchState) : Prop :=
  NoDup (statted st)
  /\ NoDup (opened st)
  /\ opened st ⊆ statted st
  /\ forall p, p ∈ visited st <-> p ∈ statted st.

(** A host on which every path resolves to a regular file that holds 2001
    letters. *)
Definition longFileHost : Host :=
  {| JSON_parse := JSON_parse Demo.host;
     resolveWorkspacePath := resolveWorkspacePath Demo.host;
     fs_stat := fun _ => Ok {| isDirectory := false; isFile := true; size := 2001 |};
     fs_readdir := fs_readdir Demo.host;
     fs_readdirTyped := fs_readdirTyped Demo.host;
     fs_readFile := fun _ => Ok (repeat 65%N 2001);
     fs_dirs := [];
     path_join := path_join Demo.host;
     path_relative := path_relative Demo.host;
     path_basename := path_basename Demo.host;
     RegExp_i := RegExp_i Demo.host;
     toLowerCase := toLowerCase Demo.host;
     sortByName := sortByName Demo.host |}.

(** A turn in which every stage answers and the plan is stored. *)
Definition completingTurn : Turn :=
  {| turn_question := lit "parser.go"; turn_hasModel := true;
     turn_orchestrator := Replied (lit "go ahead");
     turn_planner := Replied Demo.twoReads;
     turn_solver := Replied (lit "done");
     turn_persist := Ok (Some (lit "/w/plan.md")) |}.

(** A host whose [JSON.parse] reads every text as a clarifying question, and
    a turn in which the orchestrator answers. *)
Definition askingHost : Host :=
  {| JSON_parse := fun _ =>
       Ok (JObject [(lit "action", JString (lit "clarify"));
                    (lit "question", JString (lit " Which file? "))]);
     resolveWorkspacePath := resolveWorkspacePath Demo.host;
     fs_stat := fs_stat Demo.host;
     fs_readdir := fs_readdir Demo.host;
     fs_readdirTyped := fs_readdirTyped Demo.host;
     fs_readFile := fs_readFile Demo.host;
     fs_dirs := fs_dirs Demo.host;
     path_join := path_join Demo.host;
     path_relative := path_relative Demo.host;
     path_basename := path_basename Demo.host;
     RegExp_i := RegExp_i Demo.host;
     toLowerCase := toLowerCase Demo.host;
     sortByName := sortByName Demo.host |}.

Definition clarifyingTurn : Turn :=
  {| turn_question := lit "add tests"; turn_hasModel := true;
     turn_orchestrator := Replied (lit "a question");
     turn_planner := Failed; turn_solver := Failed; turn_persist := Ok None |}.

(** The number that a non-empty run of ASCII digits denotes in base ten. *)
Definition decimalValue (digits : list N) : option nat :=
  match digits with
  | [] => None
  | _ =>
      foldl (fun acc c =>
               match acc with
               | Some n =>
                   if isDigit c then Some (10 * n + N.to_nat (c - 48)) else None
               | None => None
               end)
            (Some 0) digits
  end.

(** * Properties *)

#[local] Arguments lit : simpl never.
#[local] Arguments Nat.ltb : simpl never.
#[local] Arguments Nat.leb : simpl never.
#[local] Arguments N.ltb : simpl never.
#[local] Arguments resultLine : simpl never.
#[local] Arguments truncateOutput : simpl never.
#[local] Arguments trim : simpl never.
#[local] Arguments skipDirectories : simpl never.
#[local] Arguments searchRun : simpl never.

(** ** Truncation of tool output *)

Lemma truncateOutput_short (value : list N) :
  length value <= MAX_TOOL_OUTPUT -> truncateOutput value = value.
Proof.
  intros Hle. unfold truncateOutput.
  destruct (Nat.leb_spec (length value) MAX_TOOL_OUTPUT); [reflexivity | lia].
Qed.

Lemma truncateOutput_long (value : list N) :
  MAX_TOOL_OUTPUT < length value ->
  truncateOutput value
  = take MAX_TOOL_OUTPUT value
    ++ truncationNotice (length value - MAX_TOOL_OUTPUT).
Proof.
  intros Hlt. unfold truncateOutput.
  destruct (Nat.leb_spec (length value) MAX_TOOL_OUTPUT); [lia | reflexivity].
Qed.

Lemma readFile_truncates (h : Host) (argument resolved data : list N)
    (stats : Stats) :
  resolveWorkspacePath h argument = Ok (Some resolved) ->
  resolved <> [] ->
  fs_stat h resolved = Ok stats ->
  isDirectory stats = false ->
  fs_readFile h resolved = Ok data ->
  readFile h argument = Ok (truncateOutput data).
Proof.
  intros Hres Hne Hstat Hdir Hdata. unfold readFile.
  rewrite Hres. cbn. destruct resolved as [|c r]; [congruence|]. cbn.
  rewrite Hstat. cbn. rewrite Hdir, Hdata. reflexivity.
Qed.

(** ** The traversal of search-text *)

Section Traversal.

Context (h : Host) (sp : SearchParams) (start : list N).

Lemma scanLines_bound (current : list N) (lines : list (list N)) :
  forall index found,
    length found <= maxResults ->
    length (scanLines h sp current lines index found) <= maxResults.
Proof.
  induction lines as [|line rest IH]; intros index found Hle; cbn; [exact Hle|].
  destruct (Nat.ltb_spec (length found) maxResults) as [Hlt|Hge]; [|exact Hle].
  apply IH. destruct (lineMatches h sp line); [|exact Hle].
  rewrite length_app. cbn. lia.
Qed.

Lemma scanLines_reported (current : list N) (files : list (list N))
    (content : list N) :
  current ∈ files ->
  fs_readFile h current = Ok content ->
  forall lines index found,
    (forall i line, lines !! i = Some line ->
                    splitLines content !! (index + i) = Some line) ->
    Forall (reportedFrom h sp files) found ->
    Forall (reportedFrom h sp files) (scanLines h sp current lines index found).
Proof.
  intros Hin Hread.
  induction lines as [|line rest IH]; intros index found Hat Hfound;
    cbn; [exact Hfound|].
  destruct (length found <? maxResults); [|exact Hfound].
  apply IH.
  - intros i l Hl. replace (S index + i) with (index + S i) by lia.
    apply Hat. exact Hl.
  - destruct (lineMatches h sp line) eqn:Hm; [|exact Hfound].
    apply Forall_app. split; [exact Hfound|].
    constructor; [|constructor].
    exists current, content, index, line. repeat split; try assumption.
    specialize (Hat 0 line eq_refl). rewrite Nat.add_0_r in Hat. exact Hat.
Qed.

Lemma reportedFrom_mono (files files' : list (list N)) (r : list N) :
  files ⊆ files' -> reportedFrom h sp files r -> reportedFrom h sp files' r.
Proof.
  intros Hsub (current & content & index & line & Hin & Hrest).
  exists current, content, index, line. split; [apply Hsub, Hin | exact Hrest].
Qed.

Lemma searchStart_invariant : SearchInvariant h sp start (searchStart start).
Proof.
  split; cbn; try constructor; try (unfold maxResults, maxFiles; lia).
  - left. reflexivity.
  - constructor.
  - intros p Hp. exact Hp.
Qed.

Lemma searchContinues_true (st : SearchState) :
  searchContinues st = true ->
  queue st <> [] /\ scannedFiles st < maxFiles /\ length (results st) < maxResults.
Proof.
  unfold searchContinues. intros H.
  apply andb_prop in H as [H Hr]. apply andb_prop in H as [Hq Hs].
  apply Nat.ltb_lt in Hr. apply Nat.ltb_lt in Hs.
  apply negb_true_iff, bool_decide_eq_false in Hq. auto.
Qed.

Lemma subseteq_snoc (l k : list (list N)) (x : list N) :
  l ⊆ k -> l ⊆ k ++ [x] /\ l ++ [x] ⊆ k ++ [x] /\ l ⊆ l ++ [x].
Proof.
  intros Hsub. repeat split; intros p Hp; rewrite ?elem_of_app in *.
  - left. apply Hsub, Hp.
  - destruct Hp as [Hp|Hp]; [left; apply Hsub, Hp|right; exact Hp].
  - left. exact Hp.
Qed.

(** A branch of the loop body that changes nothing the invariant looks at,
    or only what is already known to satisfy it. *)
Ltac keeps := split; cbn; rewrite ?length_app; cbn; (assumption || lia).

Lemma searchIteration_invariant (st : SearchState) :
  SearchInvariant h sp start st ->
  searchContinues st = true ->
  SearchInvariant h sp start (searchIteration h sp st).
Proof.
  intros [Hres Hsc Hfiles Hsmall Hq Hst Hop Hrep] Hcont.
  apply searchContinues_true in Hcont as (Hne & Hlt & _).
  unfold searchIteration.
  destruct (queue st) as [|current rest] eqn:Hqueue; [congruence|].
  apply Forall_cons in Hq as [Hcur Hrest].
  assert (Hst' : Forall (provenance h start) (statted st ++ [current])).
  { apply Forall_app. split; [exact Hst|]. constructor; [exact Hcur|constructor]. }
  destruct (subseteq_snoc _ _ current Hop) as (Hop' & Hop2 & Hgrow).
  case_bool_decide as Hvis; [keeps|].
  destruct (fs_stat h current) as [stat|message] eqn:Hstat; [|keeps].
  destruct (isDirectory stat) eqn:Hdir.
  { destruct (fs_readdir h current) as [entries|message] eqn:Hread; [|keeps].
    split; cbn; try assumption.
    apply Forall_app. split; [exact Hrest|].
    apply Forall_forall. intros p Hp.
    apply list_elem_of_In, in_map_iff in Hp as (entry & <- & Hentry).
    apply list_elem_of_In, list_elem_of_filter in Hentry as [Hskip Hentry].
    right. exists current, entries, entry. auto. }
  destruct (isFile stat) eqn:Hfile; [|keeps].
  destruct (N.ltb_spec maxFileSize (size stat)) as [Hbig|Hsmall']; [keeps|].
  assert (Hsmall2 : Forall (smallFile h) (opened st ++ [current])).
  { apply Forall_app. split; [exact Hsmall|]. constructor; [|constructor].
    exists stat. auto. }
  assert (Hrep2 : Forall (reportedFrom h sp (opened st ++ [current])) (results st)).
  { eapply Forall_impl; [exact Hrep|]. intros r. apply reportedFrom_mono, Hgrow. }
  destruct (fs_readFile h current) as [content|message] eqn:Hcontent; [|keeps].
  split; cbn; try assumption; try (rewrite length_app; cbn; lia).
  - apply scanLines_bound. exact Hres.
  - eapply scanLines_reported; [|exact Hcontent| |exact Hrep2].
    + apply elem_of_app. right. apply list_elem_of_singleton. reflexivity.
    + intros i line Hline. exact Hline.
Qed.

Lemma searchLoop_invariant (fuel : nat) :
  forall st,
    SearchInvariant h sp start st ->
    SearchInvariant h sp start (searchLoop h sp fuel st).
Proof.
  induction fuel as [|fuel IH]; intros st Hinv; cbn; [exact Hinv|].
  destruct (searchContinues st) eqn:Hcont; [|exact Hinv].
  apply IH, searchIteration_invariant; assumption.
Qed.

End Traversal.

(** *** The traversal ends *)

Section Termination.

Context (h : Host) (sp : SearchParams).

Lemma weightOutside_grow (seen : gset (list N)) (c : list N)
    (dirs : list (list N)) :
  weightOutside h ({[ c ]} ∪ seen) dirs <= weightOutside h seen dirs.
Proof.
  unfold weightOutside. induction dirs as [|d dirs IH]; [reflexivity|].
  rewrite !filter_cons.
  destruct (decide (d ∉ {[ c ]} ∪ seen)) as [Hout|Hin].
  - destruct (decide (d ∉ seen)) as [_|Hin']; [cbn; lia|].
    exfalso. apply Hin'. intros Hd. apply Hout, elem_of_union. right. exact Hd.
  - destruct (decide (d ∉ seen)); cbn; lia.
Qed.

Lemma weightOutside_visit (seen : gset (list N)) (c : list N)
    (dirs : list (list N)) :
  c ∈ dirs -> c ∉ seen ->
  weightOutside h ({[ c ]} ∪ seen) dirs + dirWeight h c
  <= weightOutside h seen dirs.
Proof.
  intros Hin Hnew. induction dirs as [|d dirs IH]; [inversion Hin|].
  pose proof (weightOutside_grow seen c dirs) as Hgrow.
  unfold weightOutside in *. rewrite !filter_cons.
  destruct (decide (d = c)) as [->|Hne].
  - destruct (decide (c ∉ {[ c ]} ∪ seen)) as [Hout|_].
    + exfalso. apply Hout, elem_of_union. left. apply elem_of_singleton.
      reflexivity.
    + destruct (decide (c ∉ seen)) as [_|Hn]; [cbn; lia|contradiction].
  - apply elem_of_cons in Hin as [->|Hin]; [contradiction|].
    specialize (IH Hin).
    destruct (decide (d ∉ {[ c ]} ∪ seen)) as [Hout|Hin'].
    + destruct (decide (d ∉ seen)) as [_|Hn]; [cbn; lia|].
      exfalso. apply Hn. intros Hd. apply Hout, elem_of_union. right. exact Hd.
    + destruct (decide (d ∉ seen)); cbn; lia.
Qed.

Hypothesis Hdirs : dirsListed h.

(** Every branch of the loop body shortens the queue; only a directory adds
    to it, and then its weight leaves the measure. *)
Ltac shrinks seen :=
  cbn; fold (weightOutside h seen (fs_dirs h)); lia.

Lemma searchIteration_potential (st : SearchState) :
  searchContinues st = true ->
  searchPotential h (searchIteration h sp st) < searchPotential h st.
Proof.
  intros Hcont. apply searchContinues_true in Hcont as (Hne & _ & _).
  unfold searchIteration, searchPotential.
  destruct (queue st) as [|current rest] eqn:Hqueue; [congruence|].
  fold (weightOutside h (visited st) (fs_dirs h)).
  pose proof (weightOutside_grow (visited st) current (fs_dirs h)) as Hgrow.
  case_bool_decide as Hvis; [shrinks (visited st)|].
  destruct (fs_stat h current) as [stat|message] eqn:Hstat;
    [|shrinks ({[current]} ∪ visited st)].
  destruct (isDirectory stat) eqn:Hdir.
  { pose proof (weightOutside_visit (visited st) current (fs_dirs h)
                  (Hdirs _ _ Hstat Hdir) Hvis) as Hvisit.
    unfold dirWeight in Hvisit.
    destruct (fs_readdir h current) as [entries|message] eqn:Hread;
      cbn; fold (weightOutside h ({[current]} ∪ visited st) (fs_dirs h));
      [|lia].
    rewrite length_app, length_map.
    pose proof (length_filter (fun entry => entry ∉ skipDirectories) entries).
    lia. }
  destruct (isFile stat); [|shrinks ({[current]} ∪ visited st)].
  destruct (maxFileSize <? size stat)%N; [shrinks ({[current]} ∪ visited st)|].
  destruct (fs_readFile h current); shrinks ({[current]} ∪ visited st).
Qed.

Lemma searchLoop_exits (fuel : nat) :
  forall st, searchPotential h st <= fuel ->
             searchContinues (searchLoop h sp fuel st) = false.
Proof.
  induction fuel as [|fuel IH]; intros st Hpot; cbn.
  - unfold searchContinues. unfold searchPotential in Hpot.
    destruct (queue st); [reflexivity|cbn in Hpot; lia].
  - destruct (searchContinues st) eqn:Hcont; [|exact Hcont].
    apply IH. pose proof (searchIteration_potential st Hcont). lia.
Qed.

(** Once the loop has left, more fuel changes nothing. *)
Lemma searchLoop_more_fuel (fuel : nat) :
  forall st extra,
    searchContinues (searchLoop h sp fuel st) = false ->
    searchLoop h sp (fuel + extra) st = searchLoop h sp fuel st.
Proof.
  induction fuel as [|fuel IH]; intros st extra Hexit; cbn in *.
  - destruct extra; [reflexivity|]. cbn. rewrite Hexit. reflexivity.
  - destruct (searchContinues st) eqn:Hcont; [|reflexivity].
    apply IH. exact Hexit.
Qed.

(** On a file system with finitely many directories the loop of
    [searchText] leaves through its condition, and [searchRun] is the state it
    leaves in, whatever larger number of passes is allowed. *)
Lemma searchRun_exits (resolvedPath : list N) :
  searchContinues (searchRun h sp resolvedPath) = false
  /\ forall extra,
       searchLoop h sp (searchPotential h (searchStart resolvedPath) + extra)
         (searchStart resolvedPath)
       = searchRun h sp resolvedPath.
Proof.
  assert (Hexit : searchContinues (searchRun h sp resolvedPath) = false)
    by (apply searchLoop_exits; reflexivity).
  split; [exact Hexit|]. intros extra. apply searchLoop_more_fuel. exact Hexit.
Qed.

End Termination.

(** *** What [searchText] returns *)

Lemma searchText_shapes (h : Host) (argument out : list N) :
  searchText h argument = Ok out ->
  out = lit "SearchText requires a pattern argument."
  \/ out = lit "Unable to resolve search path inside the workspace."
  \/ out = lit "No results from SearchText."
  \/ exists found, found <> [] /\ length found <= maxResults
                   /\ out = truncateOutput (join newline found).
Proof.
  unfold searchText. destruct (splitSearchArgument argument) as [pattern rawPath].
  destruct (truthy pattern); cbn; [|intros [= <-]; auto].
  destruct (resolveWorkspacePath h (searchPath rawPath)) as [resolved|m]; cbn;
    [|discriminate].
  destruct (usable resolved) as [resolvedPath|]; [|intros [= <-]; auto].
  destruct (resolveWorkspacePath h (lit ".")) as [root|m]; cbn; [|discriminate].
  match goal with
  | |- context [searchRun h ?sp resolvedPath] =>
      pose proof (inv_results _ _ _ _
                    (searchLoop_invariant h sp resolvedPath
                       (searchPotential h (searchStart resolvedPath)) _
                       (searchStart_invariant h sp resolvedPath))) as Hb;
      fold (searchRun h sp resolvedPath) in Hb;
      destruct (results (searchRun h sp resolvedPath)) as [|r found] eqn:Hres
  end.
  - intros [= <-]. auto.
  - intros [= <-]. do 3 right. exists (r :: found). split; [discriminate|].
    split; [exact Hb|reflexivity].
Qed.

(** C4.  One traversal of search-text keeps at most 40 result lines, hands at
    most 120 paths to [fs.readFile], and every path it hands over was called
    a file of at most 200000 bytes by [fs.stat]; this holds after any number
    of passes of the loop, so also when the tree holds more files or matches.
    What [searchText] returns is one of its three notices or the truncated
    join of at most 40 result lines.  Where the directories are finitely
    many, the loop leaves through its condition. *)
Theorem searchText_bounds (h : Host) (sp : SearchParams) (resolvedPath : list N)
    (fuel : nat) :
  let st := searchLoop h sp fuel (searchStart resolvedPath) in
  (length (results st) <= 40
   /\ length (opened st) <= 120
   /\ scannedFiles st = length (opened st)
   /\ Forall (fun p => exists stat, fs_stat h p = Ok stat
                                    /\ ((size stat <= 200000)%N))
             (opened st))
  /\ (forall argument out,
        searchText h argument = Ok out ->
        out = lit "SearchText requires a pattern argument."
        \/ out = lit "Unable to resolve search path inside the workspace."
        \/ out = lit "No results from SearchText."
        \/ exists found, length found <= 40
                         /\ out = truncateOutput (join newline found))
  /\ (dirsListed h -> searchContinues (searchRun h sp resolvedPath) = false).
Proof.
  intros st.
  destruct (searchLoop_invariant h sp resolvedPath fuel _
              (searchStart_invariant h sp resolvedPath))
    as [Hres Hsc Hfiles Hsmall _ _ _ _].
  fold st in Hres, Hsc, Hfiles, Hsmall. split; [|split].
  - repeat split; [exact Hres|rewrite <- Hsc; exact Hfiles|exact Hsc|].
    eapply Forall_impl; [exact Hsmall|].
    intros p (stat & Hstat & _ & _ & Hsize). exists stat. auto.
  - intros argument out Hout.
    destruct (searchText_shapes h argument out Hout)
      as [H|[H|[H|(found & _ & Hlen & H)]]]; auto.
    do 3 right. exists found. auto.
  - intros Hdirs. apply (searchRun_exits h sp Hdirs resolvedPath).
Qed.

(** C10.  Every path that the traversal puts in its queue, hands to
    [fs.stat] or opens is the start path or [path.join(dir, entry)] for an
    entry that [readdir] listed and that is none of [.git], [node_modules],
    [.turbo], [.next], [dist], [build]: the names are refused before anything
    is known about the entry, file or directory, at every depth.  Every
    result line comes from a file opened in this way. *)
Theorem searchText_skips_by_name (h : Host) (sp : SearchParams)
    (start : list N) (fuel : nat) :
  let st := searchLoop h sp fuel (searchStart start) in
  (forall entry,
      entry ∈ skipDirectories
      <-> entry ∈ [lit ".git"; lit "node_modules"; lit ".turbo"; lit ".next";
                   lit "dist"; lit "build"])
  /\ Forall (provenance h start) (queue st)
  /\ Forall (provenance h start) (statted st)
  /\ opened st ⊆ statted st
  /\ Forall (reportedFrom h sp (opened st)) (results st).
Proof.
  intros st.
  destruct (searchLoop_invariant h sp start fuel _
              (searchStart_invariant h sp start))
    as [_ _ _ _ Hq Hst Hop Hrep].
  split; [|auto].
  intros entry. unfold skipDirectories. rewrite elem_of_list_to_set. reflexivity.
Qed.

Lemma assoc_listed {A : Type} (key : list N) (table : list (list N * A))
    (v : A) :
  Demo.assoc key table = Some v -> key ∈ map fst table.
Proof.
  induction table as [|[k w] table IH]; cbn; [discriminate|].
  case_bool_decide as Hk.
  - intros _. subst k. apply elem_of_cons. left. reflexivity.
  - intros Hrest. apply elem_of_cons. right. apply IH, Hrest.
Qed.

Lemma demo_dirsListed : dirsListed Demo.host.
Proof.
  intros p stat Hstat Hdir. cbn in Hstat. unfold Demo.stat in Hstat.
  destruct (Demo.assoc p Demo.dirs) as [entries|] eqn:Hd.
  - apply (assoc_listed p Demo.dirs entries Hd).
  - destruct (Demo.assoc p Demo.files); [|discriminate].
    injection Hstat as <-. discriminate.
Qed.

Lemma searchText_bounds_witness :
  (searchText Demo.host (lit "plan") = Ok (lit "src/main.ts:1: const plan = 1;")
   /\ (lit "src/main.ts:1: const plan = 1;"
         = lit "SearchText requires a pattern argument."
       \/ lit "src/main.ts:1: const plan = 1;"
         = lit "Unable to resolve search path inside the workspace."
       \/ lit "src/main.ts:1: const plan = 1;" = lit "No results from SearchText."
       \/ exists found,
             length found <= 40
             /\ lit "src/main.ts:1: const plan = 1;"
                = truncateOutput (join newline found)))
  /\ (dirsListed Demo.host
      /\ searchContinues
           (searchRun Demo.host
              {| sp_regex := None; sp_lowerPattern := lit "plan";
                 sp_workspaceRoot := lit "/w" |} (lit "/w")) = false).
Proof.
  pose proof (searchText_bounds Demo.host
                {| sp_regex := None; sp_lowerPattern := lit "plan";
                   sp_workspaceRoot := lit "/w" |} (lit "/w") 0)
    as (_ & Hout & Hexit).
  split.
  - split; [vm_compute; reflexivity|].
    apply (Hout (lit "plan")). vm_compute. reflexivity.
  - split; [exact demo_dirsListed|exact (Hexit demo_dirsListed)].
Defined.

(** ** Truncation law *)

Lemma decimal_fold_uint (u : Decimal.uint) (n : nat) :
  foldl (fun acc c =>
           match acc with
           | Some n =>
               if isDigit c then Some (10 * n + N.to_nat (c - 48)) else None
           | None => None
           end)
        (Some n) (uintChars u)
  = Some (Nat.of_uint_acc u n).
Proof.
  revert n. induction u as [|u IH|u IH|u IH|u IH|u IH|u IH|u IH|u IH|u IH|u IH];
    intros n; [reflexivity|..];
    cbn [uintChars foldl Nat.of_uint_acc];
    match goal with
    | |- context [isDigit ?c] => change (isDigit c) with true
    end;
    cbv iota; rewrite IH; f_equal; f_equal; rewrite Nat.tail_mul_spec;
    match goal with
    | |- context [N.to_nat ?k] =>
        let v := eval vm_compute in (N.to_nat k) in
        change (N.to_nat k) with v
    end; lia.
Qed.

Lemma ofNat_nonempty (n : nat) : ofNat n <> [].
Proof.
  unfold ofNat. destruct n as [|n]; [discriminate|].
  pose proof (DecimalNat.Unsigned.of_to (S n)) as Hback.
  destruct (Nat.to_uint (S n)); try discriminate.
Qed.

Lemma decimalValue_ofNat (n : nat) : decimalValue (ofNat n) = Some n.
Proof.
  pose proof (ofNat_nonempty n) as Hne. unfold decimalValue.
  destruct (ofNat n) as [|c digits] eqn:Hdigits; [congruence|].
  rewrite <- Hdigits. unfold ofNat. rewrite decimal_fold_uint.
  f_equal. apply (DecimalNat.Unsigned.of_to n).
Qed.

(** C3.  A value of at most 2000 code units is returned unchanged; a longer
    one becomes its first 2000 code units followed by the notice that counts
    the dropped ones, so its length is 2000 plus the length of the notice.
    The notice is a line feed, the text [... (truncated ], the number of
    dropped code units in decimal and the text [ characters)]; read back
    as a decimal numeral, that number is the length of the value less 2000.
    [readFile] returns the content of a file through this truncation, and
    [searchText] the join of the result lines of its traversal. *)
Theorem truncateOutput_law (h : Host) (value : list N) :
  (length value <= 2000 -> truncateOutput value = value)
  /\ (2000 < length value ->
      truncateOutput value
      = take 2000 value ++ truncationNotice (length value - 2000)
      /\ take 2000 (truncateOutput value) = take 2000 value
      /\ length (truncateOutput value)
         = 2000 + length (truncationNotice (length value - 2000))
      /\ truncateOutput value
         = take 2000 value
           ++ [10%N] ++ lit "... (truncated "
           ++ ofNat (length value - 2000) ++ lit " characters)"
      /\ decimalValue (ofNat (length value - 2000))
         = Some (length value - 2000)
      /\ length (truncateOutput value)
         = 2000 + (16 + length (ofNat (length value - 2000)) + 12))
  /\ (forall argument resolved stats,
        resolveWorkspacePath h argument = Ok (Some resolved) ->
        resolved <> [] ->
        fs_stat h resolved = Ok stats ->
        isDirectory stats = false ->
        fs_readFile h resolved = Ok value ->
        readFile h argument = Ok (truncateOutput value))
  /\ (forall argument,
        searchText h argument = Ok value ->
        value = lit "SearchText requires a pattern argument."
        \/ value = lit "Unable to resolve search path inside the workspace."
        \/ value = lit "No results from SearchText."
        \/ exists found, value = truncateOutput (join newline found))
  /\ (forall argument pattern rawPath resolved root,
        splitSearchArgument argument = (pattern, rawPath) ->
        pattern <> [] ->
        resolveWorkspacePath h (searchPath rawPath) = Ok (Some resolved) ->
        resolved <> [] ->
        resolveWorkspacePath h (lit ".") = Ok root ->
        let found :=
          results
            (searchRun h
               {| sp_regex := RegExp_i h pattern;
                  sp_lowerPattern := toLowerCase h pattern;
                  sp_workspaceRoot := orElse root resolved |}
               resolved) in
        found <> [] ->
        searchText h argument = Ok (truncateOutput (join newline found))).
Proof.
  split; [apply truncateOutput_short|]. split.
  - intros Hlong. pose proof (truncateOutput_long value Hlong) as Heq.
    change MAX_TOOL_OUTPUT with 2000 in Heq.
    assert (Hlen : length (truncateOutput value)
                   = 2000 + length (truncationNotice (length value - 2000)))
      by (rewrite Heq, length_app, length_take; lia).
    split; [exact Heq|]. split; [|split; [exact Hlen|split; [exact Heq|split]]].
    + rewrite Heq. rewrite take_app_le by (rewrite length_take; lia).
      rewrite take_take. f_equal.
    + apply decimalValue_ofNat.
    + rewrite Hlen. unfold truncationNotice. rewrite !length_app.
      change (length (lit (String "010"%char "... (truncated "))) with 16.
      change (length (lit " characters)")) with 12. lia.
  - split; [|split].
    + intros argument resolved stats. apply readFile_truncates.
    + intros argument Hout.
      destruct (searchText_shapes h argument value Hout)
        as [H|[H|[H|(found & _ & _ & H)]]]; auto.
      do 3 right. exists found. exact H.
    + intros argument pattern rawPath resolved root Hsplit Hpattern Hres Hne
        Hroot found Hfound.
      unfold searchText. rewrite Hsplit.
      destruct pattern as [|c pattern]; [congruence|]. cbn [truthy negb].
      rewrite Hres. cbn [mbind outcome_bind].
      destruct resolved as [|d resolved]; [congruence|]. cbn [usable].
      rewrite Hroot. cbn [mbind outcome_bind]. cbv zeta. fold found.
      destruct found; [congruence|reflexivity].
Qed.

Lemma truncateOutput_law_witness :
  (2000 < length (repeat 65%N 2001)
   /\ truncateOutput (repeat 65%N 2001)
      = take 2000 (repeat 65%N 2001)
        ++ truncationNotice (length (repeat 65%N 2001) - 2000)
   /\ take 2000 (truncateOutput (repeat 65%N 2001))
      = take 2000 (repeat 65%N 2001)
   /\ length (truncateOutput (repeat 65%N 2001))
      = 2000 + length (truncationNotice (length (repeat 65%N 2001) - 2000))
   /\ truncateOutput (repeat 65%N 2001)
      = take 2000 (repeat 65%N 2001)
        ++ [10%N] ++ lit "... (truncated "
        ++ ofNat (length (repeat 65%N 2001) - 2000) ++ lit " characters)"
   /\ decimalValue (ofNat (length (repeat 65%N 2001) - 2000))
      = Some (length (repeat 65%N 2001) - 2000)
   /\ length (truncateOutput (repeat 65%N 2001))
      = 2000 + (16 + length (ofNat (length (repeat 65%N 2001) - 2000)) + 12))
  /\ ofNat (length (repeat 65%N 2001) - 2000) = lit "1"
  /\ (length (lit "#E1") <= 2000 /\ truncateOutput (lit "#E1") = lit "#E1")
  /\ (fs_readFile Demo.host (lit "/w/notes.txt") = Ok (lit "#E1")
      /\ readFile Demo.host (lit "notes.txt") = Ok (truncateOutput (lit "#E1"))).
Proof.
  assert (Hlong : 2000 < length (repeat 65%N 2001))
    by (rewrite repeat_length; apply Nat.lt_succ_diag_r).
  assert (Hshort : length (lit "#E1") <= 2000)
    by (apply Nat.leb_le; reflexivity).
  split; [|split; [vm_compute; reflexivity|split]].
  - split; [exact Hlong|].
    exact (proj1 (proj2 (truncateOutput_law Demo.host (repeat 65%N 2001))) Hlong).
  - split; [exact Hshort|].
    exact (proj1 (truncateOutput_law Demo.host (lit "#E1")) Hshort).
  - split; [reflexivity|].
    apply (proj1 (proj2 (proj2 (truncateOutput_law Demo.host (lit "#E1"))))
             (lit "notes.txt") (lit "/w/notes.txt")
             {| isDirectory := false; isFile := true; size := 3 |});
      [reflexivity|discriminate|reflexivity|reflexivity|reflexivity].
Defined.

(** ** Orchestrator decision parser *)




(** ** The argument of search-text *)

Lemma splitOn_no_separator (sep : N) (a : list N) :
  Forall (fun c => c <> sep) a -> splitOn sep a = [a].
Proof.
  induction 1 as [|c a Hc _ IH]; [reflexivity|].
  cbn. unfold eqc. destruct (N.eqb_spec c sep); [contradiction|].
  rewrite IH. reflexivity.
Qed.

Lemma splitOn_first (sep : N) (a rest : list N) :
  Forall (fun c => c <> sep) a ->
  splitOn sep (a ++ sep :: rest) = a :: splitOn sep rest.
Proof.
  induction 1 as [|c a Hc _ IH]; cbn.
  - unfold eqc. rewrite N.eqb_refl. reflexivity.
  - unfold eqc in *. destruct (N.eqb_spec c sep); [contradiction|].
    rewrite IH. reflexivity.
Qed.

(** C9, as the code has it.  The argument is cut at every bar and the parts
    are trimmed; the pattern is the first part and the path the second one,
    the text between the first bar and the second bar if there is one.
    Whatever follows a second bar is dropped.  Without a bar, or with an empty
    second part, the path handed to the resolver is ["."], the workspace
    root. *)
Theorem splitSearchArgument_parts (a b c : list N) :
  Forall (fun x => x <> 124%N) a ->
  Forall (fun x => x <> 124%N) b ->
  splitSearchArgument a = (trim a, None)
  /\ splitSearchArgument (a ++ 124%N :: b) = (trim a, Some (trim b))
  /\ splitSearchArgument (a ++ 124%N :: b ++ 124%N :: c) = (trim a, Some (trim b))
  /\ searchPath (snd (splitSearchArgument a)) = lit "."
  /\ (trim b = [] -> searchPath (snd (splitSearchArgument (a ++ 124%N :: b))) = lit ".").
Proof.
  intros Ha Hb. unfold splitSearchArgument.
  rewrite (splitOn_no_separator _ _ Ha).
  rewrite !(splitOn_first _ _ _ Ha), (splitOn_first _ _ _ Hb).
  rewrite (splitOn_no_separator _ _ Hb).
  repeat split. cbn. intros ->. reflexivity.
Qed.

Lemma splitSearchArgument_parts_witness :
  Forall (fun x => x <> 124%N) (lit " TODO ")
  /\ Forall (fun x => x <> 124%N) (lit " src ")
  /\ splitSearchArgument (lit " TODO ") = (lit "TODO", None)
  /\ splitSearchArgument (lit " TODO | src ") = (lit "TODO", Some (lit "src"))
  /\ splitSearchArgument (lit " TODO | src |x") = (lit "TODO", Some (lit "src")).
Proof.
  assert (Ha : Forall (fun x => x <> 124%N) (lit " TODO "))
    by (repeat constructor; discriminate).
  assert (Hb : Forall (fun x => x <> 124%N) (lit " src "))
    by (repeat constructor; discriminate).
  split; [exact Ha|]. split; [exact Hb|].
  destruct (splitSearchArgument_parts (lit " TODO ") (lit " src ") (lit "x") Ha Hb)
    as (H1 & H2 & H3 & _).
  split; [exact H1|]. split; [exact H2|exact H3].
Defined.

(** C9 as the specification words it fails on an argument with two bars: the
    path is not the rest of the argument after the first bar. *)
Lemma splitSearchArgument_not_first_bar_only :
  splitSearchArgument (lit "a|b|c") = (lit "a", Some (lit "b"))
  /\ splitAtFirstBar (lit "a|b|c") = (lit "a", Some (lit "b|c"))
  /\ splitSearchArgument (lit "a|b|c") <> splitAtFirstBar (lit "a|b|c").
Proof. vm_compute. repeat split. discriminate. Qed.

(** ** The session state machine *)

Lemma settled_ok (s : PlanSession) : settled s -> sessionOk s.
Proof.
  intros [Hp Hs]. split; [|congruence]. unfold pendingIffAwaiting. rewrite Hp.
  split; [intros [x Hx]; discriminate|contradiction].
Qed.

Lemma startPlanSession_settled (p : Provider) (newTask : list N) :
  settled (startPlanSession p newTask).
Proof. split; [reflexivity|discriminate]. Qed.

Lemma intake_settled (p : Provider) (trimmedQuestion : list N) :
  providerOk p -> settled (fst (intake p trimmedQuestion)).
Proof.
  intros Hok. unfold intake.
  set (found :=
         match planSession p with
         | Some s =>
             if bool_decide (status s = completed)
             then (startPlanSession p trimmedQuestion, afterStart p trimmedQuestion)
             else (s, p)
         | None => (startPlanSession p trimmedQuestion, afterStart p trimmedQuestion)
         end).
  assert (Hfound : sessionOk (fst found)).
  { subst found. destruct (planSession p) as [s|] eqn:Hp.
    - case_bool_decide; [apply settled_ok, startPlanSession_settled|].
      cbn. apply Hok. exact Hp.
    - apply settled_ok, startPlanSession_settled. }
  destruct found as [session p1]. cbn in Hfound.
  destruct Hfound as [Hiff Hne].
  destruct (pendingClarification session) as [[|c q]|] eqn:Hpending.
  - congruence.
  - cbn. split; [reflexivity|discriminate].
  - assert (Hs : status session <> awaiting_clarifications).
    { intros Hst. apply Hiff in Hst as [x Hx]. congruence. }
    repeat case_bool_decide; cbn; try (split; [assumption|assumption]);
      split; [reflexivity|discriminate].
Qed.

Lemma runSteps_stage (h : Host) (P : PlanSession -> Prop)
    (steps : list StepMatch) :
  (forall s executions, P s -> P (withToolExecutions s executions)) ->
  forall rs,
    P (rs_session rs) -> Forall P (rs_published rs) ->
    P (rs_session (runSteps h rs steps))
    /\ Forall P (rs_published (runSteps h rs steps)).
Proof.
  intros Hwith. unfold runSteps.
  induction steps as [|m steps IH]; intros rs Hs Hp; cbn; [auto|].
  apply IH; unfold runStep; destruct (executeStep h (rs_variables rs) m); cbn.
  - apply Hwith, Hs.
  - apply Forall_app. split; [exact Hp|]. constructor; [|constructor].
    apply Hwith, Hs.
Qed.

Lemma executePlanTools_stage (h : Host) (P : PlanSession -> Prop)
    (session : PlanSession) :
  (forall s executions, P s -> P (withToolExecutions s executions)) ->
  P session ->
  P (rs_session (executePlanTools h session))
  /\ Forall P (rs_published (executePlanTools h session)).
Proof.
  intros Hwith Hs. apply runSteps_stage; [exact Hwith|exact Hs|constructor].
Qed.

Create HintDb session discriminated.

#[local] Hint Resolve settled_ok startPlanSession_settled : session.
#[local] Hint Resolve Forall_nil_2 Forall_cons_2 Forall_app_2 : session.
#[local] Hint Extern 2 (settled _) =>
  (split; [first [assumption | reflexivity] | discriminate]) : session.

Lemma planningStages_ok (h : Host) (t : Turn) (session : PlanSession) :
  settled session ->
  sessionOk (fst (planningStages h t session))
  /\ Forall sessionOk (snd (planningStages h t session)).
Proof.
  intros [Hp Hst]. unfold planningStages.
  set (s1 := setStatus planning session).
  assert (H1 : settled s1) by auto with session.
  destruct (turn_planner t) as [plannerText| |]; cbn [fst snd];
    [|auto with session..].
  set (s2 := setPlanMarkdown plannerText s1).
  set (s3 := setStatus executing_tools s2).
  assert (H2 : settled s2) by auto with session.
  assert (H3 : settled s3) by auto with session.
  destruct (executePlanTools_stage h settled s3) as [Hrun Hpub];
    [intros s executions Hx; exact Hx|exact H3|].
  set (run := executePlanTools h s3) in *.
  set (s4 := withToolExecutions (rs_session run) (rs_executions run)).
  assert (H4 : settled s4) by exact Hrun.
  destruct H4 as [Hp4 Hst4].
  assert (H5 : settled (setStatus solving s4)) by auto with session.
  assert (Hpub' : Forall sessionOk (rs_published run))
    by (eapply Forall_impl; [exact Hpub|exact settled_ok]).
  assert (Hup : Forall sessionOk
                  ([s1; s2; s3] ++ rs_published run ++ [s4; setStatus solving s4]))
    by auto 10 with session.
  destruct (turn_solver t) as [solverText| |]; cbn [fst snd];
    [|auto with session..].
  destruct (turn_persist t) as [location|message]; cbn [fst snd];
    auto 10 with session.
Qed.

Lemma advanceStages_ok (h : Host) (t : Turn) (session : PlanSession) :
  settled session ->
  sessionOk (fst (fst (advanceStages h t session)))
  /\ Forall sessionOk (snd (fst (advanceStages h t session))).
Proof.
  intros Hs. pose proof (planningStages_ok h t session Hs) as Hplan.
  unfold advanceStages.
  destruct (turn_orchestrator t) as [orchestratorText| |]; cbn;
    try (split; [apply settled_ok, Hs|constructor]).
  destruct (parseOrchestratorDecision h orchestratorText) as [decision warnings].
  assert (Hwait : forall c q,
             sessionOk (pushOrchestratorMessage assistant (c :: q)
                          (setPendingClarification (Some (c :: q))
                             (setStatus awaiting_clarifications session)))).
  { intros c q. split; [|discriminate]. unfold pendingIffAwaiting. cbn.
    split; [reflexivity|eauto]. }
  destruct (action decision); [|exact Hplan].
  destruct (question decision) as [[|c q]|]; [exact Hplan| |exact Hplan].
  cbn. split; [apply Hwait|]. constructor; [apply Hwait|constructor].
Qed.

Lemma planModeChat_ok (h : Host) (p : Provider) (t : Turn) :
  providerOk p ->
  Forall sessionOk (adv_published (planModeChat h p t))
  /\ sessionOk (adv_session (planModeChat h p t))
  /\ providerOk (adv_provider (planModeChat h p t)).
Proof.
  intros Hok. unfold planModeChat.
  pose proof (intake_settled p (trim (turn_question t)) Hok) as Hin.
  destruct (intake p (trim (turn_question t))) as [session p1]. cbn in Hin.
  destruct (turn_hasModel t).
  - pose proof (advanceStages_ok h t session Hin) as [Hfinal Hpub].
    destruct (advanceStages h t session) as [[final published] warnings].
    cbn in *. split; [constructor; [apply settled_ok, Hin|exact Hpub]|].
    split; [exact Hfinal|]. intros s [= <-]. exact Hfinal.
  - cbn. pose proof (settled_ok _ Hin) as Hs.
    split; [constructor; [exact Hs|constructor]|].
    split; [exact Hs|]. intros s [= <-]. exact Hs.
Qed.

Lemma planModeChats_ok (h : Host) (turns : list Turn) :
  forall p, providerOk p -> providerOk (planModeChats h p turns).
Proof.
  induction turns as [|t turns IH]; intros p Hok; cbn; [exact Hok|].
  apply IH, planModeChat_ok, Hok.
Qed.

(** C7.  Whatever inputs a driver has submitted so far, and whatever the
    model stages and the tools answer, every snapshot that the next call of
    [planModeChat] publishes and the session it leaves with the provider
    satisfy: a question is pending if and only if the status is
    [awaiting_clarifications]. *)
Theorem pendingClarification_iff_awaiting (h : Host) (turns : list Turn)
    (t : Turn) :
  let advance := planModeChat h (planModeChats h freshProvider turns) t in
  Forall pendingIffAwaiting (adv_published advance)
  /\ pendingIffAwaiting (adv_session advance)
  /\ planSession (adv_provider advance) = Some (adv_session advance).
Proof.
  intros advance.
  assert (Hfresh : providerOk freshProvider) by (intros s [=]).
  destruct (planModeChat_ok h _ t (planModeChats_ok h turns _ Hfresh))
    as (Hpub & Hs & _).
  fold advance in Hpub, Hs. split; [|split].
  - eapply Forall_impl; [exact Hpub|]. intros s [H _]. exact H.
  - apply Hs.
  - subst advance. unfold planModeChat.
    destruct (intake _ _) as [session p1].
    destruct (turn_hasModel t); [|reflexivity].
    destruct (advanceStages h t session) as [[final published] warnings].
    reflexivity.
Qed.

(** C8, as the code has it.  From status [awaiting_clarifications] with a
    non-empty pending question, the first snapshot published by the next call
    has status [orchestrating], no pending question, and one more
    clarification: the pending question with the trimmed input as answer. *)
Theorem answer_resumes_orchestrating (h : Host) (p : Provider) (t : Turn)
    (s : PlanSession) (c : N) (q : list N) :
  planSession p = Some s ->
  status s = awaiting_clarifications ->
  pendingClarification s = Some (c :: q) ->
  exists s',
    head (adv_published (planModeChat h p t)) = Some s'
    /\ status s' = orchestrating
    /\ pendingClarification s' = None
    /\ clarifications s'
       = clarifications s
         ++ [{| pc_question := c :: q; pc_answer := trim (turn_question t) |}]
    /\ length (clarifications s') = S (length (clarifications s)).
Proof.
  intros Hp Hst Hpending. unfold planModeChat, intake.
  rewrite Hp. rewrite bool_decide_eq_false_2 by (rewrite Hst; discriminate).
  rewrite Hpending. cbv beta iota zeta.
  eexists. split.
  - destruct (turn_hasModel t); [|reflexivity].
    match goal with
    | |- context [advanceStages h t ?x] =>
        destruct (advanceStages h t x) as [[final published] warnings]
    end.
    reflexivity.
  - cbn. repeat split. rewrite length_app. cbn. lia.
Qed.

Lemma answer_resumes_orchestrating_witness :
  planSession Demo.waitingProvider = Some Demo.waiting
  /\ status Demo.waiting = awaiting_clarifications
  /\ pendingClarification Demo.waiting = Some (lit "Which file?")
  /\ exists s',
       head (adv_published
               (planModeChat Demo.host Demo.waitingProvider Demo.answerTurn))
       = Some s'
       /\ status s' = orchestrating
       /\ pendingClarification s' = None
       /\ clarifications s'
          = clarifications Demo.waiting
            ++ [{| pc_question := lit "Which file?";
                   pc_answer := trim (turn_question Demo.answerTurn) |}]
       /\ length (clarifications s') = S (length (clarifications Demo.waiting)).
Proof.
  split; [reflexivity|]. split; [reflexivity|]. split; [reflexivity|].
  exact (answer_resumes_orchestrating Demo.host Demo.waitingProvider
           Demo.answerTurn Demo.waiting 87%N (lit "hich file?")
           eq_refl eq_refl eq_refl).
Defined.

(** C8 as the specification words it fails on an input with white space
    around it: the recorded answer is the trimmed input, not the input. *)
Lemma answer_is_not_the_input :
  turn_question Demo.answerTurn = lit " parser.go "
  /\ clarifications
     <$> head (adv_published
                 (planModeChat Demo.host Demo.waitingProvider Demo.answerTurn))
     = Some [{| pc_question := lit "Which file?"; pc_answer := lit "parser.go" |}]
  /\ lit "parser.go" <> lit " parser.go ".
Proof. vm_compute. repeat split. discriminate. Qed.

(** ** The plan runner *)

Lemma runSteps_locals (h : Host) (steps : list StepMatch) :
  forall rs,
    rs_executions (runSteps h rs steps)
    = rs_executions rs ++ stepExecutions h (rs_variables rs) steps
    /\ rs_variables (runSteps h rs steps)
       = stepVariables h (rs_variables rs) steps.
Proof.
  unfold runSteps, stepVariables.
  induction steps as [|m steps IH]; intros rs; cbn.
  - rewrite app_nil_r. auto.
  - destruct (IH (runStep h rs m)) as [He Hv]. rewrite He, Hv.
    unfold runStep. destruct (executeStep h (rs_variables rs) m) as [e v].
    cbn. rewrite <- app_assoc. auto.
Qed.

Lemma executePlanTools_executions (h : Host) (session : PlanSession) :
  rs_executions (executePlanTools h session)
  = stepExecutions h ∅ (planMatches (default [] (planMarkdown session))).
Proof.
  unfold executePlanTools.
  destruct (runSteps_locals h (planMatches (default [] (planMarkdown session)))
              (runStart session)) as [He _].
  exact He.
Qed.

Lemma stepExecutions_length (h : Host) (steps : list StepMatch) :
  forall variables, length (stepExecutions h variables steps) = length steps.
Proof.
  induction steps as [|m steps IH]; intros variables; cbn; [reflexivity|].
  rewrite IH. reflexivity.
Qed.


Lemma stepExecutions_lookup (h : Host) (steps : list StepMatch) (i : nat)
    (m : StepMatch) :
  steps !! i = Some m ->
  forall variables,
    stepExecutions h variables steps !! i
    = Some (fst (executeStep h (stepVariables h variables (take i steps)) m)).
Proof.
  revert i. induction steps as [|m0 steps IH]; intros i Hi variables;
    [discriminate|].
  destruct i as [|i]; cbn in *.
  - injection Hi as ->. reflexivity.
  - apply IH. exact Hi.
Qed.

(** What one step records, by the three ways it can go. *)
Lemma executeStep_cases (h : Host) (variables : gmap (list N) (list N))
    (m : StepMatch) :
  let argument := trim (resolveReferences variables (sm_rawArgument m)) in
  let e := fst (executeStep h variables m) in
  te_id e = referenceToken (sm_id m)
  /\ te_tool e = trim (sm_toolNameRaw m)
  /\ te_argument e = argument
  /\ match dispatchTool h (map lowerAscii (trim (sm_toolNameRaw m))) argument with
     | None =>
         te_error e = Some (lit "Unsupported tool: " ++ sm_toolNameRaw m)
         /\ te_output e = []
         /\ snd (executeStep h variables m) = variables
     | Some (Ok out) =>
         te_error e = None /\ te_output e = out
         /\ snd (executeStep h variables m) = <[ sm_id m := out ]> variables
     | Some (Throw message) =>
         te_error e = Some message /\ te_output e = []
         /\ snd (executeStep h variables m) = variables
     end.
Proof.
  intros argument e. subst e. unfold executeStep. fold argument.
  destruct (dispatchTool h (map lowerAscii (trim (sm_toolNameRaw m))) argument)
    as [[out|message]|]; repeat split; reflexivity.
Qed.



Lemma searchLoop_stopped (h : Host) (sp : SearchParams) (fuel : nat)
    (st : SearchState) :
  searchContinues st = false -> searchLoop h sp fuel st = st.
Proof. intros Hstop. destruct fuel; cbn; [|rewrite Hstop]; reflexivity. Qed.

Lemma searchRun_first (h : Host) (sp : SearchParams) (start : list N) :
  searchRun h sp start
  = searchLoop h sp (weightOutside h ∅ (fs_dirs h))
      (searchIteration h sp (searchStart start)).
Proof. reflexivity. Qed.

(** A start path that cannot be inspected, listed or read ends the traversal
    after one pass, without a result. *)
Lemma searchRun_start_failure (h : Host) (sp : SearchParams) (start : list N) :
  match fs_stat h start with
  | Throw _ => True
  | Ok stat =>
      if isDirectory stat
      then exists message, fs_readdir h start = Throw message
      else exists message, fs_readFile h start = Throw message
  end ->
  results (searchRun h sp start) = [].
Proof.
  intros Hfail. rewrite searchRun_first.
  assert (Hiter : queue (searchIteration h sp (searchStart start)) = []
                  /\ results (searchIteration h sp (searchStart start)) = []).
  { unfold searchIteration, searchStart. cbn [queue visited results].
    rewrite bool_decide_eq_false_2 by apply not_elem_of_empty.
    destruct (fs_stat h start) as [stat|message]; [|split; reflexivity].
    destruct (isDirectory stat).
    - destruct Hfail as [message ->]. split; reflexivity.
    - destruct Hfail as [message ->].
      destruct (isFile stat); [|split; reflexivity].
      destruct (maxFileSize <? size stat)%N; split; reflexivity. }
  destruct Hiter as [Hqueue Hresults].
  rewrite searchLoop_stopped; [exact Hresults|].
  unfold searchContinues. rewrite Hqueue. reflexivity.
Qed.

(** Once the resolver has answered, [searchText] returns the sentinel or the
    result lines of its traversal, whatever the file system does. *)
Lemma searchText_resolved (h : Host) (argument pattern resolved : list N)
    (rawPath root : option (list N)) :
  splitSearchArgument argument = (pattern, rawPath) ->
  pattern <> [] ->
  resolveWorkspacePath h (searchPath rawPath) = Ok (Some resolved) ->
  resolved <> [] ->
  resolveWorkspacePath h (lit ".") = Ok root ->
  searchText h argument
  = match results
            (searchRun h
               {| sp_regex := RegExp_i h pattern;
                  sp_lowerPattern := toLowerCase h pattern;
                  sp_workspaceRoot := orElse root resolved |}
               resolved) with
    | [] => Ok (lit "No results from SearchText.")
    | found => Ok (truncateOutput (join newline found))
    end.
Proof.
  intros Hsplit Hpattern Hres Hne Hroot. unfold searchText. rewrite Hsplit.
  destruct pattern as [|c pattern]; [congruence|]. cbn [truthy negb].
  rewrite Hres. cbn [mbind outcome_bind].
  destruct resolved as [|d resolved]; [congruence|]. cbn [usable].
  rewrite Hroot. reflexivity.
Qed.

Lemma readFile_reports (h : Host) (argument : list N) :
  (resolveWorkspacePath h argument = Ok None ->
   readFile h argument = Ok (lit "Unable to resolve path for ReadFile."))
  /\ (forall resolved stats,
        resolveWorkspacePath h argument = Ok (Some resolved) ->
        resolved <> [] ->
        fs_stat h resolved = Ok stats ->
        isDirectory stats = true ->
        readFile h argument = Ok (lit "ReadFile error: target is a directory."))
  /\ (forall resolved message,
        resolveWorkspacePath h argument = Ok (Some resolved) ->
        resolved <> [] ->
        fs_stat h resolved = Throw message ->
        readFile h argument = Ok (lit "ReadFile error: " ++ message))
  /\ (forall message,
        resolveWorkspacePath h argument = Throw message ->
        readFile h argument = Throw message).
Proof.
  unfold readFile. repeat split.
  - intros ->. reflexivity.
  - intros resolved stats -> Hne Hstat Hdir.
    destruct resolved as [|c r]; [congruence|]. cbn.
    rewrite Hstat. cbn. rewrite Hdir. reflexivity.
  - intros resolved message -> Hne Hstat.
    destruct resolved as [|c r]; [congruence|]. cbn.
    rewrite Hstat. reflexivity.
  - intros message ->. reflexivity.
Qed.

Lemma listFiles_reports (h : Host) (argument : list N) :
  (resolveWorkspacePath h (orElse (Some argument) (lit ".")) = Ok None ->
   listFiles h argument
   = Ok (lit "Workspace folder is not available for ListFiles."))
  /\ (forall resolved message,
        resolveWorkspacePath h (orElse (Some argument) (lit "."))
        = Ok (Some resolved) ->
        resolved <> [] ->
        fs_readdirTyped h resolved = Throw message ->
        listFiles h argument = Ok (lit "ListFiles error: " ++ message)).
Proof.
  unfold listFiles. split.
  - intros ->. reflexivity.
  - intros resolved message -> Hne Hread.
    destruct resolved as [|c r]; [congruence|]. cbn.
    rewrite Hread. reflexivity.
Qed.

Lemma searchText_reports (h : Host) (argument : list N) :
  fst (splitSearchArgument argument) <> [] ->
  resolveWorkspacePath h (searchPath (snd (splitSearchArgument argument)))
  = Ok None ->
  searchText h argument
  = Ok (lit "Unable to resolve search path inside the workspace.").
Proof.
  unfold searchText.
  destruct (splitSearchArgument argument) as [pattern rawPath]. cbn [fst snd].
  intros Hne ->. destruct pattern; [congruence|]. reflexivity.
Qed.

(** C5, as the code has it.  Every match of the step pattern yields one
    execution record, whatever happened to the steps before it.  A name
    outside the three tools is recorded as the error [Unsupported tool: name]
    with an empty output; a tool that throws is recorded with the thrown
    message as error; a tool that returns is recorded with what it returned
    as output and no error.  The tools do not throw on a missing workspace
    root, on a directory handed to [readFile] or on a failing [fs] call.
    For a missing root, for a directory and for a failing [fs] call in
    [readFile] or [listFiles] they return a text that says so, which the
    runner records as output.  A failing [fs] call in [searchText] is not
    described at all: once the resolver has answered, [searchText] returns
    the sentinel [No results from SearchText.] or result lines taken from
    files it could read, and a start path that cannot be inspected, listed
    or read gives the sentinel. *)
Theorem step_failures_are_recorded (h : Host) (session : PlanSession) :
  let steps := planMatches (default [] (planMarkdown session)) in
  let run := executePlanTools h session in
  length (rs_executions run) = length steps
  /\ (forall i m,
        steps !! i = Some m ->
        let variables := stepVariables h ∅ (take i steps) in
        let argument := trim (resolveReferences variables (sm_rawArgument m)) in
        exists e,
          rs_executions run !! i = Some e
          /\ te_id e = referenceToken (sm_id m)
          /\ te_tool e = trim (sm_toolNameRaw m)
          /\ te_argument e = argument
          /\ match dispatchTool h (map lowerAscii (trim (sm_toolNameRaw m)))
                     argument with
             | None =>
                 te_error e = Some (lit "Unsupported tool: " ++ sm_toolNameRaw m)
                 /\ te_output e = []
             | Some (Ok out) => te_error e = None /\ te_output e = out
             | Some (Throw message) =>
                 te_error e = Some message /\ te_output e = []
             end)
  /\ (forall argument,
        (resolveWorkspacePath h argument = Ok None ->
         readFile h argument = Ok (lit "Unable to resolve path for ReadFile."))
        /\ (forall resolved stats,
              resolveWorkspacePath h argument = Ok (Some resolved) ->
              resolved <> [] ->
              fs_stat h resolved = Ok stats ->
              isDirectory stats = true ->
              readFile h argument
              = Ok (lit "ReadFile error: target is a directory."))
        /\ (forall resolved message,
              resolveWorkspacePath h argument = Ok (Some resolved) ->
              resolved <> [] ->
              fs_stat h resolved = Throw message ->
              readFile h argument = Ok (lit "ReadFile error: " ++ message))
        /\ (resolveWorkspacePath h (orElse (Some argument) (lit ".")) = Ok None ->
            listFiles h argument
            = Ok (lit "Workspace folder is not available for ListFiles."))
        /\ (forall resolved message,
              resolveWorkspacePath h (orElse (Some argument) (lit "."))
              = Ok (Some resolved) ->
              resolved <> [] ->
              fs_readdirTyped h resolved = Throw message ->
              listFiles h argument = Ok (lit "ListFiles error: " ++ message))
        /\ (fst (splitSearchArgument argument) <> [] ->
            resolveWorkspacePath h
              (searchPath (snd (splitSearchArgument argument))) = Ok None ->
            searchText h argument
            = Ok (lit "Unable to resolve search path inside the workspace."))
        /\ (forall resolved stats message,
              resolveWorkspacePath h argument = Ok (Some resolved) ->
              resolved <> [] ->
              fs_stat h resolved = Ok stats ->
              isDirectory stats = false ->
              fs_readFile h resolved = Throw message ->
              readFile h argument = Ok (lit "ReadFile error: " ++ message))
        /\ (forall pattern rawPath resolved root,
              splitSearchArgument argument = (pattern, rawPath) ->
              pattern <> [] ->
              resolveWorkspacePath h (searchPath rawPath) = Ok (Some resolved) ->
              resolved <> [] ->
              resolveWorkspacePath h (lit ".") = Ok root ->
              let sp :=
                {| sp_regex := RegExp_i h pattern;
                   sp_lowerPattern := toLowerCase h pattern;
                   sp_workspaceRoot := orElse root resolved |} in
              (searchText h argument = Ok (lit "No results from SearchText.")
               \/ exists found,
                    found <> []
                    /\ Forall (reportedFrom h sp
                                 (opened (searchRun h sp resolved))) found
                    /\ searchText h argument
                       = Ok (truncateOutput (join newline found)))
              /\ ((exists message, fs_stat h resolved = Throw message) ->
                  searchText h argument = Ok (lit "No results from SearchText."))
              /\ (forall stats message,
                    fs_stat h resolved = Ok stats ->
                    isDirectory stats = true ->
                    fs_readdir h resolved = Throw message ->
                    searchText h argument
                    = Ok (lit "No results from SearchText."))
              /\ (forall stats message,
                    fs_stat h resolved = Ok stats ->
                    isDirectory stats = false ->
                    fs_readFile h resolved = Throw message ->
                    searchText h argument
                    = Ok (lit "No results from SearchText.")))).
Proof.
  intros steps run. subst run. rewrite executePlanTools_executions. fold steps.
  split; [apply stepExecutions_length|]. split.
  - intros i m Hi variables argument.
    exists (fst (executeStep h variables m)).
    split; [apply stepExecutions_lookup, Hi|].
    destruct (executeStep_cases h variables m) as (Hid & Htool & Harg & Hcase).
    split; [exact Hid|]. split; [exact Htool|]. split; [exact Harg|].
    fold argument in Hcase.
    destruct (dispatchTool h (map lowerAscii (trim (sm_toolNameRaw m))) argument)
      as [[out|message]|]; destruct Hcase as (H1 & H2 & _); auto.
  - intros argument.
    destruct (readFile_reports h argument) as (H1 & H2 & H3 & _).
    destruct (listFiles_reports h argument) as (H4 & H5).
    pose proof (searchText_reports h argument) as H6.
    do 6 (split; [assumption|]). split.
    + intros resolved stats message Hres Hne Hstat Hdir Hread.
      unfold readFile. rewrite Hres. cbn [mbind outcome_bind].
      destruct resolved as [|c resolved]; [congruence|]. cbn [usable].
      rewrite Hstat. cbn [mbind outcome_bind tryCatch].
      rewrite Hdir, Hread. reflexivity.
    + intros pattern rawPath resolved root Hsplit Hpattern Hres Hne Hroot sp.
      pose proof (searchText_resolved h argument pattern resolved rawPath root
                    Hsplit Hpattern Hres Hne Hroot) as Hout.
      fold sp in Hout.
      assert (Hquiet : results (searchRun h sp resolved) = [] ->
                       searchText h argument
                       = Ok (lit "No results from SearchText."))
        by (intros Hnone; rewrite Hout, Hnone; reflexivity).
      split; [|split; [|split]].
      * pose proof (inv_reported _ _ _ _
                      (searchLoop_invariant h sp resolved
                         (searchPotential h (searchStart resolved)) _
                         (searchStart_invariant h sp resolved))) as Hrep.
        fold (searchRun h sp resolved) in Hrep.
        destruct (results (searchRun h sp resolved)) as [|r found] eqn:Hfound;
          [left; exact Hout|].
        right. exists (r :: found).
        split; [discriminate|]. split; [exact Hrep|exact Hout].
      * intros [message Hstat]. apply Hquiet, searchRun_start_failure.
        rewrite Hstat. exact I.
      * intros stats message Hstat Hdir Hlist.
        apply Hquiet, searchRun_start_failure.
        rewrite Hstat, Hdir. exists message. exact Hlist.
      * intros stats message Hstat Hdir Hread.
        apply Hquiet, searchRun_start_failure.
        rewrite Hstat, Hdir. exists message. exact Hread.
Qed.

Lemma step_failures_are_recorded_witness :
  (planMatches (default [] (planMarkdown (Demo.sessionWithPlan Demo.mixedPlan))) !! 1
   = Some {| sm_id := lit "1"; sm_toolNameRaw := lit "DeleteFile";
             sm_rawArgument := lit "tmp" |}
   /\ exists e,
        rs_executions (executePlanTools Demo.host
                         (Demo.sessionWithPlan Demo.mixedPlan)) !! 1 = Some e
        /\ te_id e = lit "#E1"
        /\ te_tool e = lit "DeleteFile"
        /\ te_argument e = lit "tmp"
        /\ te_error e = Some (lit "Unsupported tool: DeleteFile")
        /\ te_output e = [])
  /\ (fs_stat Demo.host (lit "/w/src")
      = Ok {| isDirectory := true; isFile := false; size := 4096 |}
      /\ readFile Demo.host (lit "src")
         = Ok (lit "ReadFile error: target is a directory."))
  /\ (fs_stat Demo.host (lit "/w/nowhere")
      = Throw (lit "ENOENT: no such file or directory")
      /\ searchText Demo.host (lit "plan | nowhere")
         = Ok (lit "No results from SearchText.")).
Proof.
  assert (Hstep :
            planMatches (default [] (planMarkdown
                                       (Demo.sessionWithPlan Demo.mixedPlan))) !! 1
            = Some {| sm_id := lit "1"; sm_toolNameRaw := lit "DeleteFile";
                      sm_rawArgument := lit "tmp" |})
    by (vm_compute; reflexivity).
  pose proof (step_failures_are_recorded Demo.host
                (Demo.sessionWithPlan Demo.mixedPlan)) as (_ & Hsteps & Htools).
  split; [|split].
  - split; [exact Hstep|].
    destruct (Hsteps 1 _ Hstep) as (e & He & Hid & Htool & Harg & Hcase).
    exists e. split; [exact He|].
    split; [exact Hid|]. split; [exact Htool|]. split; [exact Harg|].
    exact Hcase.
  - split; [reflexivity|].
    destruct (Htools (lit "src")) as (_ & Hdir & _).
    apply (Hdir (lit "/w/src")
             {| isDirectory := true; isFile := false; size := 4096 |});
      [reflexivity|discriminate|reflexivity|reflexivity].
  - split; [reflexivity|].
    destruct (Htools (lit "plan | nowhere"))
      as (_ & _ & _ & _ & _ & _ & _ & Hsearch).
    destruct (Hsearch (lit "plan") (Some (lit "nowhere")) (lit "/w/nowhere")
                (Some (lit "/w")))
      as (_ & Hmissing & _);
      [vm_compute; reflexivity|discriminate|reflexivity|discriminate
      |reflexivity|].
    apply Hmissing. exists (lit "ENOENT: no such file or directory").
    reflexivity.
Defined.

(** C5 as the specification words it fails for a directory handed to
    read-file: the step records no error; the failure text is its output. *)
Lemma directory_read_is_recorded_as_output :
  fs_stat Demo.host (lit "/w/src")
  = Ok {| isDirectory := true; isFile := false; size := 4096 |}
  /\ rs_executions (executePlanTools Demo.host
                      (Demo.sessionWithPlan Demo.readDirectory))
     = [{| te_id := lit "#E1"; te_tool := lit "ReadFile";
           te_argument := lit "src";
           te_output := lit "ReadFile error: target is a directory.";
           te_error := None |}].
Proof. vm_compute. split; reflexivity. Qed.

(** ** Reference resolution *)

Lemma span_app_stop (p : N -> bool) (x : list N) (c : N) (y : list N) :
  p c = false ->
  span p (x ++ c :: y) = (fst (span p x), snd (span p x) ++ c :: y).
Proof.
  intros Hc. induction x as [|d x IH]; cbn.
  - rewrite Hc. reflexivity.
  - destruct (p d); [|reflexivity].
    rewrite IH. destruct (span p x). reflexivity.
Qed.

Lemma span_all (p : N -> bool) (k b : list N) :
  Forall (fun c => p c = true) k ->
  match b with [] => True | c :: _ => p c = false end ->
  span p (k ++ b) = (k, b).
Proof.
  intros Hk Hb. induction Hk as [|c k Hc _ IH]; cbn.
  - destruct b as [|c b]; [reflexivity|]. cbn. rewrite Hb. reflexivity.
  - rewrite Hc, IH. reflexivity.
Qed.

Lemma span_length (p : N -> bool) (s : list N) :
  length (fst (span p s)) + length (snd (span p s)) = length s.
Proof.
  induction s as [|c s IH]; cbn; [reflexivity|].
  destruct (p c); [|reflexivity].
  destruct (span p s). cbn in *. lia.
Qed.

Lemma stripPrefix_Some (pat s r : list N) :
  stripPrefix pat s = Some r <-> s = pat ++ r.
Proof.
  revert s. induction pat as [|a pat IH]; intros s; cbn.
  - split; [intros [= ->]; reflexivity|intros ->; reflexivity].
  - destruct s as [|c s]; [split; discriminate|].
    unfold eqc. destruct (N.eqb_spec a c) as [->|Hne].
    + rewrite IH. split; [intros ->; reflexivity|intros [= ->]; reflexivity].
    + split; [discriminate|intros [= H1 H2]; congruence].
Qed.










(** ** Step lines *)

Lemma assemble_cons (c : N) (l0 : list N) (more : list (N * list N)) :
  assemble (c :: l0) more = c :: assemble l0 more.
Proof. destruct more as [|[t l1] more]; reflexivity. Qed.

Lemma assemble_segments (s : list N) :
  assemble (fst (segments s)) (snd (segments s)) = s.
Proof.
  induction s as [|c s IH]; [reflexivity|]. cbn.
  destruct (segments s) as [l0 more]. cbn in IH.
  destruct (isLineTerminator c); cbn [fst snd].
  - cbn. rewrite IH. reflexivity.
  - rewrite assemble_cons, IH. reflexivity.
Qed.

Lemma textLines_segments (s : list N) :
  textLines s = fst (segments s) :: map snd (snd (segments s)).
Proof.
  induction s as [|c s IH]; [reflexivity|]. cbn.
  destruct (segments s) as [l0 more]. cbn in IH. rewrite IH.
  destruct (isLineTerminator c); reflexivity.
Qed.

Lemma segments_lines (s : list N) :
  oneLine (fst (segments s))
  /\ Forall (fun seg => isLineTerminator (fst seg) = true /\ oneLine (snd seg))
        (snd (segments s)).
Proof.
  induction s as [|c s [IH1 IH2]]; [split; constructor|]. cbn.
  destruct (segments s) as [l0 more]. cbn in IH1, IH2.
  destruct (isLineTerminator c) eqn:Hc; cbn.
  - split; [constructor|]. constructor; [split; assumption|exact IH2].
  - split; [constructor; assumption|exact IH2].
Qed.

Lemma isSpace_terminator (c : N) : isLineTerminator c = true -> isSpace c = true.
Proof.
  unfold isLineTerminator, isSpace, eqc, inRange. intros H.
  repeat (apply orb_prop in H as [H|H]); apply N.eqb_eq in H; subst; reflexivity.
Qed.

Lemma span_app_rest (p : N -> bool) (x r : list N) :
  match r with [] => True | t :: _ => p t = false end ->
  span p (x ++ r) = (fst (span p x), snd (span p x) ++ r).
Proof.
  intros Hr. destruct r as [|t r].
  - rewrite !app_nil_r. destruct (span p x). reflexivity.
  - apply span_app_stop, Hr.
Qed.

Lemma span_app_nonempty (p : N -> bool) (x y : list N) :
  snd (span p x) <> [] ->
  span p (x ++ y) = (fst (span p x), snd (span p x) ++ y).
Proof.
  induction x as [|c x IH]; cbn; [congruence|].
  destruct (p c); [|reflexivity].
  destruct (span p x) as [a b] eqn:Hspan. cbn in *. intros Hne.
  rewrite (IH Hne). reflexivity.
Qed.

Lemma span_app_all (p : N -> bool) (x y : list N) :
  snd (span p x) = [] ->
  span p (x ++ y) = (x ++ fst (span p y), snd (span p y)).
Proof.
  induction x as [|c x IH]; cbn.
  - destruct (span p y). reflexivity.
  - destruct (p c); [|discriminate].
    destruct (span p x) as [a b] eqn:Hspan. cbn in *. intros Hnil.
    rewrite (IH Hnil). reflexivity.
Qed.

Lemma span_fst_all (p : N -> bool) (x : list N) :
  snd (span p x) = [] -> fst (span p x) = x.
Proof.
  induction x as [|c x IH]; cbn; [reflexivity|].
  destruct (p c); [|discriminate].
  destruct (span p x) as [a b]. cbn in *. intros Hnil. rewrite (IH Hnil).
  reflexivity.
Qed.

Lemma span_fst_Forall (p : N -> bool) (x : list N) :
  Forall (fun c => p c = true) (fst (span p x)).
Proof.
  induction x as [|c x IH]; cbn; [constructor|].
  destruct (p c) eqn:Hc; [|constructor].
  destruct (span p x) as [a b]. cbn in *. constructor; assumption.
Qed.

Lemma span_Forall (P : N -> Prop) (p : N -> bool) (x : list N) :
  Forall P x -> Forall P (fst (span p x)) /\ Forall P (snd (span p x)).
Proof.
  induction 1 as [|c x Hc Hx [IH1 IH2]]; cbn; [split; constructor|].
  destruct (p c); [|split; [constructor|constructor; assumption]].
  destruct (span p x) as [a b]. cbn in *. split; [constructor|]; assumption.
Qed.

Lemma stripPrefix_app_rest (pat x r : list N) :
  oneLine pat -> lineEnd r ->
  stripPrefix pat (x ++ r) = (fun rest => rest ++ r) <$> stripPrefix pat x.
Proof.
  intros Hpat Hr. revert x.
  induction Hpat as [|a pat Ha _ IH]; intros x; [reflexivity|].
  destruct x as [|c x]; cbn.
  - destruct r as [|t r]; [reflexivity|]. cbn in Hr. unfold eqc.
    destruct (N.eqb_spec a t) as [->|_]; [congruence|reflexivity].
  - destruct (eqc a c); [apply IH|reflexivity].
Qed.

Lemma lastTerminator_oneLine (ws : list N) :
  oneLine ws -> lastTerminator ws = None.
Proof.
  induction 1 as [|c ws Hc _ IH]; cbn; [reflexivity|].
  rewrite IH, Hc. reflexivity.
Qed.

Lemma lastTerminator_app (x w : list N) :
  oneLine x ->
  lastTerminator (x ++ w) = (fun q => length x + q) <$> lastTerminator w.
Proof.
  induction 1 as [|c x Hc _ IH]; cbn.
  - destruct (lastTerminator w); reflexivity.
  - rewrite IH. destruct (lastTerminator w); cbn; [reflexivity|].
    rewrite Hc. reflexivity.
Qed.

Lemma lastTerminator_bound (ws : list N) (q : nat) :
  lastTerminator ws = Some q -> q < length ws.
Proof.
  revert q. induction ws as [|c ws IH]; intros q; cbn; [discriminate|].
  destruct (lastTerminator ws) as [q'|].
  - intros [= <-]. specialize (IH q' eq_refl). lia.
  - destruct (isLineTerminator c); [intros [= <-]; lia|discriminate].
Qed.

(** After a line, [\s*$] always finds its place, within the white space. *)
Lemma trailingSpace_lineEnd (r : list N) :
  lineEnd r ->
  exists k, trailingSpace r = Some k /\ k <= length (fst (span isSpace r)).
Proof.
  intros Hr. unfold trailingSpace.
  destruct (span isSpace r) as [ws rest] eqn:Hspan. cbn.
  destruct rest as [|d rest]; [exists (length ws); auto|].
  destruct r as [|t r]; [cbn in Hspan; congruence|].
  cbn in Hr, Hspan. rewrite (isSpace_terminator t Hr) in Hspan.
  destruct (span isSpace r) as [ws' rest']. injection Hspan as Hws Hrest.
  subst ws. cbn. destruct (lastTerminator ws') as [q|] eqn:Hq.
  - exists (S q). split; [reflexivity|].
    apply lastTerminator_bound in Hq. cbn. lia.
  - rewrite Hr. exists 0. split; [reflexivity|lia].
Qed.

Lemma trailingSpace_rest (x r : list N) :
  oneLine x -> lineEnd r ->
  trailingSpace (x ++ r) = (fun n => n + beyond r) <$> trailingSpace x.
Proof.
  intros Hx Hr. destruct (trailingSpace_lineEnd r Hr) as (k & Hk & _).
  unfold beyond. rewrite Hk. cbn [default].
  unfold trailingSpace in *.
  destruct (span isSpace x) as [ws rest] eqn:Hspan.
  pose proof (span_Forall _ isSpace x Hx) as [Hws _]. rewrite Hspan in Hws.
  cbn in Hws. destruct rest as [|d rest].
  - rewrite span_app_all by (rewrite Hspan; reflexivity).
    pose proof (span_fst_all isSpace x) as Hall. rewrite Hspan in Hall.
    cbn in Hall. rewrite <- (Hall eq_refl).
    destruct (span isSpace r) as [wsr restr]. cbn.
    destruct restr as [|e restr].
    + injection Hk as <-. rewrite length_app. reflexivity.
    + rewrite lastTerminator_app by exact Hws. rewrite Hk. reflexivity.
  - rewrite span_app_nonempty by (rewrite Hspan; discriminate).
    rewrite Hspan. cbn. rewrite lastTerminator_oneLine by exact Hws.
    reflexivity.
Qed.

Lemma terminator_cases (t : N) :
  isLineTerminator t = true ->
  t = 10%N \/ t = 13%N \/ t = 8232%N \/ t = 8233%N.
Proof.
  unfold isLineTerminator, eqc. intros H.
  repeat (apply orb_prop in H as [H|H]); apply N.eqb_eq in H; auto.
Qed.

Lemma closingBracket_rest (line r : list N) :
  oneLine line -> lineEnd r ->
  closingBracket line r
  = (fun found => (fst found, snd found + beyond r)) <$> closingBracket line [].
Proof.
  intros Hline Hr. induction Hline as [|c line Hc Hline IH]; [reflexivity|].
  cbn. rewrite IH. destruct (closingBracket line []) as [[arg n]|]; [reflexivity|].
  cbn. destruct (eqc c 93); [|reflexivity].
  rewrite app_nil_r, trailingSpace_rest by assumption.
  destruct (trailingSpace line); reflexivity.
Qed.

Lemma trailingSpace_oneLine (x : list N) (n : nat) :
  oneLine x -> trailingSpace x = Some n -> n = length x.
Proof.
  intros Hx. unfold trailingSpace.
  pose proof (span_Forall _ isSpace x Hx) as [Hws _].
  pose proof (span_fst_all isSpace x) as Hall.
  destruct (span isSpace x) as [ws rest]. cbn in *.
  destruct rest as [|d rest].
  - intros [= <-]. rewrite (Hall eq_refl). reflexivity.
  - rewrite lastTerminator_oneLine by exact Hws. discriminate.
Qed.

Lemma closingBracket_length (line arg : list N) (n : nat) :
  oneLine line ->
  closingBracket line [] = Some (arg, n) ->
  length arg + 1 + n = length line.
Proof.
  intros Hline. revert arg n.
  induction Hline as [|c line Hc Hline IH]; intros arg n; [discriminate|].
  cbn. destruct (closingBracket line []) as [[arg' n']|].
  - intros [= <- <-]. specialize (IH arg' n' eq_refl). cbn. lia.
  - destruct (eqc c 93); [|discriminate]. rewrite app_nil_r.
    destruct (trailingSpace line) as [k|] eqn:Hk; [|discriminate].
    intros [= <- <-]. apply trailingSpace_oneLine in Hk; [|exact Hline].
    cbn. lia.
Qed.

(** [matchStep], with the parts of its input named by projections. *)
Lemma matchStep_unfold (s : list N) :
  matchStep s
  = match stripPrefix (lit "#E") s with
    | None => None
    | Some s1 =>
        let id := fst (span isDigit s1) in
        let s2 := snd (span isDigit s1) in
        let ws1 := fst (span isSpace s2) in
        let s3 := snd (span isSpace s2) in
        if bool_decide (id = []) then None
        else
          match stripPrefix (lit "=") s3 with
          | None => None
          | Some s4 =>
              let ws2 := fst (span isSpace s4) in
              let s5 := snd (span isSpace s4) in
              let name := fst (span isWordChar s5) in
              let s6 := snd (span isWordChar s5) in
              if bool_decide (name = []) then None
              else
                match stripPrefix (lit "[") s6 with
                | None => None
                | Some s7 =>
                    match closingBracket
                            (fst (span (fun c => negb (isLineTerminator c)) s7))
                            (snd (span (fun c => negb (isLineTerminator c)) s7))
                    with
                    | None => None
                    | Some (arg, n) =>
                        Some ({| sm_id := id; sm_toolNameRaw := name;
                                 sm_rawArgument := arg |},
                              2 + length id + length ws1 + 1 + length ws2
                              + length name + 1 + length arg + 1 + n)
                    end
                end
          end
    end.
Proof.
  unfold matchStep. cbv zeta.
  destruct (stripPrefix (lit "#E") s) as [s1|]; [|reflexivity].
  cbn [mbind option_bind].
  destruct (span isDigit s1) as [id s2]. cbn [fst snd].
  destruct (span isSpace s2) as [ws1 s3]. cbn [fst snd].
  destruct (bool_decide (id = [])); [reflexivity|].
  destruct (stripPrefix (lit "=") s3) as [s4|]; [|reflexivity].
  cbn [mbind option_bind].
  destruct (span isSpace s4) as [ws2 s5]. cbn [fst snd].
  destruct (span isWordChar s5) as [name s6]. cbn [fst snd].
  destruct (bool_decide (name = [])); [reflexivity|].
  destruct (stripPrefix (lit "[") s6) as [s7|]; [|reflexivity].
  cbn [mbind option_bind].
  destruct (span (fun c => negb (isLineTerminator c)) s7) as [line after].
  cbn [fst snd].
  destruct (closingBracket line after) as [[arg n]|]; reflexivity.
Qed.

Lemma danglingHeader_false (line s1 : list N) :
  danglingHeader line = false ->
  stripPrefix (lit "#E") line = Some s1 ->
  fst (span isDigit s1) <> [] ->
  snd (span isSpace (snd (span isDigit s1))) <> []
  /\ forall s4,
       stripPrefix (lit "=") (snd (span isSpace (snd (span isDigit s1)))) = Some s4 ->
       snd (span isSpace s4) <> [].
Proof.
  unfold danglingHeader. intros Hd H1 Hid. rewrite H1 in Hd. revert Hd Hid.
  destruct (span isDigit s1) as [id s2]. cbn [fst snd].
  destruct (span isSpace s2) as [ws1 s3]. cbn [fst snd].
  intros Hd Hid. rewrite bool_decide_eq_false_2 in Hd by exact Hid.
  case_bool_decide as Hs3; [discriminate|].
  split; [exact Hs3|]. intros s4 Hs4. rewrite Hs4 in Hd.
  apply bool_decide_eq_false in Hd. exact Hd.
Qed.

Lemma oneLine_stripPrefix (pat x rest : list N) :
  oneLine x -> stripPrefix pat x = Some rest -> oneLine rest.
Proof.
  intros Hx Hrest. apply stripPrefix_Some in Hrest as ->.
  apply Forall_app in Hx as [_ Hx]. exact Hx.
Qed.

Lemma span_oneLine (x r : list N) :
  oneLine x -> lineEnd r ->
  span (fun c => negb (isLineTerminator c)) (x ++ r) = (x, r).
Proof.
  intros Hx Hr. apply span_all.
  - eapply Forall_impl; [exact Hx|]. intros c Hc. cbn. rewrite Hc. reflexivity.
  - destruct r as [|t r]; [exact I|]. cbn in Hr. rewrite Hr. reflexivity.
Qed.

Lemma lineEnd_not (p : N -> bool) (r : list N) :
  (forall t, isLineTerminator t = true -> p t = false) ->
  lineEnd r ->
  match r with [] => True | t :: _ => p t = false end.
Proof. intros Hp Hr. destruct r as [|t r]; [exact I|]. apply Hp, Hr. Qed.

Lemma isDigit_terminator (t : N) : isLineTerminator t = true -> isDigit t = false.
Proof.
  intros H. destruct (terminator_cases t H) as [->|[->|[->| ->]]]; reflexivity.
Qed.

Lemma isWordChar_terminator (t : N) :
  isLineTerminator t = true -> isWordChar t = false.
Proof.
  intros H. destruct (terminator_cases t H) as [->|[->|[->| ->]]]; reflexivity.
Qed.

(** A line that is no dangling header matches alone exactly when it matches
    inside the text, with the same captures; inside the text the match may
    run on over white space after the line. *)
Lemma matchStep_line (l r : list N) :
  oneLine l -> danglingHeader l = false -> lineEnd r ->
  matchStep (l ++ r)
  = (fun found => (fst found, snd found + beyond r)) <$> matchStep l.
Proof.
  intros Hl Hd Hr. rewrite !matchStep_unfold.
  rewrite stripPrefix_app_rest; [|repeat constructor|exact Hr].
  destruct (stripPrefix (lit "#E") l) as [s1|] eqn:H1; [|reflexivity].
  cbn [fmap option_fmap option_map].
  pose proof (oneLine_stripPrefix _ _ _ Hl H1) as Hs1.
  rewrite (span_app_rest isDigit s1 r)
    by (apply lineEnd_not; [exact isDigit_terminator|exact Hr]).
  cbn [fst snd]. cbv zeta.
  case_bool_decide as Hid; [reflexivity|].
  destruct (danglingHeader_false l s1 Hd H1 Hid) as [Hs3 Hs5].
  pose proof (span_Forall _ isDigit s1 Hs1) as [_ Hs2].
  rewrite (span_app_nonempty isSpace _ r Hs3). cbn [fst snd].
  pose proof (span_Forall _ isSpace _ Hs2) as [_ Hs3'].
  rewrite stripPrefix_app_rest; [|repeat constructor|exact Hr].
  destruct (stripPrefix (lit "=") (snd (span isSpace (snd (span isDigit s1)))))
    as [s4|] eqn:H4; [|reflexivity].
  cbn [fmap option_fmap option_map].
  pose proof (oneLine_stripPrefix _ _ _ Hs3' H4) as Hs4.
  rewrite (span_app_nonempty isSpace s4 r (Hs5 s4 eq_refl)). cbn [fst snd].
  pose proof (span_Forall _ isSpace s4 Hs4) as [_ Hs5'].
  rewrite (span_app_rest isWordChar _ r)
    by (apply lineEnd_not; [exact isWordChar_terminator|exact Hr]).
  cbn [fst snd].
  case_bool_decide as Hname; [reflexivity|].
  pose proof (span_Forall _ isWordChar _ Hs5') as [_ Hs6].
  rewrite stripPrefix_app_rest; [|repeat constructor|exact Hr].
  destruct (stripPrefix (lit "[")
              (snd (span isWordChar (snd (span isSpace s4)))))
    as [s7|] eqn:H7; [|reflexivity].
  cbn [fmap option_fmap option_map].
  pose proof (oneLine_stripPrefix _ _ _ Hs6 H7) as Hs7.
  rewrite (span_oneLine s7 r Hs7 Hr).
  pose proof (span_oneLine s7 [] Hs7 I) as Hwhole. rewrite app_nil_r in Hwhole.
  rewrite Hwhole. cbn [fst snd].
  rewrite (closingBracket_rest s7 r Hs7 Hr).
  destruct (closingBracket s7 []) as [[arg n]|]; [|reflexivity].
  cbn. f_equal. f_equal. lia.
Qed.

(** A match of a line alone covers the whole line. *)
Lemma matchStep_whole (l : list N) (m : StepMatch) (n : nat) :
  oneLine l -> matchStep l = Some (m, n) -> n = length l.
Proof.
  intros Hl. rewrite matchStep_unfold.
  destruct (stripPrefix (lit "#E") l) as [s1|] eqn:H1; [|discriminate].
  pose proof (oneLine_stripPrefix _ _ _ Hl H1) as Hs1.
  apply stripPrefix_Some in H1. cbv zeta.
  pose proof (span_length isDigit s1) as L1.
  pose proof (span_Forall _ isDigit s1 Hs1) as [_ Hs2].
  pose proof (span_length isSpace (snd (span isDigit s1))) as L2.
  pose proof (span_Forall _ isSpace _ Hs2) as [_ Hs3].
  case_bool_decide; [discriminate|].
  destruct (stripPrefix (lit "=") (snd (span isSpace (snd (span isDigit s1)))))
    as [s4|] eqn:H4; [|discriminate].
  pose proof (oneLine_stripPrefix _ _ _ Hs3 H4) as Hs4.
  apply stripPrefix_Some in H4.
  pose proof (span_length isSpace s4) as L4.
  pose proof (span_Forall _ isSpace s4 Hs4) as [_ Hs5].
  pose proof (span_length isWordChar (snd (span isSpace s4))) as L5.
  pose proof (span_Forall _ isWordChar _ Hs5) as [_ Hs6].
  case_bool_decide; [discriminate|].
  destruct (stripPrefix (lit "[")
              (snd (span isWordChar (snd (span isSpace s4)))))
    as [s7|] eqn:H7; [|discriminate].
  pose proof (oneLine_stripPrefix _ _ _ Hs6 H7) as Hs7.
  apply stripPrefix_Some in H7.
  pose proof (span_oneLine s7 [] Hs7 I) as Hwhole. rewrite app_nil_r in Hwhole.
  rewrite Hwhole. cbn [fst snd].
  destruct (closingBracket s7 []) as [[arg k]|] eqn:Hclose; [|discriminate].
  apply closingBracket_length in Hclose; [|exact Hs7].
  intros [= _ <-]. subst l.
  rewrite H4, H7 in *. rewrite !length_app in *.
  change (length (lit "#E")) with 2. change (length (lit "=")) with 1 in *.
  change (length (lit "[")) with 1 in *. lia.
Qed.

Lemma matchStep_space (c : N) (s : list N) :
  isSpace c = true -> matchStep (c :: s) = None.
Proof.
  intros Hc. unfold matchStep.
  assert (Hstrip : stripPrefix (lit "#E") (c :: s) = None).
  { change (lit "#E") with [35%N; 69%N]. cbn [stripPrefix]. unfold eqc.
    destruct (N.eqb_spec 35 c) as [<-|_]; [discriminate|reflexivity]. }
  rewrite Hstrip. reflexivity.
Qed.

Lemma lineStep_matchStep (l : list N) :
  oneLine l -> lineStep l = fst <$> matchStep l.
Proof.
  intros Hl. unfold lineStep.
  destruct (matchStep l) as [[m n]|] eqn:Hm; [|reflexivity].
  rewrite (matchStep_whole l m n Hl Hm), Nat.eqb_refl. reflexivity.
Qed.

(** Inside a line, past its start, nothing matches. *)
Lemma scan_plain (x r : list N) :
  oneLine x ->
  planMatchesFrom 0 false (x ++ r) = planMatchesFrom 0 false r.
Proof.
  induction 1 as [|c x Hc _ IH]; [reflexivity|].
  cbn. rewrite Hc. exact IH.
Qed.

(** Passing over the rest of a match. *)
Lemma scan_skip (x r : list N) :
  forall k b, exists b',
    planMatchesFrom (length x + k) b (x ++ r) = planMatchesFrom k b' r.
Proof.
  induction x as [|c x IH]; intros k b; [exists b; reflexivity|].
  cbn. apply IH.
Qed.

(** Passing over white space or scanning it gives the same. *)
Lemma scan_space (r : list N) :
  forall k b,
    k <= length (fst (span isSpace r)) ->
    planMatchesFrom k b r = planMatchesFrom 0 b r.
Proof.
  induction r as [|c r IH]; intros k b Hk; [destruct k; reflexivity|].
  destruct k as [|k]; [reflexivity|].
  cbn in Hk. destruct (isSpace c) eqn:Hc; [|cbn in Hk; lia].
  destruct (span isSpace r) as [ws rest] eqn:Hspan. cbn in Hk.
  cbn [planMatchesFrom]. rewrite (matchStep_space c r Hc).
  destruct b; apply IH; cbn; lia.
Qed.

Lemma scan_flag (r : list N) (b b' : bool) :
  lineEnd r -> planMatchesFrom 0 b r = planMatchesFrom 0 b' r.
Proof.
  destruct r as [|t r]; [reflexivity|]. cbn [lineEnd]. intros Ht.
  cbn [planMatchesFrom]. rewrite (matchStep_space t r (isSpace_terminator t Ht)).
  destruct b, b'; reflexivity.
Qed.

(** The scan of one line, when the line starts where [^] holds. *)
Lemma scan_line (l r : list N) (b : bool) :
  oneLine l -> danglingHeader l = false -> lineEnd r ->
  planMatchesFrom 0 true (l ++ r)
  = match lineStep l with Some m => [m] | None => [] end
    ++ planMatchesFrom 0 b r.
Proof.
  intros Hl Hd Hr. rewrite (lineStep_matchStep l Hl).
  pose proof (matchStep_line l r Hl Hd Hr) as Hin.
  destruct l as [|c x].
  - cbn. apply scan_flag, Hr.
  - change ((c :: x) ++ r) with (c :: (x ++ r)) in *.
    cbn [planMatchesFrom]. rewrite Hin.
    apply Forall_cons in Hl as [Hc Hx].
    destruct (matchStep (c :: x)) as [[m n]|] eqn:Hm; cbn.
    + f_equal.
      assert (Hn : n = S (length x))
        by (apply (matchStep_whole (c :: x) m n);
            [constructor; assumption|exact Hm]).
      subst n. replace (S (length x) + beyond r - 1) with (length x + beyond r)
        by lia.
      destruct (scan_skip x r (beyond r) (isLineTerminator c)) as [b' ->].
      destruct (trailingSpace_lineEnd r Hr) as (k & Hk & Hle).
      unfold beyond. rewrite Hk. cbn [default].
      rewrite scan_space by exact Hle. apply scan_flag, Hr.
    + rewrite Hc, scan_plain by exact Hx. apply scan_flag, Hr.
Qed.

Lemma planMatches_assemble (more : list (N * list N)) :
  forall l0,
    oneLine l0 ->
    Forall (fun seg => isLineTerminator (fst seg) = true /\ oneLine (snd seg))
      more ->
    Forall (fun line => danglingHeader line = false) (l0 :: map snd more) ->
    planMatchesFrom 0 true (assemble l0 more)
    = omap lineStep (l0 :: map snd more).
Proof.
  induction more as [|[t l1] more IH]; intros l0 Hl0 Hmore Hd;
    apply Forall_cons in Hd as [Hd0 Hd].
  - cbn [assemble map omap]. rewrite <- (app_nil_r l0) at 1.
    rewrite (scan_line l0 [] true Hl0 Hd0 I). cbn.
    destruct (lineStep l0); reflexivity.
  - apply Forall_cons in Hmore as [[Ht Hl1] Hmore]. cbn in Ht, Hl1.
    cbn [assemble].
    rewrite (scan_line l0 (t :: assemble l1 more) true Hl0 Hd0 Ht).
    cbn [planMatchesFrom]. rewrite (matchStep_space t _ (isSpace_terminator t Ht)).
    rewrite Ht. rewrite (IH l1 Hl1 Hmore Hd).
    change (map snd ((t, l1) :: more)) with (l1 :: map snd more).
    cbn [omap list_omap]. destruct (lineStep l0); reflexivity.
Qed.

(** Where no line is a dangling header, the matches of the step pattern in
    the text are the lines that match it, in their order. *)
Lemma planMatches_stepLines (plan : list N) :
  Forall (fun line => danglingHeader line = false) (textLines plan) ->
  planMatches plan = stepLines plan.
Proof.
  intros Hd. unfold planMatches, stepLines.
  rewrite textLines_segments in *.
  rewrite <- (assemble_segments plan) at 1.
  destruct (segments_lines plan) as [Hl0 Hmore].
  apply planMatches_assemble; assumption.
Qed.

Lemma stepExecutions_ids (h : Host) (steps : list StepMatch) :
  forall variables,
    map (fun e => (te_id e, te_tool e)) (stepExecutions h variables steps)
    = map (fun m => (referenceToken (sm_id m), trim (sm_toolNameRaw m))) steps.
Proof.
  induction steps as [|m steps IH]; intros variables; cbn; [reflexivity|].
  rewrite IH.
  destruct (executeStep_cases h variables m) as (-> & -> & _). reflexivity.
Qed.

(** C2, as the code has it.  The execution records of one pass correspond one
    to one, in order, with the successive matches of the step pattern in the
    plan text, whatever the numbers of the steps: each record carries the id
    and the tool name of its match.  Where no line of the plan is a dangling
    header, a step cut before or right after its equals sign, the matches are
    exactly the lines that match the pattern, in textual order. *)
Theorem executions_follow_matches (h : Host) (session : PlanSession) :
  let plan := default [] (planMarkdown session) in
  let run := executePlanTools h session in
  map (fun e => (te_id e, te_tool e)) (rs_executions run)
  = map (fun m => (referenceToken (sm_id m), trim (sm_toolNameRaw m)))
      (planMatches plan)
  /\ (Forall (fun line => danglingHeader line = false) (textLines plan) ->
      planMatches plan = stepLines plan
      /\ map (fun e => (te_id e, te_tool e)) (rs_executions run)
         = map (fun m => (referenceToken (sm_id m), trim (sm_toolNameRaw m)))
             (stepLines plan)).
Proof.
  intros plan run.
  assert (Hids : map (fun e => (te_id e, te_tool e)) (rs_executions run)
                 = map (fun m => (referenceToken (sm_id m),
                                  trim (sm_toolNameRaw m)))
                     (planMatches plan)).
  { subst run. rewrite executePlanTools_executions. apply stepExecutions_ids. }
  split; [exact Hids|]. intros Hd.
  pose proof (planMatches_stepLines plan Hd) as Hlines.
  split; [exact Hlines|]. rewrite <- Hlines. exact Hids.
Qed.

Lemma executions_follow_matches_witness :
  Forall (fun line => danglingHeader line = false)
    (textLines (default [] (planMarkdown (Demo.sessionWithPlan Demo.mixedPlan))))
  /\ stepLines Demo.mixedPlan = Demo.mixedSteps ++ [Demo.lastStep]
  /\ map (fun e => (te_id e, te_tool e))
       (rs_executions (executePlanTools Demo.host
                         (Demo.sessionWithPlan Demo.mixedPlan)))
     = map (fun m => (referenceToken (sm_id m), trim (sm_toolNameRaw m)))
         (stepLines Demo.mixedPlan).
Proof.
  assert (Hd : Forall (fun line => danglingHeader line = false)
                 (textLines (default [] (planMarkdown
                                           (Demo.sessionWithPlan Demo.mixedPlan)))))
    by (repeat constructor).
  split; [exact Hd|]. split; [vm_compute; reflexivity|].
  exact (proj2 (proj2 (executions_follow_matches Demo.host
                         (Demo.sessionWithPlan Demo.mixedPlan)) Hd)).
Defined.

(** C2 as the specification words it fails on a step whose header is cut
    before the equals sign: no line of the plan matches the pattern, yet the
    pattern matches across the line break and one step is executed. *)
Lemma step_spans_two_lines :
  textLines Demo.brokenHeader = [lit "#E1"; lit "= ListFiles[.]"]
  /\ stepLines Demo.brokenHeader = []
  /\ map (fun e => (te_id e, te_tool e, te_argument e))
       (rs_executions (executePlanTools Demo.host
                         (Demo.sessionWithPlan Demo.brokenHeader)))
     = [(lit "#E1", lit "ListFiles", lit ".")].
Proof. vm_compute. repeat split. Qed.

(** * Further properties of the engine *)

(** ** Trimming *)

Lemma trimStart_snoc (l : list N) (c : N) :
  isSpace c = false -> trimStart (l ++ [c]) = trimStart l ++ [c].
Proof.
  intros Hc. induction l as [|d l IH]; cbn; [rewrite Hc; reflexivity|].
  destruct (isSpace d); [exact IH|reflexivity].
Qed.

Lemma trimStart_head (s : list N) :
  match trimStart s with
  | [] => True
  | c :: _ => isSpace c = false
  end.
Proof.
  induction s as [|c s IH]; cbn; [exact I|].
  destruct (isSpace c) eqn:Hc; [exact IH|exact Hc].
Qed.

Lemma trimStart_fixed (s : list N) :
  match s with [] => True | c :: _ => isSpace c = false end ->
  trimStart s = s.
Proof. destruct s as [|c s]; cbn; [reflexivity|]. intros ->. reflexivity. Qed.

Lemma trimEnd_head (s : list N) :
  match s with [] => True | c :: _ => isSpace c = false end ->
  match trimEnd s with [] => s = [] | c :: _ => isSpace c = false end.
Proof.
  unfold trimEnd. destruct s as [|c s]; [reflexivity|]. intros Hc.
  cbn [rev]. change (rev s ++ [c]) with (rev s ++ [c]).
  rewrite (trimStart_snoc (rev s) c Hc), rev_app_distr. cbn. exact Hc.
Qed.

(** What [trim] returns has no white space at either end. *)
Lemma trim_ends (s : list N) :
  match trim s with [] => True | c :: _ => isSpace c = false end
  /\ match rev (trim s) with [] => True | c :: _ => isSpace c = false end.
Proof.
  unfold trim. split.
  - pose proof (trimEnd_head (trimStart s) (trimStart_head s)) as H.
    destruct (trimEnd (trimStart s)); [exact I|exact H].
  - unfold trimEnd. rewrite rev_involutive. apply trimStart_head.
Qed.

Lemma trim_fixed (s : list N) :
  match s with [] => True | c :: _ => isSpace c = false end ->
  match rev s with [] => True | c :: _ => isSpace c = false end ->
  trim s = s.
Proof.
  intros Hhead Hlast. unfold trim, trimEnd.
  rewrite (trimStart_fixed s Hhead), (trimStart_fixed (rev s) Hlast).
  apply rev_involutive.
Qed.

Lemma trim_idempotent (s : list N) : trim (trim s) = trim s.
Proof. destruct (trim_ends s) as [H1 H2]. apply trim_fixed; assumption. Qed.

(** ** Shape of the parsed steps and of the execution records *)

Lemma isWordChar_not_space (c : N) : isWordChar c = true -> isSpace c = false.
Proof.
  unfold isWordChar, isSpace, isDigit, inRange, eqc. intros H.
  destruct (_ || _)%bool eqn:E in |- *; [exfalso|reflexivity].
  rewrite ?orb_true_iff, ?andb_true_iff, ?N.leb_le, ?N.eqb_eq in *. lia.
Qed.

Lemma trim_word (name : list N) :
  Forall (fun c => isWordChar c = true) name -> trim name = name.
Proof.
  intros Hname. apply trim_fixed.
  - destruct Hname as [|c name Hc _]; [exact I|].
    apply isWordChar_not_space, Hc.
  - apply Forall_rev in Hname.
    destruct Hname as [|c name' Hc _]; [exact I|].
    apply isWordChar_not_space, Hc.
Qed.

Lemma closingBracket_prefix (line after arg : list N) (n : nat) :
  closingBracket line after = Some (arg, n) ->
  exists rest, line = arg ++ 93%N :: rest.
Proof.
  revert arg n. induction line as [|c line IH]; intros arg n; [discriminate|].
  cbn. destruct (closingBracket line after) as [[arg' n']|].
  - intros [= <- <-]. destruct (IH arg' n' eq_refl) as [rest ->].
    exists rest. reflexivity.
  - unfold eqc. destruct (N.eqb_spec c 93) as [->|_]; [|discriminate].
    destruct (trailingSpace (line ++ after)); [|discriminate].
    intros [= <- <-]. exists line. reflexivity.
Qed.

Lemma matchStep_wellFormed (s : list N) (m : StepMatch) (n : nat) :
  matchStep s = Some (m, n) -> wellFormedStep m.
Proof.
  rewrite matchStep_unfold.
  destruct (stripPrefix (lit "#E") s) as [s1|]; [|discriminate]. cbv zeta.
  case_bool_decide as Hid; [discriminate|].
  destruct (stripPrefix (lit "=") _) as [s4|]; [|discriminate].
  case_bool_decide as Hname; [discriminate|].
  destruct (stripPrefix (lit "[") _) as [s7|]; [|discriminate].
  destruct (closingBracket _ _) as [[arg k]|] eqn:Hclose; [|discriminate].
  intros [= <- _]. cbn.
  apply closingBracket_prefix in Hclose as [rest Hline].
  pose proof (span_fst_Forall (fun c => negb (isLineTerminator c)) s7) as Hone.
  rewrite Hline in Hone. apply Forall_app in Hone as [Hone _].
  repeat split; try assumption; try apply span_fst_Forall.
  eapply Forall_impl; [exact Hone|]. intros c Hc. cbn in Hc.
  destruct (isLineTerminator c); [discriminate|reflexivity].
Qed.

Lemma planMatchesFrom_wellFormed (s : list N) :
  forall skip atLineStart,
    Forall wellFormedStep (planMatchesFrom skip atLineStart s).
Proof.
  induction s as [|c s IH]; intros skip atLineStart; cbn; [constructor|].
  destruct skip as [|k]; [|apply IH].
  destruct (if atLineStart then matchStep (c :: s) else None)
    as [[m n]|] eqn:Hm; [|apply IH].
  constructor; [|apply IH].
  destruct atLineStart; [|discriminate].
  exact (matchStep_wellFormed _ m n Hm).
Qed.

Lemma stepExecutions_elem (h : Host) (steps : list StepMatch)
    (e : PlanToolExecution) :
  forall variables,
    e ∈ stepExecutions h variables steps ->
    exists m variables',
      m ∈ steps /\ e = fst (executeStep h variables' m).
Proof.
  induction steps as [|m steps IH]; intros variables He; cbn in He;
    [inversion He|].
  apply elem_of_cons in He as [->|He].
  - exists m, variables. split; [apply elem_of_cons; left|]; reflexivity.
  - destruct (IH _ He) as (m' & v' & Hm' & ->).
    exists m', v'. split; [apply elem_of_cons; right; exact Hm'|reflexivity].
Qed.

(** Every execution record of a pass carries an id [#E] followed by digits
    and a tool name over [[A-Za-z0-9_]], both as written in the plan, and an
    argument without white space at its ends. *)
Theorem execution_records_shape (h : Host) (session : PlanSession)
    (e : PlanToolExecution) :
  e ∈ rs_executions (executePlanTools h session) ->
  (exists digits,
      digits <> [] /\ Forall (fun c => isDigit c = true) digits
      /\ te_id e = lit "#E" ++ digits)
  /\ te_tool e <> []
  /\ Forall (fun c => isWordChar c = true) (te_tool e)
  /\ trim (te_argument e) = te_argument e.
Proof.
  rewrite executePlanTools_executions. intros He.
  destruct (stepExecutions_elem h _ e _ He) as (m & v & Hm & ->).
  pose proof (planMatchesFrom_wellFormed
                (default [] (planMarkdown session)) 0 true) as Hwf.
  rewrite Forall_forall in Hwf.
  destruct (Hwf m Hm) as (Hid & Hdigits & Hname & Hword & _).
  destruct (executeStep_cases h v m) as (-> & -> & -> & _).
  rewrite (trim_word _ Hword).
  split; [exists (sm_id m); auto|]. split; [exact Hname|].
  split; [exact Hword|apply trim_idempotent].
Qed.

Lemma execution_records_shape_witness :
  {| te_id := lit "#E1"; te_tool := lit "DeleteFile"; te_argument := lit "tmp";
     te_output := []; te_error := Some (lit "Unsupported tool: DeleteFile") |}
  ∈ rs_executions (executePlanTools Demo.host
                     (Demo.sessionWithPlan Demo.mixedPlan))
  /\ (exists digits,
         digits <> [] /\ Forall (fun c => isDigit c = true) digits
         /\ lit "#E1" = lit "#E" ++ digits)
  /\ trim (lit "tmp") = lit "tmp".
Proof.
  assert (Hin :
    {| te_id := lit "#E1"; te_tool := lit "DeleteFile"; te_argument := lit "tmp";
       te_output := []; te_error := Some (lit "Unsupported tool: DeleteFile") |}
    ∈ rs_executions (executePlanTools Demo.host
                       (Demo.sessionWithPlan Demo.mixedPlan))).
  { apply list_elem_of_lookup. exists 1. vm_compute. reflexivity. }
  split; [exact Hin|].
  destruct (execution_records_shape Demo.host _ _ Hin) as (Hid & _ & _ & Harg).
  split; [exact Hid|exact Harg].
Defined.

(** An execution record never carries both an error and an output: where an
    error is recorded the output is empty. *)
Theorem error_excludes_output (h : Host) (session : PlanSession)
    (e : PlanToolExecution) :
  e ∈ rs_executions (executePlanTools h session) ->
  te_error e = None \/ te_output e = [].
Proof.
  rewrite executePlanTools_executions. intros He.
  destruct (stepExecutions_elem h _ e _ He) as (m & v & _ & ->).
  destruct (executeStep_cases h v m) as (_ & _ & _ & Hcase).
  destruct (dispatchTool _ _ _) as [[out|message]|];
    destruct Hcase as (Herr & Hout & _); auto.
Qed.

Lemma error_excludes_output_witness :
  {| te_id := lit "#E1"; te_tool := lit "DeleteFile"; te_argument := lit "tmp";
     te_output := []; te_error := Some (lit "Unsupported tool: DeleteFile") |}
  ∈ rs_executions (executePlanTools Demo.host
                     (Demo.sessionWithPlan Demo.mixedPlan))
  /\ (Some (lit "Unsupported tool: DeleteFile") = None
      \/ @nil N = []).
Proof.
  assert (Hin :
    {| te_id := lit "#E1"; te_tool := lit "DeleteFile"; te_argument := lit "tmp";
       te_output := []; te_error := Some (lit "Unsupported tool: DeleteFile") |}
    ∈ rs_executions (executePlanTools Demo.host
                       (Demo.sessionWithPlan Demo.mixedPlan))).
  { apply list_elem_of_lookup. exists 1. vm_compute. reflexivity. }
  split; [exact Hin|].
  exact (error_excludes_output Demo.host _ _ Hin).
Defined.

(** ** What a pass publishes *)

Lemma withToolExecutions_twice (s : PlanSession)
    (a b : list PlanToolExecution) :
  withToolExecutions (withToolExecutions s a) b = withToolExecutions s b.
Proof. reflexivity. Qed.

Lemma runSteps_snoc (h : Host) (rs : RunState) (steps : list StepMatch)
    (m : StepMatch) :
  runSteps h rs (steps ++ [m]) = runStep h (runSteps h rs steps) m.
Proof. unfold runSteps. rewrite foldl_app. reflexivity. Qed.

Lemma runSteps_published (h : Host) (session : PlanSession)
    (steps : list StepMatch) :
  let run := runSteps h (runStart session) steps in
  rs_published run
  = map (fun k => withToolExecutions session (take k (rs_executions run)))
      (seq 1 (length steps))
  /\ length (rs_executions run) = length steps
  /\ withToolExecutions (rs_session run) (rs_executions run)
     = withToolExecutions session (rs_executions run).
Proof.
  induction steps as [|m steps IH] using rev_ind; [repeat split|].
  cbv zeta in *. rewrite runSteps_snoc.
  destruct IH as (Hpub & Hlen & Hsession).
  set (rs := runSteps h (runStart session) steps) in *.
  unfold runStep. destruct (executeStep h (rs_variables rs) m) as [e v].
  cbn [rs_published rs_executions rs_session].
  rewrite length_app, Nat.add_1_r, seq_S, map_app. cbn [map].
  rewrite !length_app, Hlen. cbn [length]. rewrite Nat.add_1_r.
  split; [|split; [reflexivity|]].
  - f_equal.
    + rewrite Hpub. apply map_ext_in. intros k Hk. apply in_seq in Hk.
      rewrite take_app_le by lia. reflexivity.
    + cbn [Nat.add]. rewrite take_ge by (rewrite length_app; cbn; lia).
      f_equal. rewrite <- (withToolExecutions_twice (rs_session rs)
                             (rs_executions rs) (rs_executions rs ++ [e])).
      rewrite Hsession. reflexivity.
  - rewrite withToolExecutions_twice.
    rewrite <- (withToolExecutions_twice (rs_session rs)
                  (rs_executions rs) (rs_executions rs ++ [e])).
    rewrite Hsession. reflexivity.
Qed.

(** A pass publishes the session once per step: the snapshot after step
    number [k] is the session it was given with the first [k] execution
    records as [toolExecutions], and nothing else changed. *)
Theorem pass_publishes_each_step (h : Host) (session : PlanSession) :
  let run := executePlanTools h session in
  rs_published run
  = map (fun k => withToolExecutions session (take k (rs_executions run)))
      (seq 1 (length (rs_executions run)))
  /\ withToolExecutions (rs_session run) (rs_executions run)
     = withToolExecutions session (rs_executions run).
Proof.
  intros run. subst run. unfold executePlanTools.
  destruct (runSteps_published h session
              (planMatches (default [] (planMarkdown session))))
    as (Hpub & Hlen & Hsession).
  rewrite Hlen. split; assumption.
Qed.

(** ** References that resolve to nothing *)

Lemma resolveFrom_empty (s : list N) :
  forall skip, resolveFrom ∅ skip s = drop skip s.
Proof.
  induction s as [|c s IH]; intros skip; [destruct skip; reflexivity|].
  cbn [resolveFrom]. destruct skip as [|skip]; [|apply IH].
  destruct (matchReference (c :: s)) as [k|] eqn:Href;
    [|rewrite IH; reflexivity].
  rewrite lookup_empty, IH. cbn [default drop].
  unfold matchReference in Href.
  destruct (stripPrefix (lit "#E") (c :: s)) as [s1|] eqn:Hs1; [|discriminate].
  apply stripPrefix_Some in Hs1. cbn [mbind option_bind] in Href.
  assert (Hk : k = fst (span isDigit s1))
    by (destruct (fst (span isDigit s1)); [discriminate|congruence]).
  change (lit "#E" ++ s1) with (35%N :: 69%N :: s1) in Hs1.
  injection Hs1 as -> ->. unfold referenceToken.
  change (lit "#E" ++ k) with (35%N :: 69%N :: k). cbn [app drop].
  f_equal. f_equal. subst k. clear.
  induction s1 as [|d s1 IH]; [reflexivity|]. cbn.
  destruct (isDigit d); [|reflexivity].
  destruct (span isDigit s1) as [a b]. cbn in *. f_equal. exact IH.
Qed.

Lemma matchReference_hash (s : list N) (k : list N) :
  matchReference s = Some k -> 35%N ∈ s.
Proof.
  unfold matchReference.
  destruct (stripPrefix (lit "#E") s) as [s1|] eqn:Hs1; [|discriminate].
  apply stripPrefix_Some in Hs1 as ->. intros _.
  apply elem_of_cons. left. reflexivity.
Qed.

Lemma resolveFrom_no_hash (variables : gmap (list N) (list N)) (s : list N) :
  35%N ∉ s -> resolveFrom variables 0 s = s.
Proof.
  induction s as [|c s IH]; intros Hs; [reflexivity|].
  cbn [resolveFrom].
  destruct (matchReference (c :: s)) as [k|] eqn:Href.
  - exfalso. apply Hs. exact (matchReference_hash _ k Href).
  - rewrite IH; [reflexivity|]. intros Hin. apply Hs, elem_of_cons. auto.
Qed.

(** The resolution table starts empty with every pass, so the first step's
    argument is the captured text, trimmed, whatever references it holds;
    and an argument without [#] is never altered by any table. *)
Theorem unresolvable_argument_kept (h : Host) (session : PlanSession)
    (i : nat) (m : StepMatch) :
  planMatches (default [] (planMarkdown session)) !! i = Some m ->
  i = 0 \/ 35%N ∉ sm_rawArgument m ->
  exists e,
    rs_executions (executePlanTools h session) !! i = Some e
    /\ te_argument e = trim (sm_rawArgument m).
Proof.
  intros Hm Hcase. rewrite executePlanTools_executions.
  exists (fst (executeStep h
                 (stepVariables h ∅
                    (take i (planMatches (default [] (planMarkdown session)))))
                 m)).
  split; [apply stepExecutions_lookup, Hm|].
  destruct (executeStep_cases h
              (stepVariables h ∅
                 (take i (planMatches (default [] (planMarkdown session))))) m)
    as (_ & _ & -> & _).
  f_equal. unfold resolveReferences. destruct Hcase as [->|Hhash].
  - cbn. apply (resolveFrom_empty _ 0).
  - apply resolveFrom_no_hash, Hhash.
Qed.

Lemma unresolvable_argument_kept_witness :
  planMatches (default [] (planMarkdown (Demo.sessionWithPlan Demo.twoReads))) !! 0
  = Some {| sm_id := lit "1"; sm_toolNameRaw := lit "ReadFile";
            sm_rawArgument := lit "notes.txt" |}
  /\ exists e,
       rs_executions (executePlanTools Demo.host
                        (Demo.sessionWithPlan Demo.twoReads)) !! 0 = Some e
       /\ te_argument e = trim (lit "notes.txt").
Proof.
  assert (Hm : planMatches (default [] (planMarkdown
                                          (Demo.sessionWithPlan Demo.twoReads))) !! 0
               = Some {| sm_id := lit "1"; sm_toolNameRaw := lit "ReadFile";
                         sm_rawArgument := lit "notes.txt" |})
    by (vm_compute; reflexivity).
  split; [exact Hm|].
  exact (unresolvable_argument_kept Demo.host _ 0 _ Hm (or_introl eq_refl)).
Defined.

(** ** Plans without step lines *)

Lemma matchStep_needs_prefix (s : list N) :
  stripPrefix (lit "#E") s = None -> matchStep s = None.
Proof. intros H. unfold matchStep. rewrite H. reflexivity. Qed.

(** A plan none of whose lines starts with [#E] has no step: the pass records
    nothing, publishes nothing and leaves the session untouched. *)
Theorem plan_without_steps_runs_nothing (h : Host) (session : PlanSession) :
  Forall (fun line => stripPrefix (lit "#E") line = None)
    (textLines (default [] (planMarkdown session))) ->
  rs_executions (executePlanTools h session) = []
  /\ rs_published (executePlanTools h session) = []
  /\ rs_session (executePlanTools h session) = session.
Proof.
  intros Hlines.
  assert (Hnone : planMatches (default [] (planMarkdown session)) = []).
  { rewrite planMatches_stepLines.
    - unfold stepLines.
      induction Hlines as [|line lines Hline _ IH]; [reflexivity|].
      cbn. unfold lineStep at 1.
      rewrite (matchStep_needs_prefix line Hline). exact IH.
    - eapply Forall_impl; [exact Hlines|]. intros line Hline.
      unfold danglingHeader. rewrite Hline. reflexivity. }
  unfold executePlanTools. rewrite Hnone. repeat split.
Qed.

Lemma plan_without_steps_runs_nothing_witness :
  Forall (fun line => stripPrefix (lit "#E") line = None)
    (textLines (default [] (planMarkdown
       (Demo.sessionWithPlan (lit "Plan: think" ++ newline ++ lit " #E1 = ListFiles[.]")))))
  /\ rs_executions (executePlanTools Demo.host
       (Demo.sessionWithPlan (lit "Plan: think" ++ newline ++ lit " #E1 = ListFiles[.]")))
     = [].
Proof.
  assert (Hlines :
    Forall (fun line => stripPrefix (lit "#E") line = None)
      (textLines (default [] (planMarkdown
         (Demo.sessionWithPlan
            (lit "Plan: think" ++ newline ++ lit " #E1 = ListFiles[.]"))))))
    by (repeat constructor).
  split; [exact Hlines|].
  exact (proj1 (plan_without_steps_runs_nothing Demo.host _ Hlines)).
Defined.

(** ** Tools return data *)

Lemma listFiles_returns (h : Host) (argument : list N) :
  resolverTotal h -> exists out, listFiles h argument = Ok out.
Proof.
  intros Htotal. unfold listFiles.
  destruct (resolveWorkspacePath h (orElse (Some argument) (lit ".")))
    as [resolved|m] eqn:Hres; [|destruct (Htotal _ _ Hres)].
  cbn. destruct (usable resolved) as [path|]; [|eauto].
  destruct (fs_readdirTyped h path) as [entries|m]; cbn; [|eauto].
  destruct entries as [|entry entries]; [eauto|].
  destruct (resolveWorkspacePath h (lit ".")) as [root|m] eqn:Hroot;
    [|destruct (Htotal _ _ Hroot)].
  cbn. eauto.
Qed.

Lemma readFile_returns (h : Host) (argument : list N) :
  resolverTotal h -> exists out, readFile h argument = Ok out.
Proof.
  intros Htotal. unfold readFile.
  destruct (resolveWorkspacePath h argument)
    as [resolved|m] eqn:Hres; [|destruct (Htotal _ _ Hres)].
  cbn. destruct (usable resolved) as [path|]; [|eauto].
  destruct (fs_stat h path) as [stats|m]; cbn; [|eauto].
  destruct (isDirectory stats); [eauto|].
  destruct (fs_readFile h path) as [data|m]; cbn; eauto.
Qed.

Lemma searchText_returns (h : Host) (argument : list N) :
  resolverTotal h -> exists out, searchText h argument = Ok out.
Proof.
  intros Htotal. unfold searchText.
  destruct (splitSearchArgument argument) as [pattern rawPath].
  destruct (truthy pattern); cbn; [|eauto].
  destruct (resolveWorkspacePath h (searchPath rawPath))
    as [resolved|m] eqn:Hres; [|destruct (Htotal _ _ Hres)].
  cbn. destruct (usable resolved) as [path|]; [|eauto].
  destruct (resolveWorkspacePath h (lit ".")) as [root|m] eqn:Hroot;
    [|destruct (Htotal _ _ Hroot)].
  cbn. destruct (results _); eauto.
Qed.

(** Where the workspace resolver does not throw, no tool throws, whatever the
    file system does: each of the three returns a text.  The only error a
    pass can then record is the one for an unsupported tool. *)
Theorem tools_return_data (h : Host) :
  resolverTotal h ->
  (forall argument,
      (exists out, listFiles h argument = Ok out)
      /\ (exists out, readFile h argument = Ok out)
      /\ (exists out, searchText h argument = Ok out))
  /\ forall session e,
       e ∈ rs_executions (executePlanTools h session) ->
       te_error e = None
       \/ exists name,
            te_error e = Some (lit "Unsupported tool: " ++ name)
            /\ te_tool e = trim name.
Proof.
  intros Htotal. split.
  - intros argument.
    split; [apply listFiles_returns, Htotal|].
    split; [apply readFile_returns, Htotal|apply searchText_returns, Htotal].
  - intros session e. rewrite executePlanTools_executions. intros He.
    destruct (stepExecutions_elem h _ e _ He) as (m & v & _ & ->).
    destruct (executeStep_cases h v m) as (_ & Htool & _ & Hcase).
    unfold dispatchTool in Hcase.
    repeat case_bool_decide.
    + destruct (listFiles_returns h
                  (trim (resolveReferences v (sm_rawArgument m))) Htotal)
        as [out Hout].
      rewrite Hout in Hcase. left. apply Hcase.
    + destruct (readFile_returns h
                  (trim (resolveReferences v (sm_rawArgument m))) Htotal)
        as [out Hout].
      rewrite Hout in Hcase. left. apply Hcase.
    + destruct (searchText_returns h
                  (trim (resolveReferences v (sm_rawArgument m))) Htotal)
        as [out Hout].
      rewrite Hout in Hcase. left. apply Hcase.
    + right. exists (sm_toolNameRaw m). split; [apply Hcase|exact Htool].
Qed.

Lemma demo_resolverTotal : resolverTotal Demo.host.
Proof.
  intros path message. cbn. unfold Demo.resolve.
  case_bool_decide; discriminate.
Qed.

Lemma tools_return_data_witness :
  resolverTotal Demo.host
  /\ (exists out, readFile Demo.host (lit "missing.txt") = Ok out)
  /\ (exists out, searchText Demo.host (lit "plan | nowhere") = Ok out).
Proof.
  split; [exact demo_resolverTotal|].
  destruct (proj1 (tools_return_data Demo.host demo_resolverTotal)
              (lit "missing.txt")) as (_ & Hread & _).
  destruct (proj1 (tools_return_data Demo.host demo_resolverTotal)
              (lit "plan | nowhere")) as (_ & _ & Hsearch).
  split; assumption.
Defined.

(** ** More on the traversal of search-text *)

Lemma searchIteration_visitedOnce (h : Host) (sp : SearchParams)
    (st : SearchState) :
  visitedOnce st -> visitedOnce (searchIteration h sp st).
Proof.
  intros (Hstat & Hopen & Hsub & Hvis). unfold searchIteration.
  destruct (queue st) as [|current rest]; [(split; [|split; [|split]]; assumption)|].
  case_bool_decide as Hseen; [(split; [|split; [|split]]; assumption)|].
  assert (Hnew : current ∉ statted st) by (intros Hin; apply Hseen, Hvis, Hin).
  assert (Hstat' : NoDup (statted st ++ [current])).
  { apply NoDup_app. split; [exact Hstat|]. split.
    - intros p Hp Hp'. apply list_elem_of_singleton in Hp' as ->. auto.
    - apply NoDup_singleton. }
  assert (Hopen' : NoDup (opened st ++ [current])).
  { apply NoDup_app. split; [exact Hopen|]. split.
    - intros p Hp Hp'. apply list_elem_of_singleton in Hp' as ->.
      apply Hnew, Hsub, Hp.
    - apply NoDup_singleton. }
  assert (Hvis' : forall p, p ∈ {[current]} ∪ visited st
                            <-> p ∈ statted st ++ [current]).
  { intros p. rewrite elem_of_union, elem_of_app, elem_of_singleton,
      list_elem_of_singleton, Hvis. tauto. }
  destruct (subseteq_snoc _ _ current Hsub) as (Hsub1 & Hsub2 & _).
  destruct (fs_stat h current) as [stat|m]; [|(split; [|split; [|split]]; assumption)].
  destruct (isDirectory stat).
  { destruct (fs_readdir h current); (split; [|split; [|split]]; assumption). }
  destruct (isFile stat); [|(split; [|split; [|split]]; assumption)].
  destruct (maxFileSize <? size stat)%N; [(split; [|split; [|split]]; assumption)|].
  destruct (fs_readFile h current); (split; [|split; [|split]]; assumption).
Qed.

(** The traversal hands no path to [fs.stat] twice and opens no file twice,
    however often the path is listed or queued; the [visited] set is the set
    of paths handed to [fs.stat]. *)
Theorem traversal_visits_once (h : Host) (sp : SearchParams)
    (start : list N) (fuel : nat) :
  let st := searchLoop h sp fuel (searchStart start) in
  NoDup (statted st)
  /\ NoDup (opened st)
  /\ forall p, p ∈ visited st <-> p ∈ statted st.
Proof.
  intros st.
  assert (H0 : visitedOnce (searchStart start)).
  { split; [|split; [|split]]; cbn;
      try apply NoDup_nil_2; try (intros p Hp; exact Hp).
    intros p. split; intros Hp.
    - apply not_elem_of_empty in Hp. contradiction.
    - inversion Hp. }
  assert (Hloop : forall s, visitedOnce s -> visitedOnce (searchLoop h sp fuel s)).
  { clear. induction fuel as [|fuel IH]; intros s Hs; cbn; [exact Hs|].
    destruct (searchContinues s); [|exact Hs].
    apply IH, searchIteration_visitedOnce, Hs. }
  destruct (Hloop _ H0) as (H1 & H2 & _ & H4). auto.
Qed.

Lemma scanLines_take (h : Host) (sp : SearchParams) (current : list N)
    (lines : list (list N)) :
  forall index found,
    length found <= maxResults ->
    scanLines h sp current lines index found
    = take maxResults (found ++ matchesFrom h sp current index lines).
Proof.
  induction lines as [|line rest IH]; intros index found Hle;
    cbn [scanLines matchesFrom].
  - rewrite app_nil_r. rewrite take_ge by exact Hle. reflexivity.
  - destruct (Nat.ltb_spec (length found) maxResults) as [Hlt|Hge].
    + rewrite IH.
      * destruct (lineMatches h sp line); [|reflexivity].
        rewrite <- app_assoc. reflexivity.
      * destruct (lineMatches h sp line); [|exact Hle].
        rewrite length_app. cbn [length]. lia.
    + rewrite take_app_le by lia. rewrite take_ge by lia. reflexivity.
Qed.

(** Searching a path that is a regular file of at most 200000 bytes: the
    file is opened once and the results are the first 40 of its matching
    lines, in the order of the file, each with its 1-based line number. *)
Theorem search_of_one_file (h : Host) (sp : SearchParams) (start : list N)
    (stat : Stats) (content : list N) :
  fs_stat h start = Ok stat ->
  isDirectory stat = false ->
  isFile stat = true ->
  (size stat <= 200000)%N ->
  fs_readFile h start = Ok content ->
  results (searchRun h sp start)
  = take 40 (matchesFrom h sp start 0 (splitLines content))
  /\ opened (searchRun h sp start) = [start].
Proof.
  intros Hstat Hdir Hfile Hsize Hread. rewrite searchRun_first.
  assert (Hiter :
    searchIteration h sp (searchStart start)
    = {| queue := []; visited := {[start]} ∪ ∅;
         results := scanLines h sp start (splitLines content) 0 [];
         scannedFiles := 1; statted := [start]; opened := [start] |}).
  { unfold searchIteration, searchStart. cbn [queue visited].
    rewrite bool_decide_eq_false_2 by apply not_elem_of_empty.
    rewrite Hstat, Hdir, Hfile.
    destruct (N.ltb_spec maxFileSize (size stat)) as [Hbig|_];
      [unfold maxFileSize in Hbig; lia|].
    rewrite Hread. reflexivity. }
  rewrite Hiter, searchLoop_stopped by reflexivity. cbn [results opened].
  split; [|reflexivity].
  rewrite scanLines_take by (cbn; unfold maxResults; lia). reflexivity.
Qed.

Lemma search_of_one_file_witness :
  fs_stat Demo.host (lit "/w/src/main.ts")
  = Ok {| isDirectory := false; isFile := true; size := 15 |}
  /\ fs_readFile Demo.host (lit "/w/src/main.ts") = Ok (lit "const plan = 1;")
  /\ results (searchRun Demo.host
                {| sp_regex := None; sp_lowerPattern := lit "plan";
                   sp_workspaceRoot := lit "/w" |} (lit "/w/src/main.ts"))
     = take 40 (matchesFrom Demo.host
                  {| sp_regex := None; sp_lowerPattern := lit "plan";
                     sp_workspaceRoot := lit "/w" |} (lit "/w/src/main.ts") 0
                  (splitLines (lit "const plan = 1;"))).
Proof.
  split; [reflexivity|]. split; [reflexivity|].
  apply (search_of_one_file Demo.host _ (lit "/w/src/main.ts")
           {| isDirectory := false; isFile := true; size := 15 |}
           (lit "const plan = 1;")).
  - reflexivity.
  - reflexivity.
  - reflexivity.
  - vm_compute. discriminate.
  - reflexivity.
Defined.

Lemma join_nonempty (sep r : list N) (rest : list (list N)) :
  r <> [] -> join sep (r :: rest) <> [].
Proof.
  intros Hr. destruct rest as [|r' rest]; cbn; [exact Hr|].
  destruct r; [congruence|discriminate].
Qed.

Lemma truncateOutput_nonempty (value : list N) :
  value <> [] -> truncateOutput value <> [].
Proof.
  intros Hv. unfold truncateOutput.
  destruct (length value <=? MAX_TOOL_OUTPUT); [exact Hv|].
  intros Hnil. apply app_eq_nil in Hnil as [_ Hnotice].
  unfold truncationNotice in Hnotice. apply app_eq_nil in Hnotice as [Hlit _].
  vm_compute in Hlit. discriminate.
Qed.

Lemma resultLine_nonempty (h : Host) (sp : SearchParams) (current : list N)
    (index : nat) (line : list N) :
  resultLine h sp current index line <> [].
Proof.
  unfold resultLine. intros Hnil.
  apply app_eq_nil in Hnil as [_ Hnil].
  change (lit ":") with [58%N] in Hnil. discriminate.
Qed.

(** search-text never returns the empty string: without a match it returns
    its sentinel, and a result line is never empty. *)
Theorem searchText_never_empty (h : Host) (argument out : list N) :
  searchText h argument = Ok out -> out <> [].
Proof.
  unfold searchText. destruct (splitSearchArgument argument) as [pattern rawPath].
  destruct (truthy pattern); cbn;
    [|intros [= <-]; vm_compute; discriminate].
  destruct (resolveWorkspacePath h (searchPath rawPath)) as [resolved|m]; cbn;
    [|discriminate].
  destruct (usable resolved) as [resolvedPath|];
    [|intros [= <-]; vm_compute; discriminate].
  destruct (resolveWorkspacePath h (lit ".")) as [root|m]; cbn; [|discriminate].
  match goal with
  | |- context [searchRun h ?sp resolvedPath] =>
      pose proof (inv_reported _ _ _ _
                    (searchLoop_invariant h sp resolvedPath
                       (searchPotential h (searchStart resolvedPath)) _
                       (searchStart_invariant h sp resolvedPath))) as Hrep;
      fold (searchRun h sp resolvedPath) in Hrep;
      destruct (results (searchRun h sp resolvedPath)) as [|r found]
  end.
  - intros [= <-]. vm_compute. discriminate.
  - intros [= <-]. apply truncateOutput_nonempty.
    apply (join_nonempty newline r found).
    apply Forall_cons in Hrep as [(current & content & index & line & _ & _ & _ & _ & ->) _].
    apply resultLine_nonempty.
Qed.

Lemma searchText_never_empty_witness :
  searchText Demo.host (lit "zzz") = Ok (lit "No results from SearchText.")
  /\ lit "No results from SearchText." <> [].
Proof.
  assert (Hout : searchText Demo.host (lit "zzz")
                 = Ok (lit "No results from SearchText."))
    by (vm_compute; reflexivity).
  split; [exact Hout|].
  exact (searchText_never_empty Demo.host _ _ Hout).
Defined.

Lemma trim_blank (a : list N) :
  Forall (fun c => isSpace c = true) a -> trim a = [].
Proof.
  intros Ha. unfold trim.
  assert (Hstart : trimStart a = [])
    by (induction Ha as [|c a Hc _ IH]; cbn; [|rewrite Hc]; auto).
  rewrite Hstart. reflexivity.
Qed.

(** An argument whose part before the first bar is blank is refused with
    the pattern notice, without the resolver or the file system being
    asked, whatever follows the bar. *)
Theorem blank_pattern_refused (h : Host) (a rest : list N) :
  Forall (fun c => isSpace c = true) a ->
  searchText h a = Ok (lit "SearchText requires a pattern argument.")
  /\ searchText h (a ++ 124%N :: rest)
     = Ok (lit "SearchText requires a pattern argument.").
Proof.
  intros Ha.
  assert (Hbar : Forall (fun c => c <> 124%N) a).
  { eapply Forall_impl; [exact Ha|]. intros c Hc ->. discriminate. }
  unfold searchText, splitSearchArgument.
  rewrite (splitOn_no_separator _ _ Hbar), (splitOn_first _ _ _ Hbar).
  cbn [map lookup list_lookup default]. rewrite (trim_blank a Ha).
  split; reflexivity.
Qed.

Lemma blank_pattern_refused_witness :
  Forall (fun c => isSpace c = true) (lit "  ")
  /\ searchText Demo.host (lit "  " ++ 124%N :: lit "src")
     = Ok (lit "SearchText requires a pattern argument.").
Proof.
  assert (Ha : Forall (fun c => isSpace c = true) (lit "  "))
    by (repeat constructor).
  split; [exact Ha|].
  exact (proj2 (blank_pattern_refused Demo.host (lit "  ") (lit "src") Ha)).
Defined.

(** A search that starts at a path which [fs.stat] refuses, a missing path
    for one, is no error: it ends with the no-results sentinel. *)
Theorem search_of_missing_path (h : Host)
    (argument pattern resolved message : list N)
    (rawPath root : option (list N)) :
  splitSearchArgument argument = (pattern, rawPath) ->
  pattern <> [] ->
  resolveWorkspacePath h (searchPath rawPath) = Ok (Some resolved) ->
  resolved <> [] ->
  resolveWorkspacePath h (lit ".") = Ok root ->
  fs_stat h resolved = Throw message ->
  searchText h argument = Ok (lit "No results from SearchText.").
Proof.
  intros Hsplit Hpattern Hres Hne Hroot Hstat. unfold searchText.
  rewrite Hsplit. destruct pattern as [|c pattern]; [congruence|].
  cbn [truthy negb]. rewrite Hres. cbn [mbind outcome_bind].
  destruct resolved as [|d resolved]; [congruence|]. cbn [usable].
  rewrite Hroot. cbn [mbind outcome_bind]. cbv zeta.
  rewrite searchRun_first.
  match goal with
  | |- context [searchIteration h ?sp ?st] =>
      assert (Hiter : searchIteration h sp st
                      = {| queue := []; visited := {[d :: resolved]} ∪ ∅;
                           results := []; scannedFiles := 0;
                           statted := [d :: resolved]; opened := [] |})
  end.
  { unfold searchIteration, searchStart. cbn [queue visited].
    rewrite bool_decide_eq_false_2 by apply not_elem_of_empty.
    rewrite Hstat. reflexivity. }
  rewrite Hiter, searchLoop_stopped by reflexivity. reflexivity.
Qed.

Lemma search_of_missing_path_witness :
  splitSearchArgument (lit "plan | nowhere") = (lit "plan", Some (lit "nowhere"))
  /\ fs_stat Demo.host (lit "/w/nowhere")
     = Throw (lit "ENOENT: no such file or directory")
  /\ searchText Demo.host (lit "plan | nowhere")
     = Ok (lit "No results from SearchText.").
Proof.
  split; [vm_compute; reflexivity|]. split; [vm_compute; reflexivity|].
  apply (search_of_missing_path Demo.host (lit "plan | nowhere") (lit "plan")
           (lit "/w/nowhere") (lit "ENOENT: no such file or directory")
           (Some (lit "nowhere")) (Some (lit "/w"))).
  - vm_compute. reflexivity.
  - discriminate.
  - vm_compute. reflexivity.
  - discriminate.
  - vm_compute. reflexivity.
  - vm_compute. reflexivity.
Defined.

(** ** Inline completion helpers *)

Lemma overlapFrom_spec (completion afterText : list N) (max : nat) :
  overlapFrom completion afterText max <= max
  /\ sliceEnd completion (overlapFrom completion afterText max)
     = take (overlapFrom completion afterText max) afterText
  /\ forall k, overlapFrom completion afterText max < k -> k <= max ->
               sliceEnd completion k <> take k afterText.
Proof.
  induction max as [|max (Hle & Heq & Hmax)]; cbn [overlapFrom].
  - split; [lia|]. split; [|intros k ? ?; lia].
    unfold sliceEnd. rewrite Nat.sub_0_r, drop_all. reflexivity.
  - case_bool_decide as Hhere.
    + split; [lia|]. split; [exact Hhere|intros k ? ?; lia].
    + split; [lia|]. split; [exact Heq|]. intros k Hlt Hk.
      destruct (decide (k = S max)) as [->|Hne]; [exact Hhere|].
      apply Hmax; lia.
Qed.

(** [computeOverlap] returns the length of the longest suffix of the
    completion that is a prefix of the text after the cursor: the suffix of
    that length is such a prefix, and no longer one is. *)
Theorem computeOverlap_longest (completion afterText : list N) :
  let n := computeOverlap completion afterText in
  n <= length completion /\ n <= length afterText
  /\ sliceEnd completion n = take n afterText
  /\ forall k, n < k -> k <= length completion -> k <= length afterText ->
               sliceEnd completion k <> take k afterText.
Proof.
  cbv zeta. unfold computeOverlap.
  destruct (overlapFrom_spec completion afterText
              (min (length completion) (length afterText)))
    as (Hle & Heq & Hmax).
  split; [lia|]. split; [lia|]. split; [exact Heq|].
  intros k Hlt Hc Ha. apply Hmax; lia.
Qed.

Lemma computeOverlap_longest_witness :
  computeOverlap (lit "x = foo(") (lit "foo(1)") = 4
  /\ sliceEnd (lit "x = foo(") 5 <> take 5 (lit "foo(1)").
Proof.
  split; [vm_compute; reflexivity|].
  apply (computeOverlap_longest (lit "x = foo(") (lit "foo(1)"));
    vm_compute; lia.
Defined.

Lemma removeAll_one (x : N) (s : list N) :
  removeAll eqc [x] s = filter (fun c => c <> x) s.
Proof.
  unfold removeAll.
  induction s as [|c s IH]; [reflexivity|].
  cbn [removeAllFrom startsWithBy length Nat.sub]. rewrite andb_true_r.
  unfold eqc at 1. destruct (N.eqb_spec x c) as [->|Hne].
  - rewrite filter_cons_False by (intros H; apply H; reflexivity). exact IH.
  - rewrite filter_cons_True by congruence. rewrite IH. reflexivity.
Qed.

Lemma trim_nonblank (s : list N) :
  trim s <> [] -> Exists (fun c => isSpace c = false) s.
Proof.
  intros Htrim.
  destruct (decide (Forall (fun c => isSpace c = true) s)) as [Hall|Hsome].
  - exfalso. apply Htrim, trim_blank, Hall.
  - apply not_Forall_Exists in Hsome; [|intros c; apply _].
    eapply Exists_impl; [exact Hsome|]. intros c Hc. cbn in Hc.
    destruct (isSpace c); [congruence|reflexivity].
Qed.

(** What [sanitizeCompletion] returns holds no carriage return and no NUL,
    it is empty or holds a code unit that is not white space, and it is
    the cleaned completion without a suffix that the text after the cursor
    starts with. *)
Theorem sanitizeCompletion_shape (completion afterText : list N) :
  let sanitized := sanitizeCompletion completion afterText in
  Forall (fun c => c <> 13%N /\ c <> 0%N) sanitized
  /\ (sanitized = [] \/ Exists (fun c => isSpace c = false) sanitized)
  /\ (sanitized <> [] ->
      exists k,
        filter (fun c => c <> 0%N) (filter (fun c => c <> 13%N) completion)
        = sanitized ++ take k afterText).
Proof.
  cbv zeta. unfold sanitizeCompletion. rewrite !removeAll_one.
  set (cleaned := filter (fun c => c <> 0%N)
                    (filter (fun c => c <> 13%N) completion)).
  assert (Hclean : Forall (fun c => c <> 13%N /\ c <> 0%N) cleaned).
  { apply Forall_forall. intros c Hc. unfold cleaned in Hc.
    apply list_elem_of_filter in Hc as [H0 Hc].
    apply list_elem_of_filter in Hc as [H13 _]. auto. }
  destruct (overlapFrom_spec cleaned afterText
              (min (length cleaned) (length afterText))) as (_ & Heq & _).
  fold (computeOverlap cleaned afterText) in Heq.
  set (n := computeOverlap cleaned afterText) in *.
  set (sanitized := if 0 <? n then take (length cleaned - n) cleaned else cleaned).
  assert (Hcut : cleaned = sanitized ++ take n afterText).
  { unfold sanitized. destruct (Nat.ltb_spec 0 n) as [Hpos|Hzero].
    - rewrite <- Heq. unfold sliceEnd. symmetry. apply take_drop.
    - replace n with 0 by lia. rewrite take_0, app_nil_r. reflexivity. }
  destruct (Nat.eqb_spec (length (trim sanitized)) 0) as [Hblank|Hsome].
  - split; [constructor|]. split; [left; reflexivity|congruence].
  - split; [|split].
    + rewrite Hcut in Hclean. apply Forall_app in Hclean as [H _]. exact H.
    + right. apply trim_nonblank. destruct (trim sanitized); [|discriminate].
      cbn in Hsome. lia.
    + intros _. exists n. exact Hcut.
Qed.

Lemma sanitizeCompletion_shape_witness :
  let completion := lit "foo(1)" ++ [13%N; 10%N] ++ lit ")" in
  sanitizeCompletion completion (lit ")") = lit "foo(1)" ++ [10%N]
  /\ exists k,
       filter (fun c => c <> 0%N) (filter (fun c => c <> 13%N) completion)
       = sanitizeCompletion completion (lit ")") ++ take k (lit ")").
Proof.
  cbv zeta. split; [vm_compute; reflexivity|].
  apply (sanitizeCompletion_shape (lit "foo(1)" ++ [13%N; 10%N] ++ lit ")")
           (lit ")")).
  vm_compute. discriminate.
Defined.

(** The prompt window of an inline completion: the text kept before the
    cursor and the text kept after it are adjacent in the document, and
    each is as long as the text allows within its maximum. *)
Theorem context_window (textBefore textAfter : list N)
    (maxBefore maxAfter : nat) :
  let beforeText := truncateLeading textBefore maxBefore in
  let afterText := truncateTrailing textAfter maxAfter in
  length beforeText = min (length textBefore) maxBefore
  /\ length afterText = min (length textAfter) maxAfter
  /\ exists dropped cut,
       textBefore = dropped ++ beforeText /\ textAfter = afterText ++ cut.
Proof.
  cbv zeta. unfold truncateLeading, truncateTrailing.
  destruct (Nat.leb_spec (length textBefore) maxBefore) as [Hb|Hb];
    destruct (Nat.leb_spec (length textAfter) maxAfter) as [Ha|Ha];
    rewrite ?length_drop, ?length_take.
  - split; [lia|]. split; [lia|]. exists [], []. rewrite app_nil_r. auto.
  - split; [lia|]. split; [lia|].
    exists [], (drop maxAfter textAfter). rewrite take_drop. auto.
  - split; [lia|]. split; [lia|].
    exists (take (length textBefore - maxBefore) textBefore), [].
    rewrite take_drop, app_nil_r. auto.
  - split; [lia|]. split; [lia|].
    exists (take (length textBefore - maxBefore) textBefore),
           (drop maxAfter textAfter).
    rewrite !take_drop. auto.
Qed.

(** ** Cleaning of the orchestrator's text *)

Lemma removeAllFrom_skip (eqv : N -> N -> bool) (pat : list N) (skip : nat)
    (s : list N) :
  removeAllFrom eqv pat skip s = removeAll eqv pat (drop skip s).
Proof.
  unfold removeAll. revert skip.
  induction s as [|c s IH]; intros [|skip]; try reflexivity.
  cbn [removeAllFrom drop]. apply IH.
Qed.

Lemma includes_cons (needle : list N) (c : N) (hay : list N) :
  includes needle (c :: hay)
  = (startsWithBy eqc needle (c :: hay) || includes needle hay)%bool.
Proof. reflexivity. Qed.

Lemma removeAll_fence (s : list N) :
  includes fence (removeAll eqc fence s) = false.
Proof.
  change fence with [96%N; 96%N; 96%N].
  remember (length s) as n eqn:Hn.
  revert s Hn. induction (lt_wf n) as [n _ IH]. intros s ->.
  destruct s as [|c s]; [reflexivity|].
  unfold removeAll. cbn [removeAllFrom length Nat.sub].
  destruct (startsWithBy eqc [96%N; 96%N; 96%N] (c :: s)) eqn:Hstart.
  - rewrite removeAllFrom_skip.
    apply (IH (length (drop 2 s))); [rewrite length_drop; cbn; lia|reflexivity].
  - fold (removeAll eqc [96%N; 96%N; 96%N] s).
    rewrite includes_cons, (IH (length s)) by (cbn; lia || reflexivity).
    rewrite orb_false_r. clear IH.
    unfold removeAll, eqc in *. cbn [startsWithBy] in Hstart |- *.
    destruct (96 =? c)%N; [|reflexivity]. cbn [andb] in Hstart |- *.
    destruct s as [|d s]; [reflexivity|].
    cbn [removeAllFrom startsWithBy length Nat.sub]. cbv beta.
    destruct (96 =? d)%N eqn:Hd; cbn [andb] in Hstart |- *;
      [|rewrite Hd; reflexivity].
    destruct s as [|e s]; [rewrite Hd; reflexivity|].
    cbn [removeAllFrom startsWithBy length Nat.sub]. cbv beta.
    destruct (96 =? e)%N eqn:He; cbn [andb] in Hstart |- *;
      [discriminate|].
    rewrite Hd, He. reflexivity.
Qed.

Lemma startsWithBy_app (eqv : N -> N -> bool) (pat s more : list N) :
  startsWithBy eqv pat s = true -> startsWithBy eqv pat (s ++ more) = true.
Proof.
  revert s. induction pat as [|p pat IH]; intros [|c s]; cbn; try congruence.
  intros [-> H]%andb_prop. rewrite (IH _ H). reflexivity.
Qed.

Lemma includes_app_l (needle before s : list N) :
  includes needle (before ++ s) = false -> includes needle s = false.
Proof.
  induction before as [|c before IH]; [auto|].
  cbn [app]. rewrite includes_cons. intros [_ H]%orb_false_elim. auto.
Qed.

Lemma includes_app_r (needle s more : list N) :
  includes needle (s ++ more) = false -> includes needle s = false.
Proof.
  induction s as [|c s IH].
  - destruct needle; [|reflexivity]. destruct more; discriminate.
  - cbn [app]. rewrite !includes_cons.
    intros [Hhere Hlater]%orb_false_elim. rewrite (IH Hlater), orb_false_r.
    destruct (startsWithBy eqc needle (c :: s)) eqn:Hs; [|reflexivity].
    apply (startsWithBy_app _ _ _ more) in Hs. cbn [app] in Hs. congruence.
Qed.

Lemma trimStart_suffix (s : list N) : exists before, s = before ++ trimStart s.
Proof.
  induction s as [|c s [before IH]]; [exists []; reflexivity|]. cbn.
  destruct (isSpace c); [|exists []; reflexivity].
  exists (c :: before). cbn. congruence.
Qed.

Lemma trim_infix (s : list N) : exists before more, s = before ++ trim s ++ more.
Proof.
  destruct (trimStart_suffix s) as [before Hs].
  destruct (trimStart_suffix (rev (trimStart s))) as [more Hrev].
  exists before, (rev more). unfold trim, trimEnd.
  rewrite <- rev_app_distr, <- Hrev, rev_involutive. exact Hs.
Qed.

Lemma eqci_backtick (c : N) : eqci 96 c = true -> eqc 96 c = true.
Proof.
  unfold eqci, eqc, lowerAscii, inRange.
  change (if (65 <=? 96)%N && (96 <=? 90)%N then (96 + 32)%N else 96%N)
    with 96%N.
  destruct ((65 <=? c)%N && (c <=? 90)%N)%bool eqn:Hrange; [|auto].
  apply andb_prop in Hrange as [Hlo Hhi].
  apply N.leb_le in Hlo, Hhi. intros Heq%N.eqb_eq. lia.
Qed.

Lemma fenced_json_starts_fence (s : list N) :
  startsWithBy eqci (lit "```json") s = true ->
  startsWithBy eqc fence s = true.
Proof.
  change (lit "```json") with ([96%N; 96%N; 96%N] ++ lit "json").
  change fence with [96%N; 96%N; 96%N].
  destruct s as [|c [|d [|e s]]]; cbn [startsWithBy app]; try congruence;
    rewrite ?andb_false_r; try congruence.
  intros [Hc [Hd [He _]%andb_prop]%andb_prop]%andb_prop.
  rewrite (eqci_backtick c Hc), (eqci_backtick d Hd), (eqci_backtick e He).
  reflexivity.
Qed.

Lemma removeAll_no_match (eqv : N -> N -> bool) (pat s : list N) :
  (forall t, startsWithBy eqv pat t = true -> startsWithBy eqc fence t = true) ->
  includes fence s = false -> removeAll eqv pat s = s.
Proof.
  intros Hpat. unfold removeAll.
  induction s as [|c s IH]; [reflexivity|].
  rewrite includes_cons. intros [Hhere Hlater]%orb_false_elim.
  cbn [removeAllFrom].
  destruct (startsWithBy eqv pat (c :: s)) eqn:Hs.
  - apply Hpat in Hs. congruence.
  - rewrite (IH Hlater). reflexivity.
Qed.

Lemma sanitizeJson_trimmed (text : list N) :
  trim (sanitizeJson text) = sanitizeJson text.
Proof. apply trim_idempotent. Qed.

(** The text handed to [JSON.parse] holds no code fence and no white space
    at either end, and cleaning it again changes nothing. *)
Theorem sanitizeJson_clean (text : list N) :
  includes fence (sanitizeJson text) = false
  /\ trim (sanitizeJson text) = sanitizeJson text
  /\ sanitizeJson (sanitizeJson text) = sanitizeJson text.
Proof.
  assert (Hfree : includes fence (sanitizeJson text) = false).
  { unfold sanitizeJson.
    destruct (trim_infix (removeAll eqc (lit "```")
                            (removeAll eqci (lit "```json") text)))
      as (before & more & Hs).
    pose proof (removeAll_fence (removeAll eqci (lit "```json") text)) as Hno.
    change fence with (lit "```") in Hno |- *. rewrite Hs in Hno.
    apply includes_app_l, includes_app_r in Hno. exact Hno. }
  split; [exact Hfree|]. split; [apply trim_idempotent|].
  unfold sanitizeJson at 1.
  rewrite (removeAll_no_match eqci (lit "```json") _
             fenced_json_starts_fence Hfree).
  rewrite (removeAll_no_match eqc (lit "```") _ (fun t H => H) Hfree).
  apply trim_idempotent.
Qed.

Lemma decision_shape_trimmed (h : Host) (raw : list N) :
  forall q, question (fst (parseOrchestratorDecision h raw)) = Some q ->
            trim q = q.
Proof.
  unfold parseOrchestratorDecision.
  destruct (JSON_parse h (sanitizeJson raw)) as [parsed|error];
    [|discriminate].
  destruct (isStringValue (getProp parsed (lit "action")) (lit "clarify")),
           (asString (getProp parsed (lit "question"))) as [q|];
    try destruct (isStringValue (getProp parsed (lit "action")) (lit "proceed"));
    cbn [fst question]; intros ? [= <-]; apply trim_idempotent.
Qed.

(** Whatever the model wrote, the decision is well formed: it carries a
    question exactly when it is a [clarify], a [clarify] carries no summary,
    and a question or summary has no white space at either end. *)
Theorem decision_well_formed (h : Host) (raw : list N) :
  let decision := fst (parseOrchestratorDecision h raw) in
  (action decision = clarify <-> question decision <> None)
  /\ (action decision = clarify -> summary decision = None)
  /\ (forall q, question decision = Some q -> trim q = q)
  /\ (forall s, summary decision = Some s -> trim s = s).
Proof.
  cbv zeta. unfold parseOrchestratorDecision.
  destruct (JSON_parse h (sanitizeJson raw)) as [parsed|error].
  - destruct (isStringValue (getProp parsed (lit "action")) (lit "clarify")),
             (asString (getProp parsed (lit "question"))) as [q|];
      try destruct (isStringValue (getProp parsed (lit "action")) (lit "proceed"));
      cbn [fst action question summary];
      (split; [split; congruence|]); (split; [congruence|]);
      (split; [intros ? [= <-]; apply trim_idempotent|]);
      try (intros ? [= <-]; apply sanitizeJson_trimmed);
      try discriminate.
    all: destruct (asString (getProp parsed (lit "summary"))); cbn;
      intros ? [= <-]; apply trim_idempotent.
  - cbn [fst action question summary].
    split; [split; congruence|]. split; [congruence|].
    split; [discriminate|]. intros ? [= <-]. apply sanitizeJson_trimmed.
Qed.

Lemma decision_well_formed_witness :
  question (fst (parseOrchestratorDecision askingHost (lit "a question")))
  = Some (lit "Which file?")
  /\ action (fst (parseOrchestratorDecision askingHost (lit "a question")))
     = clarify.
Proof.
  assert (Hq : question (fst (parseOrchestratorDecision askingHost
                                (lit "a question")))
               = Some (lit "Which file?")) by (vm_compute; reflexivity).
  split; [exact Hq|].
  apply (decision_well_formed askingHost (lit "a question")).
  rewrite Hq. discriminate.
Defined.

(** ** Output that is truncated twice *)

Lemma truncationNotice_nonempty (dropped : nat) :
  0 < length (truncationNotice dropped).
Proof.
  unfold truncationNotice. rewrite length_app.
  change (length (lit (String "010"%char "... (truncated "))) with 16. lia.
Qed.

Lemma truncateOutput_twice (value : list N) :
  MAX_TOOL_OUTPUT < length value ->
  truncateOutput (truncateOutput value)
  = take MAX_TOOL_OUTPUT value
    ++ truncationNotice
         (length (truncationNotice (length value - MAX_TOOL_OUTPUT))).
Proof.
  intros Hlong. unfold truncateOutput at 2.
  destruct (Nat.leb_spec (length value) MAX_TOOL_OUTPUT) as [|_]; [lia|].
  pose proof (truncationNotice_nonempty (length value - MAX_TOOL_OUTPUT)) as Hn.
  set (notice := truncationNotice (length value - MAX_TOOL_OUTPUT)) in *.
  assert (Hkept : length (take MAX_TOOL_OUTPUT value) = MAX_TOOL_OUTPUT)
    by (rewrite length_take; lia).
  unfold truncateOutput. rewrite length_app, Hkept.
  destruct (Nat.leb_spec (MAX_TOOL_OUTPUT + length notice) MAX_TOOL_OUTPUT)
    as [|_]; [lia|].
  rewrite take_app_length' by (symmetry; exact Hkept).
  replace (MAX_TOOL_OUTPUT + length notice - MAX_TOOL_OUTPUT)
    with (length notice) by lia.
  reflexivity.
Qed.

(** A file of more than 2000 characters is cut by [readFile], and what
    [readFile] returns is cut again when the final response is rendered:
    the observation shows the first 2000 characters of the file and a
    notice that counts the characters of the first notice, not those of
    the file. *)
Theorem long_read_truncated_twice (h : Host)
    (argument resolved data : list N) (stats : Stats)
    (execution : PlanToolExecution) :
  resolveWorkspacePath h argument = Ok (Some resolved) ->
  resolved <> [] ->
  fs_stat h resolved = Ok stats ->
  isDirectory stats = false ->
  fs_readFile h resolved = Ok data ->
  MAX_TOOL_OUTPUT < length data ->
  hasError execution = false ->
  readFile h argument = Ok (te_output execution) ->
  te_output execution
  = take MAX_TOOL_OUTPUT data
    ++ truncationNotice (length data - MAX_TOOL_OUTPUT)
  /\ observationBody execution
     = take MAX_TOOL_OUTPUT data
       ++ truncationNotice
            (length (truncationNotice (length data - MAX_TOOL_OUTPUT))).
Proof.
  intros Hres Hne Hstat Hdir Hread Hlong Herr Hout.
  assert (Hcut : te_output execution = truncateOutput data).
  { unfold readFile in Hout. rewrite Hres in Hout. cbn [mbind outcome_bind] in Hout.
    destruct resolved as [|c resolved]; [congruence|]. cbn [usable] in Hout.
    rewrite Hstat in Hout. cbn [mbind outcome_bind tryCatch] in Hout.
    rewrite Hdir, Hread in Hout. cbn [mbind outcome_bind tryCatch] in Hout.
    congruence. }
  split.
  - rewrite Hcut. unfold truncateOutput.
    destruct (Nat.leb_spec (length data) MAX_TOOL_OUTPUT) as [|_]; [lia|].
    reflexivity.
  - unfold observationBody. rewrite Herr, Hcut.
    apply truncateOutput_twice, Hlong.
Qed.

Lemma long_read_truncated_twice_witness :
  let execution :=
    fst (executeStep longFileHost ∅
           {| sm_id := lit "1"; sm_toolNameRaw := lit "ReadFile";
              sm_rawArgument := lit "a.txt" |}) in
  observationBody execution
  = take 2000 (repeat 65%N 2001) ++ lit (String "010"%char "... (truncated 29 characters)")
  /\ te_output execution
     = take 2000 (repeat 65%N 2001) ++ lit (String "010"%char "... (truncated 1 characters)").
Proof.
  cbv zeta.
  destruct (long_read_truncated_twice longFileHost (lit "a.txt") (lit "/w/a.txt")
              (repeat 65%N 2001)
              {| isDirectory := false; isFile := true; size := 2001 |}
              (fst (executeStep longFileHost ∅
                      {| sm_id := lit "1"; sm_toolNameRaw := lit "ReadFile";
                         sm_rawArgument := lit "a.txt" |})))
    as [Hout Hbody].
  - vm_compute. reflexivity.
  - discriminate.
  - reflexivity.
  - reflexivity.
  - reflexivity.
  - vm_compute. lia.
  - vm_compute. reflexivity.
  - vm_compute. reflexivity.
  - split; [rewrite Hbody|rewrite Hout]; vm_compute; reflexivity.
Defined.

(** ** The stages of one call *)

Lemma tool_pass_closed_form (h : Host) (session : PlanSession)
    (plannerText : list N) :
  planMarkdown session = Some plannerText ->
  let run := executePlanTools h session in
  let executions := stepExecutions h ∅ (planMatches plannerText) in
  rs_executions run = executions
  /\ rs_published run
     = map (fun k => withToolExecutions session (take k executions))
         (seq 1 (length (planMatches plannerText)))
  /\ withToolExecutions (rs_session run) (rs_executions run)
     = withToolExecutions session executions.
Proof.
  intros Hplan. cbv zeta.
  pose proof (executePlanTools_executions h session) as Hexec.
  rewrite Hplan in Hexec. cbn [default] in Hexec.
  destruct (runSteps_published h session
              (planMatches (default [] (planMarkdown session))))
    as (Hpub & Hlen & Hsession).
  fold (executePlanTools h session) in Hpub, Hlen, Hsession.
  rewrite Hplan in Hpub. cbn [default] in Hpub.
  rewrite Hexec in Hpub, Hsession |- *. auto.
Qed.

Lemma map_status_withToolExecutions (session : PlanSession)
    (f : nat -> list PlanToolExecution) (ks : list nat) :
  map status (map (fun k => withToolExecutions session (f k)) ks)
  = replicate (length ks) (status session).
Proof. induction ks as [|k ks IH]; cbn; [|rewrite IH]; reflexivity. Qed.

(** The statuses of the snapshots that the stages after the orchestrator
    publish, in order, once the planner has answered: two in [planning],
    one in [executing_tools] before the tool pass, one per step of the
    plan, one after the pass, one in [solving], and one in [completed]
    exactly when the session completes. *)
Theorem planning_pass_statuses (h : Host) (t : Turn) (session : PlanSession)
    (plannerText : list N) :
  turn_planner t = Replied plannerText ->
  map status (snd (planningStages h t session))
  = [planning; planning; executing_tools]
    ++ replicate (length (planMatches plannerText)) executing_tools
    ++ [executing_tools; solving]
    ++ (if bool_decide (status (fst (planningStages h t session)) = completed)
        then [completed] else []).
Proof.
  intros Hplanner. unfold planningStages. rewrite Hplanner. cbv zeta.
  set (s3 := setStatus executing_tools
               (setPlanMarkdown plannerText (setStatus planning session))).
  destruct (tool_pass_closed_form h s3 plannerText eq_refl)
    as (_ & Hpub & Hsession).
  cbv zeta in Hpub, Hsession. rewrite Hpub, Hsession.
  assert (Hmap : forall tail,
             map status
               ([setStatus planning session;
                 setPlanMarkdown plannerText (setStatus planning session); s3]
                ++ map (fun k => withToolExecutions s3
                                   (take k (stepExecutions h ∅ (planMatches plannerText))))
                     (seq 1 (length (planMatches plannerText)))
                ++ tail)
             = [planning; planning; executing_tools]
               ++ replicate (length (planMatches plannerText)) executing_tools
               ++ map status tail).
  { intros tail. rewrite !map_app, map_status_withToolExecutions, length_seq.
    reflexivity. }
  destruct (turn_solver t) as [solverText| |]; cbn [fst snd];
    [destruct (turn_persist t) as [location|message]; cbn [fst snd]|..].
  - rewrite bool_decide_eq_true_2 by reflexivity.
    rewrite <- !app_assoc, Hmap. reflexivity.
  - rewrite bool_decide_eq_false_2 by discriminate. rewrite Hmap. reflexivity.
  - rewrite bool_decide_eq_false_2 by discriminate. rewrite Hmap. reflexivity.
  - rewrite bool_decide_eq_false_2 by discriminate. rewrite Hmap. reflexivity.
Qed.

Lemma planning_pass_statuses_witness :
  map status (snd (planningStages Demo.host completingTurn Demo.waiting))
  = [planning; planning; executing_tools; executing_tools; executing_tools;
     executing_tools; solving; completed].
Proof.
  rewrite (planning_pass_statuses Demo.host completingTurn Demo.waiting
             Demo.twoReads eq_refl).
  vm_compute. reflexivity.
Defined.

Lemma planningStages_final (h : Host) (t : Turn) (session : PlanSession) :
  let final := fst (planningStages h t session) in
  match turn_planner t, turn_solver t, turn_persist t with
  | Replied plannerText, Replied solverText, Ok location =>
      status final = completed
      /\ planMarkdown final = Some plannerText
      /\ toolExecutions final = stepExecutions h ∅ (planMatches plannerText)
      /\ solverSummary final = Some solverText
      /\ last (snd (planningStages h t session)) = Some final
  | Replied _, _, _ => status final = solving
  | _, _, _ => status final = planning
  end.
Proof.
  cbv zeta. unfold planningStages.
  destruct (turn_planner t) as [plannerText| |]; try reflexivity. cbv zeta.
  set (s3 := setStatus executing_tools
               (setPlanMarkdown plannerText (setStatus planning session))).
  destruct (tool_pass_closed_form h s3 plannerText eq_refl)
    as (_ & _ & Hsession).
  cbv zeta in Hsession. rewrite Hsession.
  destruct (turn_solver t) as [solverText| |]; try reflexivity.
  destruct (turn_persist t) as [location|message]; try reflexivity.
  cbn [fst snd]. repeat (split; [reflexivity|]).
  rewrite !app_assoc. apply last_snoc.
Qed.

(** The caller is handed a response exactly when the call leaves the
    session waiting for an answer or completed; when a stage is aborted or
    fails the session stays in [orchestrating], [planning] or [solving].  A
    call never leaves the session in [executing_tools]. *)
Theorem response_iff_paused_or_completed (h : Host) (t : Turn)
    (session : PlanSession) :
  status session = orchestrating ->
  let final := fst (fst (advanceStages h t session)) in
  (is_Some (advanceResponse h t session)
   <-> status final = awaiting_clarifications \/ status final = completed)
  /\ (advanceResponse h t session = None ->
      status final = orchestrating \/ status final = planning
      \/ status final = solving).
Proof.
  intros Hstatus. cbv zeta. unfold advanceStages, advanceResponse.
  destruct (turn_orchestrator t) as [orchestratorText| |]; cbn [fst];
    try (rewrite Hstatus; split;
         [split; [intros [? [=]]|intros [|]; discriminate]|auto]).
  destruct (parseOrchestratorDecision h orchestratorText) as [decision warnings].
  cbn [fst].
  assert (Hplanning :
    (is_Some
       match turn_planner t, turn_solver t, turn_persist t with
       | Replied _, Replied _, Ok _ =>
           Some (buildFinalResponse (fst (planningStages h t session)))
       | _, _, _ => None
       end
     <-> status (fst (planningStages h t session)) = awaiting_clarifications
         \/ status (fst (planningStages h t session)) = completed)
    /\ (match turn_planner t, turn_solver t, turn_persist t with
        | Replied _, Replied _, Ok _ =>
            Some (buildFinalResponse (fst (planningStages h t session)))
        | _, _, _ => None
        end = None ->
        status (fst (planningStages h t session)) = orchestrating
        \/ status (fst (planningStages h t session)) = planning
        \/ status (fst (planningStages h t session)) = solving)).
  { pose proof (planningStages_final h t session) as Hfinal. cbv zeta in Hfinal.
    destruct (turn_planner t) as [plannerText| |];
      [destruct (turn_solver t) as [solverText| |];
       [destruct (turn_persist t) as [location|message]|..]|..];
      try destruct Hfinal as (Hfinal & _); rewrite Hfinal;
      (split; [split; [intros Hsome|intros [|]] |intros Hnone]);
      try discriminate; try (destruct Hsome as [? [=]]); eauto. }
  destruct (action decision), (question decision) as [[|c q]|];
    cbn [fst]; try exact Hplanning.
  cbn [status setStatus setPendingClarification pushOrchestratorMessage].
  split; [split; eauto|discriminate].
Qed.

Lemma response_iff_paused_or_completed_witness :
  status (fst (intake Demo.waitingProvider (lit "parser.go"))) = orchestrating
  /\ is_Some (advanceResponse Demo.host completingTurn
                (fst (intake Demo.waitingProvider (lit "parser.go"))))
  /\ status (fst (fst (advanceStages Demo.host completingTurn
                         (fst (intake Demo.waitingProvider (lit "parser.go"))))))
     = completed.
Proof.
  assert (Hstart : status (fst (intake Demo.waitingProvider (lit "parser.go")))
                   = orchestrating) by (vm_compute; reflexivity).
  split; [exact Hstart|].
  pose proof (response_iff_paused_or_completed Demo.host completingTurn _ Hstart)
    as [Hiff _].
  cbv zeta in Hiff.
  assert (Hdone : status (fst (fst (advanceStages Demo.host completingTurn
                    (fst (intake Demo.waitingProvider (lit "parser.go"))))))
                  = completed) by (vm_compute; reflexivity).
  split; [apply Hiff; right; exact Hdone|exact Hdone].
Defined.

(** When a call leaves the session waiting for an answer, the planner was
    not consulted: one snapshot was published, the plan and the tool
    executions are those the session had, the pending question is not
    empty and has no white space at either end, it was appended to the
    orchestrator's messages, and the response is the clarifying text. *)
Theorem pause_leaves_plan_untouched (h : Host) (t : Turn)
    (session : PlanSession) :
  status session = orchestrating ->
  let final := fst (fst (advanceStages h t session)) in
  status final = awaiting_clarifications ->
  exists q,
    q <> [] /\ trim q = q
    /\ pendingClarification final = Some q
    /\ orchestratorMessages final
       = orchestratorMessages session ++ [(assistant, q)]
    /\ snd (fst (advanceStages h t session)) = [final]
    /\ planMarkdown final = planMarkdown session
    /\ toolExecutions final = toolExecutions session
    /\ advanceResponse h t session
       = Some (buildClarifyingResponse q (clarifications session)).
Proof.
  intros Hstatus. cbv zeta. unfold advanceStages, advanceResponse.
  destruct (turn_orchestrator t) as [orchestratorText| |]; cbn [fst snd];
    try (rewrite Hstatus; discriminate).
  pose proof (decision_shape_trimmed h orchestratorText) as Htrim.
  destruct (parseOrchestratorDecision h orchestratorText) as [decision warnings].
  cbn [fst] in Htrim |- *.
  pose proof (planningStages_final h t session) as Hfinal. cbv zeta in Hfinal.
  assert (Hnot : status (fst (planningStages h t session))
                 <> awaiting_clarifications).
  { destruct (turn_planner t) as [plannerText| |];
      [destruct (turn_solver t) as [solverText| |];
       [destruct (turn_persist t) as [location|message]|..]|..];
      try destruct Hfinal as (Hfinal & _); rewrite Hfinal; discriminate. }
  destruct (action decision), (question decision) as [[|c q]|];
    cbn [fst snd]; try (intros Hwait; contradiction).
  intros _. exists (c :: q).
  split; [discriminate|]. split; [apply Htrim; reflexivity|].
  repeat split; reflexivity.
Qed.

Lemma pause_leaves_plan_untouched_witness :
  let session := fst (intake Demo.waitingProvider (lit "parser.go")) in
  status session = orchestrating
  /\ status (fst (fst (advanceStages askingHost clarifyingTurn session)))
     = awaiting_clarifications
  /\ exists q,
       q <> []
       /\ pendingClarification
            (fst (fst (advanceStages askingHost clarifyingTurn session)))
          = Some q
       /\ advanceResponse askingHost clarifyingTurn session
          = Some (buildClarifyingResponse q (clarifications session)).
Proof.
  cbv zeta.
  assert (Hstart : status (fst (intake Demo.waitingProvider (lit "parser.go")))
                   = orchestrating) by (vm_compute; reflexivity).
  assert (Hwait : status (fst (fst (advanceStages askingHost clarifyingTurn
                    (fst (intake Demo.waitingProvider (lit "parser.go"))))))
                  = awaiting_clarifications) by (vm_compute; reflexivity).
  split; [exact Hstart|]. split; [exact Hwait|].
  destruct (pause_leaves_plan_untouched askingHost clarifyingTurn _ Hstart Hwait)
    as (q & Hq & _ & Hpending & _ & _ & _ & _ & Hresponse).
  exists q. auto.
Defined.

(** A completed session holds the planner's text as its plan, the
    executions of exactly the steps of that text, started from an empty
    table, and the solver's text; it is the last snapshot published, and
    the response is rendered from it. *)
Theorem completed_session_contents (h : Host) (t : Turn)
    (session : PlanSession) :
  status session = orchestrating ->
  let final := fst (fst (advanceStages h t session)) in
  status final = completed ->
  exists plannerText solverText location,
    turn_planner t = Replied plannerText
    /\ turn_solver t = Replied solverText
    /\ turn_persist t = Ok location
    /\ planMarkdown final = Some plannerText
    /\ toolExecutions final = stepExecutions h ∅ (planMatches plannerText)
    /\ solverSummary final = Some solverText
    /\ last (snd (fst (advanceStages h t session))) = Some final
    /\ advanceResponse h t session = Some (buildFinalResponse final).
Proof.
  intros Hstatus. cbv zeta. unfold advanceStages, advanceResponse.
  destruct (turn_orchestrator t) as [orchestratorText| |]; cbn [fst snd];
    try (rewrite Hstatus; discriminate).
  destruct (parseOrchestratorDecision h orchestratorText) as [decision warnings].
  cbn [fst].
  assert (Hplanning :
    status (fst (planningStages h t session)) = completed ->
    exists plannerText solverText location,
      turn_planner t = Replied plannerText
      /\ turn_solver t = Replied solverText
      /\ turn_persist t = Ok location
      /\ planMarkdown (fst (planningStages h t session)) = Some plannerText
      /\ toolExecutions (fst (planningStages h t session))
         = stepExecutions h ∅ (planMatches plannerText)
      /\ solverSummary (fst (planningStages h t session)) = Some solverText
      /\ last (snd (planningStages h t session))
         = Some (fst (planningStages h t session))
      /\ match turn_planner t, turn_solver t, turn_persist t with
         | Replied _, Replied _, Ok _ =>
             Some (buildFinalResponse (fst (planningStages h t session)))
         | _, _, _ => None
         end = Some (buildFinalResponse (fst (planningStages h t session)))).
  { pose proof (planningStages_final h t session) as Hfinal. cbv zeta in Hfinal.
    destruct (turn_planner t) as [plannerText| |];
      [destruct (turn_solver t) as [solverText| |];
       [destruct (turn_persist t) as [location|message]|..]|..];
      try (rewrite Hfinal; discriminate).
    destruct Hfinal as (_ & Hplan & Hexec & Hsolver & Hlast).
    intros _. exists plannerText, solverText, location.
    repeat (split; [first [reflexivity | assumption]|]). reflexivity. }
  destruct (action decision), (question decision) as [[|c q]|];
    cbn [fst snd]; try exact Hplanning.
  discriminate.
Qed.

Lemma completed_session_contents_witness :
  let session := fst (intake Demo.waitingProvider (lit "parser.go")) in
  let final := fst (fst (advanceStages Demo.host completingTurn session)) in
  status session = orchestrating
  /\ status final = completed
  /\ planMarkdown final = Some Demo.twoReads
  /\ toolExecutions final
     = stepExecutions Demo.host ∅ (planMatches Demo.twoReads)
  /\ advanceResponse Demo.host completingTurn session
     = Some (buildFinalResponse final).
Proof.
  cbv zeta.
  assert (Hstart : status (fst (intake Demo.waitingProvider (lit "parser.go")))
                   = orchestrating) by (vm_compute; reflexivity).
  assert (Hdone : status (fst (fst (advanceStages Demo.host completingTurn
                    (fst (intake Demo.waitingProvider (lit "parser.go"))))))
                  = completed) by (vm_compute; reflexivity).
  split; [exact Hstart|]. split; [exact Hdone|].
  destruct (completed_session_contents Demo.host completingTurn _ Hstart Hdone)
    as (plannerText & solverText & location & Hplanner & _ & _ & Hplan & Hexec
        & _ & _ & Hresponse).
  injection Hplanner as <-. auto.
Defined.

(** The stages of a call never touch the identity of the session: the id,
    the task, the task history and the answered clarifications are the
    same in every snapshot published and in the session the call leaves. *)
Theorem stages_keep_identity (h : Host) (t : Turn) (session : PlanSession) :
  Forall (fun s => sessionId s = sessionId session
                   /\ task s = task session
                   /\ taskHistory s = taskHistory session
                   /\ clarifications s = clarifications session)
         (fst (fst (advanceStages h t session))
          :: snd (fst (advanceStages h t session))).
Proof.
  set (same := fun s => sessionId s = sessionId session
                        /\ task s = task session
                        /\ taskHistory s = taskHistory session
                        /\ clarifications s = clarifications session).
  assert (Hself : same session) by (repeat split).
  assert (Hplanning : Forall same (fst (planningStages h t session)
                                   :: snd (planningStages h t session))).
  { unfold planningStages.
    destruct (turn_planner t) as [plannerText| |];
      try (repeat constructor; fail). cbv zeta.
    set (s3 := setStatus executing_tools
                 (setPlanMarkdown plannerText (setStatus planning session))).
    destruct (executePlanTools_stage h same s3) as [Hrun Hpub];
      [intros s executions Hs; exact Hs|repeat split|].
    set (run := executePlanTools h s3) in *.
    assert (H4 : same (withToolExecutions (rs_session run) (rs_executions run)))
      by exact Hrun.
    assert (Hup : Forall same
                    ([setStatus planning session;
                      setPlanMarkdown plannerText (setStatus planning session);
                      s3]
                     ++ rs_published run
                     ++ [withToolExecutions (rs_session run) (rs_executions run);
                         setStatus solving
                           (withToolExecutions (rs_session run)
                              (rs_executions run))])).
    { apply Forall_app. split; [repeat constructor|].
      apply Forall_app. split; [exact Hpub|].
      constructor; [exact H4|]. constructor; [exact H4|constructor]. }
    destruct (turn_solver t) as [solverText| |]; cbn [fst snd];
      [destruct (turn_persist t) as [location|message]; cbn [fst snd]|..];
      try (constructor; [exact H4|exact Hup]).
    constructor; [exact H4|].
    apply Forall_app. split; [exact Hup|]. constructor; [exact H4|constructor]. }
  unfold advanceStages.
  destruct (turn_orchestrator t) as [orchestratorText| |]; cbn [fst snd];
    try (constructor; [exact Hself|constructor]).
  destruct (parseOrchestratorDecision h orchestratorText) as [decision warnings].
  destruct (action decision), (question decision) as [[|c q]|];
    cbn [fst snd]; try exact Hplanning.
  constructor; [exact Hself|]. constructor; [exact Hself|constructor].
Qed.

(** ** A call without a model *)

Lemma intake_records_input (p : Provider) (trimmedQuestion : list N) :
  last (orchestratorMessages (fst (intake p trimmedQuestion)))
  = Some (user, trimmedQuestion).
Proof.
  unfold intake.
  destruct (match planSession p with
            | Some s =>
                if bool_decide (status s = completed)
                then (startPlanSession p trimmedQuestion,
                      afterStart p trimmedQuestion)
                else (s, p)
            | None => (startPlanSession p trimmedQuestion,
                       afterStart p trimmedQuestion)
            end) as [session p1].
  destruct (match pendingClarification session with
            | Some (c :: q) => _
            | _ => _
            end) as [session2 p2].
  cbn [fst orchestratorMessages pushOrchestratorMessage]. apply last_snoc.
Qed.

(** The check for a model comes after the input was taken in: a call
    without a model throws, yet it has recorded the trimmed input as the
    last orchestrator message and published that session once; no stage
    ran.  A call with a model returns, and its first snapshot holds the
    input in the same way. *)
Theorem input_recorded_before_model_check (h : Host) (p : Provider) (t : Turn) :
  let advance := planModeChat h p t in
  (exists first,
      head (adv_published advance) = Some first
      /\ last (orchestratorMessages first) = Some (user, trim (turn_question t)))
  /\ (turn_hasModel t = false <-> adv_ending advance = ThrewNoModel)
  /\ (turn_hasModel t = false ->
      adv_published advance = [adv_session advance]
      /\ adv_warnings advance = []).
Proof.
  cbv zeta. unfold planModeChat.
  pose proof (intake_records_input p (trim (turn_question t))) as Hlast.
  destruct (intake p (trim (turn_question t))) as [session p1].
  cbn [fst] in Hlast.
  destruct (turn_hasModel t).
  - destruct (advanceStages h t session) as [[final published] warnings].
    cbn [adv_published adv_ending adv_provider adv_session planSession head].
    split; [exists session; auto|].
    split; [split; discriminate|discriminate].
  - cbn [adv_published adv_ending adv_provider adv_session adv_warnings
         planSession head].
    split; [exists session; auto|].
    split; [split; reflexivity|]. intros _. split; reflexivity.
Qed.

Lemma input_recorded_before_model_check_witness :
  let t := {| turn_question := lit " parser.go "; turn_hasModel := false;
              turn_orchestrator := Failed; turn_planner := Failed;
              turn_solver := Failed; turn_persist := Ok None |} in
  adv_ending (planModeChat Demo.host Demo.waitingProvider t) = ThrewNoModel
  /\ adv_published (planModeChat Demo.host Demo.waitingProvider t)
     = [adv_session (planModeChat Demo.host Demo.waitingProvider t)].
Proof.
  cbv zeta.
  destruct (input_recorded_before_model_check Demo.host Demo.waitingProvider
              {| turn_question := lit " parser.go "; turn_hasModel := false;
                 turn_orchestrator := Failed; turn_planner := Failed;
                 turn_solver := Failed; turn_persist := Ok None |})
    as (_ & Hending & Hpublished).
  split; [apply Hending; reflexivity|apply Hpublished; reflexivity].
Defined.
